(** * The CXone Signal API node (signalApi.ts), embedded in Rocq

    The node function of [signalApi] is a sequential pipeline over a mutable
    session object: check the cached token, discover the token endpoint,
    request a token, discover the API endpoint, build the signal URL, call the
    Signal API and store the response; a [catch] around the whole body turns
    every failure into an error object written to the cache.

    The embedding follows the TypeScript source statement by statement:

    - JavaScript values are an inductive type [value]; objects are ordered
      property lists, the Cognigy [context] and [input] are finite maps;
    - strings are Rocq strings read as the UTF-8 bytes of well-formed text
      (a string with an unpaired surrogate has no counterpart here);
    - numbers are exact decimals: the rounding of IEEE doubles is outside the
      model;
    - the pipeline runs in a state-and-exception monad [M]; the network and
      the clock are the [World] an invocation runs in;
    - the built-ins the source calls ([split], [Buffer.from(_, 'base64')],
      [toString('utf8')], [JSON.parse], [encodeURIComponent],
      [URLSearchParams]) are defined from their documented behaviour. *)

From Stdlib Require Import ZArith NArith List String Ascii Bool Lia DecimalString.
From stdpp Require Import base option gmap strings list.

Set Warnings "-register-all".
Open Scope string_scope.
Open Scope list_scope.

(** ** Characters and strings *)

Definition chr (n : N) : ascii := ascii_of_N n.
Definition code (c : ascii) : N := N_of_ascii c.

Definition quote : ascii := chr 34.
Definition backslash : ascii := chr 92.

Definition in_range (lo hi : N) (c : ascii) : bool :=
  ((lo <=? code c) && (code c <=? hi))%N.

Definition is_digit (c : ascii) : bool := in_range 48 57 c.
Definition is_upper (c : ascii) : bool := in_range 65 90 c.
Definition is_lower (c : ascii) : bool := in_range 97 122 c.
Definition is_alnum (c : ascii) : bool := is_digit c || is_upper c || is_lower c.

Definition string_of_bytes (l : list N) : string :=
  string_of_list_ascii (map chr l).
Definition bytes_of_string (s : string) : list N :=
  map code (list_ascii_of_string s).

(** [String.prototype.split(sep)] for a one-character separator: the pieces
    between the separators, empty pieces included. *)
Fixpoint split_go (sep : ascii) (s : string) (cur : string) : list string :=
  match s with
  | EmptyString => [String.rev cur]
  | String c r =>
      if Ascii.eqb c sep then String.rev cur :: split_go sep r EmptyString
      else split_go sep r (String c cur)
  end.

Definition split (sep : ascii) (s : string) : list string :=
  split_go sep s EmptyString.

(** [Array.prototype.join(sep)] on an array of strings. *)
Fixpoint join (sep : string) (l : list string) : string :=
  match l with
  | [] => EmptyString
  | [x] => x
  | x :: r => x +:+ sep +:+ join sep r
  end.

(** The longest prefix of characters satisfying [p], and the rest. *)
Fixpoint span (p : ascii -> bool) (s : string) : string * string :=
  match s with
  | EmptyString => (EmptyString, EmptyString)
  | String c r =>
      if p c then let '(a, b) := span p r in (String c a, b)
      else (EmptyString, s)
  end.

(** [s] without the prefix [pre], when it starts with it. *)
Fixpoint strip_prefix (pre s : string) : option string :=
  match pre, s with
  | EmptyString, _ => Some s
  | String a p, String b r => if Ascii.eqb a b then strip_prefix p r else None
  | String _ _, EmptyString => None
  end.

(** Decimal digits of a natural number and of an integer. *)
Definition dec_N (n : N) : string := NilZero.string_of_uint (N.to_uint n).
Definition dec_nat (n : nat) : string := dec_N (N.of_nat n).
Definition dec_Z (z : Z) : string :=
  if (z <? 0)%Z then "-" +:+ dec_N (Z.to_N (- z)) else dec_N (Z.to_N z).

(** The value of a digit string in base [b] (digits already checked). *)
Definition digit_val (c : ascii) : N :=
  if is_digit c then (code c - 48)%N
  else if is_lower c then (code c - 87)%N
  else if is_upper c then (code c - 55)%N
  else 0%N.

Definition digits_val (b : N) (s : string) : N :=
  fold_left (fun acc c => (acc * b + digit_val c)%N) (list_ascii_of_string s) 0%N.

Definition hex_digit (c : ascii) : bool :=
  is_digit c || in_range 65 70 c || in_range 97 102 c.

Definition all_chars (p : ascii -> bool) (s : string) : bool :=
  forallb p (list_ascii_of_string s).

(** ** Numbers

    A number is the exact decimal [mant / 10^places]; integers have
    [places = 0].  The parser normalises, so that equal numbers are equal
    terms. *)

Record number := Num { mant : Z; places : nat }.

Definition of_Z (z : Z) : number := Num z 0.

Fixpoint normalize (m : Z) (k : nat) : number :=
  match k with
  | O => Num m 0
  | S k' => if (m mod 10 =? 0)%Z then normalize (m / 10) k' else Num m k
  end.

Definition num_ltb (a b : number) : bool :=
  (mant a * 10 ^ Z.of_nat (places b) <? mant b * 10 ^ Z.of_nat (places a))%Z.

Definition num_is_zero (a : number) : bool := (mant a =? 0)%Z.

(** [m * 10^e] for a signed decimal exponent. *)
Definition scale10 (m : Z) (e : Z) : number :=
  if (0 <=? e)%Z then Num (m * 10 ^ e) 0 else normalize m (Z.to_nat (- e)).

(** Positional notation: the integer part, and the fraction padded to
    [places] digits.  (JavaScript switches to exponent notation from 1e21 and
    below 1e-6; the model does not.) *)
Definition pad_left (n : nat) (s : string) : string :=
  string_of_list_ascii (repeat "0"%char (n - String.length s)) +:+ s.

Definition number_to_string (a : number) : string :=
  match places a with
  | O => dec_Z (mant a)
  | k =>
      let p := (10 ^ Z.of_nat k)%Z in
      let m := Z.abs (mant a) in
      (if (mant a <? 0)%Z then "-" else EmptyString) +:+ dec_Z (m / p) +:+ "." +:+
      pad_left k (dec_Z (m mod p))
  end.

(** The results of [ToNumber]: a finite number, or one of the three values
    JSON cannot write. *)
Inductive jsnum := NaN | Fin (n : number) | PosInf | NegInf.

(** ** Values *)

Inductive value : Type :=
| VUndef
| VNull
| VBool (b : bool)
| VNum (n : number)
| VStr (s : string)
| VArr (items : list value)
| VObj (props : list (string * value)).

(** [ToBoolean]. *)
Definition truthy (v : value) : bool :=
  match v with
  | VUndef | VNull => false
  | VBool b => b
  | VNum n => negb (num_is_zero n)
  | VStr s => negb (String.eqb s EmptyString)
  | VArr _ | VObj _ => true
  end.

(** [a || b] on values. *)
Definition js_or (a b : value) : value := if truthy a then a else b.

(** Property lists: lookup, and assignment that keeps the position of an
    existing key and appends a new one. *)
Fixpoint assoc (k : string) (o : list (string * value)) : option value :=
  match o with
  | [] => None
  | (k', v) :: r => if String.eqb k k' then Some v else assoc k r
  end.

Fixpoint assign (k : string) (v : value) (o : list (string * value))
  : list (string * value) :=
  match o with
  | [] => [(k, v)]
  | (k', v') :: r =>
      if String.eqb k k' then (k, v) :: r else (k', v') :: assign k v r
  end.

(** The length of a string in UTF-16 code units, read off its UTF-8 bytes:
    a continuation byte counts for nothing, the lead byte of a four-byte
    sequence for two. *)
Definition utf16_length (s : string) : nat :=
  fold_right (fun c n => if in_range 128 191 c then n
                         else if in_range 240 255 c then S (S n)
                         else S n)
             O (list_ascii_of_string s).

(** [v.k] for a [v] that is neither [null] nor [undefined].  Strings and
    arrays have a [length]; no other name the node reads is defined on a
    prototype (and it reads no index), so anything else that is not an own
    property is [undefined]. *)
Definition get_prop (v : value) (k : string) : value :=
  match v with
  | VObj o => default VUndef (assoc k o)
  | VStr s => if String.eqb k "length" then VNum (of_Z (Z.of_nat (utf16_length s))) else VUndef
  | VArr l => if String.eqb k "length" then VNum (of_Z (Z.of_nat (List.length l))) else VUndef
  | _ => VUndef
  end.

Definition is_object (v : value) : bool :=
  match v with VObj _ => true | _ => false end.

(** ** Percent-encoding *)

Definition hex_char (n : N) : ascii :=
  if (n <? 10)%N then chr (48 + n) else chr (55 + n).

Definition percent (c : ascii) : string :=
  String "%" (String (hex_char (code c / 16)) (String (hex_char (code c mod 16)) EmptyString)).

Definition escape_with (keep : ascii -> bool) (s : string) : string :=
  String.concat EmptyString (map (fun c => if keep c then String c EmptyString else percent c)
                        (list_ascii_of_string s)).

Definition one_of (set : string) (c : ascii) : bool :=
  existsb (Ascii.eqb c) (list_ascii_of_string set).

(** [encodeURIComponent]: every byte of the UTF-8 text is escaped except
    letters, digits and [- _ . ! ~ * ' ( )].  (On a string with an unpaired
    surrogate the function of JavaScript throws a [URIError]; such a string
    is no well-formed text and has no counterpart here.) *)
Definition uri_unreserved (c : ascii) : bool := is_alnum c || one_of "-_.!~*'()" c.

Definition encodeURIComponent (s : string) : string := escape_with uri_unreserved s.

(** [URLSearchParams.prototype.toString]: the form-urlencoded serializer
    keeps letters, digits and [* - . _], writes a space as [+] and escapes
    the rest. *)
Definition form_keep (c : ascii) : bool := is_alnum c || one_of "*-._" c.

Definition form_encode (s : string) : string :=
  String.concat EmptyString (map (fun c => if Ascii.eqb c " " then "+"
                                  else if form_keep c then String c EmptyString
                                  else percent c)
                        (list_ascii_of_string s)).

Definition URLSearchParams_toString (l : list (string * string)) : string :=
  join "&" (map (fun '(k, v) => form_encode k +:+ "=" +:+ form_encode v) l).

(** ** Base64 *)

Definition base64_alphabet : string :=
  "ABCDEFGHIJKLMNOPQRSTUVWXYZabcdefghijklmnopqrstuvwxyz0123456789+/".

Definition base64_char (n : N) : ascii :=
  nth (N.to_nat n) (list_ascii_of_string base64_alphabet) "="%char.

(** [Buffer.prototype.toString('base64')]: standard alphabet, padded. *)
Fixpoint base64_encode (l : list N) : string :=
  match l with
  | a :: b :: c :: r =>
      String (base64_char (N.shiftr a 2))
     (String (base64_char (N.lor (N.shiftl (N.land a 3) 4) (N.shiftr b 4)))
     (String (base64_char (N.lor (N.shiftl (N.land b 15) 2) (N.shiftr c 6)))
     (String (base64_char (N.land c 63)) (base64_encode r))))
  | [a; b] =>
      String (base64_char (N.shiftr a 2))
     (String (base64_char (N.lor (N.shiftl (N.land a 3) 4) (N.shiftr b 4)))
     (String (base64_char (N.shiftl (N.land b 15) 2)) "="))
  | [a] =>
      String (base64_char (N.shiftr a 2))
     (String (base64_char (N.shiftl (N.land a 3) 4)) "==")
  | [] => EmptyString
  end.

(** The value of a base64 character.  The decoder of [Buffer.from] accepts
    the standard alphabet and the URL-safe one alike. *)
Definition unbase64 (c : ascii) : option N :=
  if is_upper c then Some (code c - 65)%N
  else if is_lower c then Some (code c - 71)%N
  else if is_digit c then Some (code c + 4)%N
  else if one_of "+-" c then Some 62%N
  else if one_of "/_" c then Some 63%N
  else None.

(** The six-bit groups the decoder reads: characters outside the alphabet
    are skipped, the first [=] ends the input. *)
Fixpoint sextets (s : string) : list N :=
  match s with
  | EmptyString => []
  | String c r =>
      if Ascii.eqb c "=" then []
      else match unbase64 c with
           | Some n => n :: sextets r
           | None => sextets r
           end
  end.

Fixpoint decode_groups (l : list N) : list N :=
  match l with
  | a :: b :: c :: d :: r =>
      N.lor (N.shiftl a 2) (N.shiftr b 4)
      :: N.lor (N.shiftl (N.land b 15) 4) (N.shiftr c 2)
      :: N.lor (N.shiftl (N.land c 3) 6) d
      :: decode_groups r
  | [a; b; c] =>
      [N.lor (N.shiftl a 2) (N.shiftr b 4);
       N.lor (N.shiftl (N.land b 15) 4) (N.shiftr c 2)]
  | [a; b] => [N.lor (N.shiftl a 2) (N.shiftr b 4)]
  | _ => []
  end.

(** [Buffer.from(s, 'base64')]: never fails, whatever [s] is. *)
Definition Buffer_from_base64 (s : string) : list N := decode_groups (sextets s).

(** [Buffer.from(s)] (UTF-8): the bytes of the text. *)
Definition Buffer_from_utf8 (s : string) : list N := bytes_of_string s.

(** ** UTF-8 *)

(** The bytes of a code point (surrogates included, for the escapes of
    JSON). *)
Definition utf8_encode (cp : N) : list N :=
  if (cp <? 128)%N then [cp]
  else if (cp <? 2048)%N then
    [N.lor 192 (N.shiftr cp 6); N.lor 128 (N.land cp 63)]
  else if (cp <? 65536)%N then
    [N.lor 224 (N.shiftr cp 12); N.lor 128 (N.land (N.shiftr cp 6) 63);
     N.lor 128 (N.land cp 63)]
  else
    [N.lor 240 (N.shiftr cp 18); N.lor 128 (N.land (N.shiftr cp 12) 63);
     N.lor 128 (N.land (N.shiftr cp 6) 63); N.lor 128 (N.land cp 63)].

Definition replacement : list N := [239; 191; 189]%N.

(** The decoder's state between two bytes: nothing pending, or the bytes of
    an unfinished sequence with the number still needed and the bounds of
    the next one. *)
Record utf8_state := Utf8 { pending : list N; needed : nat; lower : N; upper : N }.

Definition utf8_idle : utf8_state := Utf8 [] 0 128 191.

(** A byte read with nothing pending: what is emitted and the new state. *)
Definition utf8_lead (b : N) : list N * utf8_state :=
  if (b <=? 127)%N then ([b], utf8_idle)
  else if ((194 <=? b) && (b <=? 223))%N then ([], Utf8 [b] 1 128 191)
  else if ((224 <=? b) && (b <=? 239))%N then
    ([], Utf8 [b] 2 (if (b =? 224)%N then 160 else 128) (if (b =? 237)%N then 159 else 191))
  else if ((240 <=? b) && (b <=? 244))%N then
    ([], Utf8 [b] 3 (if (b =? 240)%N then 144 else 128) (if (b =? 244)%N then 143 else 191))
  else (replacement, utf8_idle).

Definition utf8_step (st : utf8_state) (b : N) : list N * utf8_state :=
  match needed st with
  | O => utf8_lead b
  | S n =>
      if ((lower st <=? b) && (b <=? upper st))%N then
        match n with
        | O => (pending st ++ [b], utf8_idle)
        | _ => ([], Utf8 (pending st ++ [b]) n 128 191)
        end
      else
        let '(out, st') := utf8_lead b in (replacement ++ out, st')
  end.

Fixpoint utf8_decode (st : utf8_state) (l : list N) : list N :=
  match l with
  | [] => match needed st with O => [] | _ => replacement end
  | b :: r => let '(out, st') := utf8_step st b in out ++ utf8_decode st' r
  end.

(** [buf.toString('utf8')]: never fails; an ill-formed sequence becomes
    U+FFFD. *)
Definition Buffer_toString_utf8 (l : list N) : string :=
  string_of_bytes (utf8_decode utf8_idle l).

(** ** JSON.parse *)

Definition is_empty (s : string) : bool := String.eqb s EmptyString.

(** A JSON number: an optional minus sign; an integer part without a
    leading zero (unless it is the single digit 0); optionally a point and at
    least one digit; optionally an exponent. *)
Definition exponent_part (s : string) : option Z :=
  match s with
  | EmptyString => Some 0%Z
  | String c r =>
      if one_of "eE" c then
        let '(neg, r1) :=
          match r with
          | String d r' => if Ascii.eqb d "-" then (true, r')
                           else if Ascii.eqb d "+" then (false, r') else (false, r)
          | EmptyString => (false, r)
          end in
        let '(ep, r2) := span is_digit r1 in
        if is_empty ep || negb (is_empty r2) then None
        else let e := Z.of_N (digits_val 10 ep) in Some (if neg then - e else e)%Z
      else None
  end.

Definition decimal (neg : bool) (ip fp : string) (e : Z) : number :=
  let m := Z.of_N (digits_val 10 (ip +:+ fp)) in
  scale10 (if neg then - m else m)%Z (e - Z.of_nat (String.length fp)).

Definition json_number (w : string) : option number :=
  let '(neg, w1) :=
    match w with
    | String c r => if Ascii.eqb c "-" then (true, r) else (false, w)
    | EmptyString => (false, w)
    end in
  let '(ip, w2) := span is_digit w1 in
  let leading_zero :=
    match ip with String c (String _ _) => Ascii.eqb c "0" | _ => false end in
  if is_empty ip || leading_zero then None
  else
    let frac :=
      match w2 with
      | String c r =>
          if Ascii.eqb c "." then
            let '(fp, w3) := span is_digit r in
            if is_empty fp then None else Some (fp, w3)
          else Some (EmptyString, w2)
      | EmptyString => Some (EmptyString, w2)
      end in
    match frac with
    | None => None
    | Some (fp, w3) =>
        match exponent_part w3 with
        | None => None
        | Some e => Some (decimal neg ip fp e)
        end
    end.

(** The text between the quotes of a JSON string, with its escapes
    resolved.  A [\u] escape is a UTF-16 code unit; a high surrogate followed
    by an escaped low one is a single code point. *)
Definition hex4 (a b c d : ascii) : option N :=
  if hex_digit a && hex_digit b && hex_digit c && hex_digit d
  then Some (digits_val 16 (String a (String b (String c (String d EmptyString)))))
  else None.

Definition low_surrogate_escape (s : string) : option (N * string) :=
  match s with
  | String b (String u (String h1 (String h2 (String h3 (String h4 r))))) =>
      if Ascii.eqb b backslash && Ascii.eqb u "u" then
        match hex4 h1 h2 h3 h4 with
        | Some lo => if ((56320 <=? lo) && (lo <=? 57343))%N then Some (lo, r) else None
        | None => None
        end
      else None
  | _ => None
  end.

Definition simple_escape (c : ascii) : option ascii :=
  if Ascii.eqb c quote || Ascii.eqb c backslash || Ascii.eqb c "/" then Some c
  else if Ascii.eqb c "b" then Some (chr 8)
  else if Ascii.eqb c "f" then Some (chr 12)
  else if Ascii.eqb c "n" then Some (chr 10)
  else if Ascii.eqb c "r" then Some (chr 13)
  else if Ascii.eqb c "t" then Some (chr 9)
  else None.

Fixpoint unescape (s : string) : option string :=
  match s with
  | EmptyString => Some EmptyString
  | String c r =>
      if Ascii.eqb c backslash then
        match r with
        | EmptyString => None
        | String e r1 =>
            if Ascii.eqb e "u" then
              match r1 with
              | String h1 (String h2 (String h3 (String h4 r2))) =>
                  match hex4 h1 h2 h3 h4 with
                  | None => None
                  | Some cu =>
                      let single :=
                        match unescape r2 with
                        | Some t => Some (string_of_bytes (utf8_encode cu) +:+ t)
                        | None => None
                        end in
                      if ((55296 <=? cu) && (cu <=? 56319))%N then
                        match r2 with
                        | String b1 (String b2 (String l1 (String l2 (String l3 (String l4 r3))))) =>
                            match low_surrogate_escape r2 with
                            | Some (lo, _) =>
                                match unescape r3 with
                                | Some t =>
                                    let cp := (65536 + (cu - 55296) * 1024 + (lo - 56320))%N in
                                    Some (string_of_bytes (utf8_encode cp) +:+ t)
                                | None => None
                                end
                            | None => single
                            end
                        | _ => single
                        end
                      else single
                  end
              | _ => None
              end
            else
              match simple_escape e, unescape r1 with
              | Some x, Some t => Some (String x t)
              | _, _ => None
              end
        end
      else
        match unescape r with
        | Some t => Some (String c t)
        | None => None
        end
  end.

Inductive token :=
| TLBrace | TRBrace | TLBracket | TRBracket | TColon | TComma
| TString (s : string)
| TScalar (v : value).

(** The lexer reads one character at a time.  Between tokens it is [Idle];
    inside a string it collects the raw text (reversed) and remembers a
    pending backslash; a number or a literal is collected as a word and
    classified when it ends. *)
Inductive lexer :=
| Idle
| InString (raw : string) (escaped : bool)
| InWord (raw : string).

Definition is_json_space (c : ascii) : bool :=
  Ascii.eqb c " " || Ascii.eqb c (chr 9) || Ascii.eqb c (chr 10) || Ascii.eqb c (chr 13).

Definition is_word_char (c : ascii) : bool := is_alnum c || one_of "+-." c.

Definition word_token (raw : string) : option token :=
  let w := String.rev raw in
  if String.eqb w "true" then Some (TScalar (VBool true))
  else if String.eqb w "false" then Some (TScalar (VBool false))
  else if String.eqb w "null" then Some (TScalar VNull)
  else match json_number w with
       | Some n => Some (TScalar (VNum n))
       | None => None
       end.

Definition lex_idle (c : ascii) : option (list token * lexer) :=
  if is_json_space c then Some ([], Idle)
  else if Ascii.eqb c quote then Some ([], InString EmptyString false)
  else if Ascii.eqb c "{" then Some ([TLBrace], Idle)
  else if Ascii.eqb c "}" then Some ([TRBrace], Idle)
  else if Ascii.eqb c "[" then Some ([TLBracket], Idle)
  else if Ascii.eqb c "]" then Some ([TRBracket], Idle)
  else if Ascii.eqb c ":" then Some ([TColon], Idle)
  else if Ascii.eqb c "," then Some ([TComma], Idle)
  else if is_word_char c then Some ([], InWord (String c EmptyString))
  else None.

Definition lex_step (st : lexer) (c : ascii) : option (list token * lexer) :=
  match st with
  | Idle => lex_idle c
  | InString raw true => Some ([], InString (String c raw) false)
  | InString raw false =>
      if Ascii.eqb c quote then
        match unescape (String.rev raw) with
        | Some s => Some ([TString s], Idle)
        | None => None
        end
      else if (code c <? 32)%N then None
      else Some ([], InString (String c raw) (Ascii.eqb c backslash))
  | InWord raw =>
      if is_word_char c then Some ([], InWord (String c raw))
      else
        match word_token raw, lex_idle c with
        | Some t, Some (ts, st') => Some (t :: ts, st')
        | _, _ => None
        end
  end.

Fixpoint lex (st : lexer) (s : string) : option (list token) :=
  match s with
  | EmptyString =>
      match st with
      | Idle => Some []
      | InString _ _ => None
      | InWord raw => match word_token raw with Some t => Some [t] | None => None end
      end
  | String c r =>
      match lex_step st c with
      | Some (ts, st') =>
          match lex st' r with
          | Some rest => Some (ts ++ rest)
          | None => None
          end
      | None => None
      end
  end.

(** The parser keeps the containers it is inside of on a stack. *)
Inductive container :=
| InArr (done : list value)
| InObj (done : list (string * value)) (key : string).

Inductive expect :=
| Value
| ValueOrClose
| KeyOrClose
| Key (done : list (string * value))
| Colon (done : list (string * value)) (key : string)
| Done (v : value).

(** A repeated key keeps its first position and its last value.  (The
    members are kept in the order of the text; JavaScript lists the keys that
    are array indices first.) *)
Definition make_object (members : list (string * value)) : value :=
  VObj (fold_left (fun o '(k, v) => assign k v o) members []).

Definition start_value (t : token) (st : list container) : option (expect * list container) :=
  match t with
  | TScalar v => Some (Done v, st)
  | TString s => Some (Done (VStr s), st)
  | TLBracket => Some (ValueOrClose, InArr [] :: st)
  | TLBrace => Some (KeyOrClose, st)
  | _ => None
  end.

Definition parse_step (e : expect) (st : list container) (t : token)
  : option (expect * list container) :=
  match e, t with
  | Value, _ => start_value t st
  | ValueOrClose, TRBracket =>
      match st with
      | InArr _ :: st' => Some (Done (VArr []), st')
      | _ => None
      end
  | ValueOrClose, _ => start_value t st
  | KeyOrClose, TRBrace => Some (Done (VObj []), st)
  | KeyOrClose, TString k => Some (Colon [] k, st)
  | Key done, TString k => Some (Colon done k, st)
  | Colon done k, TColon => Some (Value, InObj done k :: st)
  | Done v, TComma =>
      match st with
      | InArr done :: st' => Some (Value, InArr (v :: done) :: st')
      | InObj done k :: st' => Some (Key ((k, v) :: done), st')
      | [] => None
      end
  | Done v, TRBracket =>
      match st with
      | InArr done :: st' => Some (Done (VArr (rev (v :: done))), st')
      | _ => None
      end
  | Done v, TRBrace =>
      match st with
      | InObj done k :: st' => Some (Done (make_object (rev ((k, v) :: done))), st')
      | _ => None
      end
  | _, _ => None
  end.

Fixpoint parse (e : expect) (st : list container) (ts : list token) : option value :=
  match ts with
  | [] => match e, st with Done v, [] => Some v | _, _ => None end
  | t :: r =>
      match parse_step e st t with
      | Some (e', st') => parse e' st' r
      | None => None
      end
  end.

(** [JSON.parse(text)]; [None] stands for the [SyntaxError]. *)
Definition JSON_parse (text : string) : option value :=
  match lex Idle text with
  | Some ts => parse Value [] ts
  | None => None
  end.

(** ** Conversions *)

(** [ToString], as a template literal applies it. *)
Fixpoint ToString (v : value) : string :=
  match v with
  | VUndef => "undefined"
  | VNull => "null"
  | VBool true => "true"
  | VBool false => "false"
  | VNum n => number_to_string n
  | VStr s => s
  | VArr l =>
      join "," (map (fun x => match x with
                              | VUndef | VNull => EmptyString
                              | _ => ToString x
                              end) l)
  | VObj _ => "[object Object]"
  end.

(** The white space [StringToNumber] trims, as UTF-8: the white-space and
    line-terminator code points of ECMAScript. *)
Definition white_space : list (list N) :=
  [[9]; [10]; [11]; [12]; [13]; [32]; [194; 160]; [225; 154; 128];
   [226; 128; 128]; [226; 128; 129]; [226; 128; 130]; [226; 128; 131];
   [226; 128; 132]; [226; 128; 133]; [226; 128; 134]; [226; 128; 135];
   [226; 128; 136]; [226; 128; 137]; [226; 128; 138]; [226; 128; 168];
   [226; 128; 169]; [226; 128; 175]; [226; 129; 159]; [227; 128; 128];
   [239; 187; 191]]%N.

Definition strip_white (s : string) : option string :=
  fold_right (fun w acc => match strip_prefix (string_of_bytes w) s with
                           | Some r => Some r
                           | None => acc
                           end) None white_space.

Fixpoint skip_white (fuel : nat) (s : string) : string :=
  match fuel with
  | O => s
  | S f => match strip_white s with
           | Some r => skip_white f r
           | None => s
           end
  end.

Definition trim_start (s : string) : string := skip_white (String.length s) s.

Definition radix_literal (b : N) (ok : ascii -> bool) (digits : string) : jsnum :=
  if negb (is_empty digits) && all_chars ok digits
  then Fin (of_Z (Z.of_N (digits_val b digits)))
  else NaN.

Definition decimal_literal (neg : bool) (w : string) : jsnum :=
  let '(ip, r1) := span is_digit w in
  let '(fp, dot, r2) :=
    match r1 with
    | String c r => if Ascii.eqb c "." then let '(fp, r2) := span is_digit r in (fp, true, r2)
                    else (EmptyString, false, r1)
    | EmptyString => (EmptyString, false, r1)
    end in
  if is_empty ip && is_empty fp then NaN
  else match exponent_part r2 with
       | Some e => Fin (decimal neg ip fp e)
       | None => NaN
       end.

Definition signed_literal (neg : bool) (w : string) : jsnum :=
  if String.eqb w "Infinity" then (if neg then NegInf else PosInf)
  else decimal_literal neg w.

Definition numeric_literal (w : string) : jsnum :=
  match w with
  | String z (String x r) =>
      if Ascii.eqb z "0" && one_of "xX" x then radix_literal 16 hex_digit r
      else if Ascii.eqb z "0" && one_of "oO" x then radix_literal 8 (in_range 48 55) r
      else if Ascii.eqb z "0" && one_of "bB" x then radix_literal 2 (in_range 48 49) r
      else if Ascii.eqb z "-" then signed_literal true (String x r)
      else if Ascii.eqb z "+" then signed_literal false (String x r)
      else signed_literal false w
  | _ => signed_literal false w
  end.

(** [StringToNumber]: the empty or blank string is 0, a numeric literal
    between white space is its value, anything else is [NaN]. *)
Definition StringToNumber (s : string) : jsnum :=
  let s1 := trim_start s in
  if is_empty s1 then Fin (of_Z 0)
  else
    let '(w, rest) := span is_word_char s1 in
    if is_empty (trim_start rest) then numeric_literal w else NaN.

(** [ToNumber]; an object or an array goes through its string. *)
Definition ToNumber (v : value) : jsnum :=
  match v with
  | VUndef => NaN
  | VNull => Fin (of_Z 0)
  | VBool b => Fin (of_Z (if b then 1 else 0))
  | VNum n => Fin n
  | VStr s => StringToNumber s
  | VArr _ | VObj _ => StringToNumber (ToString v)
  end.

(** [v < t] for a number [t]: a comparison with [NaN] is false. *)
Definition lt_number (v : value) (t : Z) : bool :=
  match ToNumber v with
  | Fin n => num_ltb n (of_Z t)
  | NegInf => true
  | NaN | PosInf => false
  end.

(** ** Responses, errors and requests *)

(** What [axios] resolves with.  ([config] and [request] are not read by the
    node and are left out.) *)
Record AxiosResponse := Response {
  data : value;
  status : Z;
  statusText : string;
  headers : value
}.

Definition response_object (r : AxiosResponse) : value :=
  VObj [("data", data r); ("status", VNum (of_Z (status r)));
        ("statusText", VStr (statusText r)); ("headers", headers r)].

(** A thrown error: an [Error] of the source, a [TypeError] or [SyntaxError]
    of the runtime, or the error a rejected [axios] call carries, with the
    response when the server sent one. *)
Record js_error := JsError {
  name : string;
  message : string;
  response : option AxiosResponse
}.

Definition Error (msg : string) : js_error := JsError "Error" msg None.
Definition TypeError (msg : string) : js_error := JsError "TypeError" msg None.
Definition SyntaxError (msg : string) : js_error := JsError "SyntaxError" msg None.

(** The properties of an error object that code can read. *)
Definition error_object (e : js_error) : value :=
  VObj ([("name", VStr (name e)); ("message", VStr (message e))] ++
        match response e with
        | Some r => [("response", response_object r)]
        | None => []
        end).

(** [String(error)], that is [Error.prototype.toString]. *)
Definition error_string (e : js_error) : string :=
  if is_empty (name e) then message e
  else if is_empty (message e) then name e
  else name e +:+ ": " +:+ message e.

Inductive method := GET | POST.

(** One outbound call: [axios.get(url)] or [axios.post(url, body, {headers})]. *)
Record request := Request {
  req_method : method;
  req_url : value;
  req_body : option value;
  req_headers : list (string * string)
}.

Inductive http_result :=
| Resolved (r : AxiosResponse)
| Rejected (e : js_error).

(** The world an invocation runs in: what the network answers to each
    request, and what [Date.now()] returns (milliseconds). *)
Record World := {
  http : request -> http_result;
  now : Z
}.

(** ** The state the node works on *)

Inductive level := info | warn | error.

(** A logged message: its text, or, for the one message built with
    [JSON.stringify], the prefix and the object (its rendering is not
    modelled). *)
Inductive log_message :=
| Text (s : string)
| Json (pre : string) (obj : value).

Record State := {
  context : gmap string value;
  input : gmap string value;
  log : list (level * log_message);
  calls : list request
}.

(** The four ways the node changes the state. *)
Definition with_context (f : gmap string value -> gmap string value) (s : State) : State :=
  {| context := f (context s); input := input s; log := log s; calls := calls s |}.

Definition with_input (f : gmap string value -> gmap string value) (s : State) : State :=
  {| context := context s; input := f (input s); log := log s; calls := calls s |}.

Definition logged (l : level) (msg : log_message) (s : State) : State :=
  {| context := context s; input := input s; log := log s ++ [(l, msg)];
     calls := calls s |}.

Definition called (req : request) (s : State) : State :=
  {| context := context s; input := input s; log := log s;
     calls := calls s ++ [req] |}.

(** [context.k]: a missing key reads as [undefined]. *)
Definition context_get (s : State) (k : string) : value :=
  default VUndef (context s !! k).

(** ** The monad: state, and completions that are normal or abrupt *)

Inductive completion (A : Type) :=
| Normal (a : A)
| Throw (e : js_error).
Arguments Normal {A} a.
Arguments Throw {A} e.

Definition M (A : Type) : Type := State -> completion A * State.

Definition ret {A} (a : A) : M A := fun s => (Normal a, s).

Definition bind {A B} (m : M A) (k : A -> M B) : M B :=
  fun s => match m s with
           | (Normal a, s') => k a s'
           | (Throw e, s') => (Throw e, s')
           end.

Definition throw {A} (e : js_error) : M A := fun s => (Throw e, s).

(** [try { m } catch (error) { handler error }]: the state reached when
    [m] threw is the state the handler starts from. *)
Definition try_catch {A} (m : M A) (handler : js_error -> M A) : M A :=
  fun s => match m s with
           | (Normal a, s') => (Normal a, s')
           | (Throw e, s') => handler e s'
           end.

(** A computation that does not touch the state. *)
Definition lift {A} (c : completion A) : M A := fun s => (c, s).

Declare Scope js_scope.
Delimit Scope js_scope with js.
Notation "x <- m ;; k" := (bind m (fun x => k))
  (at level 100, m at next level, right associativity) : js_scope.
Notation "m ;; k" := (bind m (fun _ => k))
  (at level 100, right associativity) : js_scope.
Open Scope js_scope.

(** [api.log(level, message)]. *)
Definition api_log (l : level) (msg : log_message) : M unit :=
  fun s => (Normal tt, logged l msg s).

(** [await axios...]: the call is recorded, then the world answers. *)
Definition axios (w : World) (req : request) : M AxiosResponse :=
  fun s =>
    match http w req with
    | Resolved r => (Normal r, called req s)
    | Rejected e => (Throw e, called req s)
    end.

(** [context[k] = v], for a key that names a property.  (Under the key
    [__proto__] the assignment of JavaScript sets the prototype of the
    context instead; the model has no prototypes and stores under the key
    like under any other.) *)
Definition context_set (k : string) (v : value) : M unit :=
  fun s => (Normal tt, with_context (insert k v) s).

(** [api.addToInput(k, v)]. *)
Definition api_addToInput (k : string) (v : value) : M unit :=
  fun s => (Normal tt, with_input (insert k v) s).

Definition type_of (v : value) : string :=
  match v with
  | VUndef => "undefined"
  | VNull | VArr _ | VObj _ => "object"
  | VBool _ => "boolean"
  | VNum _ => "number"
  | VStr _ => "string"
  end.

(** [signalCache.k = v], where [signalCache] is the object [context.signal]
    refers to.  Between the line that binds [signalCache] and the last write
    through it, the source never assigns [context.signal], so the write is a
    write to the object in the context.  The module is in strict mode: writing
    a property of a primitive is a [TypeError].  (An array would take the
    property; the model cannot give it one, and treats it like a
    primitive.) *)
Definition signalCache_set (k : string) (v : value) : M unit :=
  fun s =>
    match context_get s "signal" with
    | VObj o => (Normal tt, with_context (insert "signal" (VObj (assign k v o))) s)
    | c => (Throw (TypeError ("Cannot create property '" +:+ k +:+ "' on " +:+
                              type_of c +:+ " '" +:+ ToString c +:+ "'")), s)
    end.

(** [v.k], which throws when [v] is [null] or [undefined]. *)
Definition member (v : value) (k : string) : completion value :=
  match v with
  | VUndef | VNull =>
      Throw (TypeError ("Cannot read properties of " +:+ ToString v +:+
                        " (reading '" +:+ k +:+ "')"))
  | _ => Normal (get_prop v k)
  end.

Definition context_read (k : string) : M value :=
  fun s => (Normal (context_get s k), s).

Definition when (b : bool) (m : M unit) : M unit := if b then m else ret tt.

(** ** The helpers of signalApi.ts *)

(** The message of the [SyntaxError] of [JSON.parse]; its wording depends on
    the engine and on the text, and the model has one. *)
Definition syntax_error_message : string := "Unexpected token in JSON".

(** The [try] block of [decodeJWT].  [token] is typed [string], but the
    callers pass what the cache or the token response holds: on anything but
    a string, [token.split] is not a function. *)
Definition decodeJWT_try (token : value) : completion value :=
  match token with
  | VStr t =>
      let parts := split "." t in
      if negb (Nat.eqb (List.length parts) 3) then Throw (Error "Invalid JWT format")
      else
        let payload := nth 1 parts EmptyString in
        let decoded := Buffer_toString_utf8 (Buffer_from_base64 payload) in
        match JSON_parse decoded with
        | Some claims => Normal claims
        | None => Throw (SyntaxError syntax_error_message)
        end
  | VUndef | VNull =>
      Throw (TypeError ("Cannot read properties of " +:+ ToString token +:+
                        " (reading 'split')"))
  | _ => Throw (TypeError "token.split is not a function")
  end.

Definition decodeJWT (token : value) : completion value :=
  match decodeJWT_try token with
  | Normal claims => Normal claims
  | Throw e => Throw (Error ("Failed to decode JWT: " +:+ message e))
  end.

(** [isTokenExpired], at the time [now_ms] that [Date.now()] returns. *)
Definition isTokenExpired (now_ms : Z) (decodedToken : value) : completion bool :=
  match member decodedToken "exp" with
  | Throw e => Throw e
  | Normal exp =>
      if negb (truthy exp) then Normal true
      else
        let currentTime := (now_ms / 1000)%Z in
        Normal (lt_number exp (currentTime + 60))
  end.

(** ** The node *)

Record Connection := { username : string; password : string }.

Record Config := {
  basicAuthConnection : Connection;
  appCredentialsConnection : Connection;
  contactId : string;
  parameters : list string;
  storageType : string;
  storageKey : string
}.

Definition BASE_URL : string := "https://cxone.niceincontact.com".
Definition API_VERSION : string := "v33.0".

(** Step 1: is there a cached token, and is it still valid?  Returns
    [needNewToken] and [tenantId].  In the source the two variables are
    assigned after the last statement of the inner [try] that can throw, so
    the handler always sees their initial values. *)
Definition checkToken (w : World) (token tenantId : value) : M (bool * value) :=
  if truthy token then
    try_catch
      (decodedToken <- lift (decodeJWT token);;
       expired <- lift (isTokenExpired (now w) decodedToken);;
       if negb expired then
         api_log info (Text "Using cached valid token");;
         ret (false, get_prop decodedToken "tenantId")
       else
         api_log info (Text "Cached token expired, fetching new token");;
         ret (true, tenantId))
      (fun error =>
         api_log warn (Text ("Token validation failed: " +:+ message error));;
         ret (true, tenantId))
  else ret (true, tenantId).

Definition openidConfigUrl : string := BASE_URL +:+ "/.well-known/openid-configuration".

Definition openidRequest : request := Request GET (VStr openidConfigUrl) None [].

(** Step 2: the token endpoint, from the OpenID configuration if needed. *)
Definition getTokenEndpoint (w : World) (needNewToken : bool) (tokenEndpoint : value)
  : M value :=
  if needNewToken && negb (truthy tokenEndpoint) then
    api_log info (Text "Fetching OpenID configuration");;
    openidResponse <- axios w openidRequest;;
    if negb (truthy (data openidResponse))
       || negb (truthy (get_prop (data openidResponse) "token_endpoint"))
    then throw (Error "Failed to retrieve token_endpoint from OpenID configuration")
    else
      let tokenEndpoint := get_prop (data openidResponse) "token_endpoint" in
      signalCache_set "tokenEndpoint" tokenEndpoint;;
      api_log info (Text ("Retrieved token endpoint: " +:+ ToString tokenEndpoint));;
      ret tokenEndpoint
  else ret tokenEndpoint.

Definition tokenRequest (config : Config) (tokenEndpoint : value) : request :=
  let basicAuthString :=
    base64_encode (Buffer_from_utf8 (username (basicAuthConnection config) +:+ ":" +:+
                                     password (basicAuthConnection config))) in
  let formData :=
    [("grant_type", "password");
     ("username", username (appCredentialsConnection config));
     ("password", password (appCredentialsConnection config))] in
  Request POST tokenEndpoint (Some (VStr (URLSearchParams_toString formData)))
    [("Authorization", "Basic " +:+ basicAuthString);
     ("Content-Type", "application/x-www-form-urlencoded")].

(** Steps 3 and 4: a new access token and its tenant, if needed.  Returns
    [token] and [tenantId]. *)
Definition getAccessToken (w : World) (config : Config) (needNewToken : bool)
    (tokenEndpoint token tenantId : value) : M (value * value) :=
  if needNewToken then
    api_log info (Text "Requesting access token");;
    tokenResponse <- axios w (tokenRequest config tokenEndpoint);;
    if negb (truthy (data tokenResponse))
       || negb (truthy (get_prop (data tokenResponse) "access_token"))
    then throw (Error "Failed to retrieve access token from response")
    else
      let token := get_prop (data tokenResponse) "access_token" in
      signalCache_set "token" token;;
      api_log info (Text "Access token retrieved successfully");;
      decodedToken <- lift (decodeJWT token);;
      tenantId <- lift (member decodedToken "tenantId");;
      signalCache_set "tenantId" tenantId;;
      api_log info (Text ("Extracted tenant ID: " +:+ ToString tenantId));;
      ret (token, tenantId)
  else ret (token, tenantId).

Definition discoveryUrl (tenantId : value) : string :=
  BASE_URL +:+ "/.well-known/cxone-configuration?tenantId=" +:+ ToString tenantId.

Definition discoveryRequest (tenantId : value) : request :=
  Request GET (VStr (discoveryUrl tenantId)) None [].

(** Step 5: the API endpoint, from the discovery service if not cached. *)
Definition getApiEndpoint (w : World) (apiEndpoint tenantId : value) : M value :=
  if negb (truthy apiEndpoint) then
    api_log info (Text "Fetching API endpoint from discovery service");;
    discoveryResponse <- axios w (discoveryRequest tenantId);;
    if negb (truthy (data discoveryResponse))
       || negb (truthy (get_prop (data discoveryResponse) "api_endpoint"))
    then throw (Error "Failed to retrieve api_endpoint from discovery service")
    else
      let apiEndpoint := get_prop (data discoveryResponse) "api_endpoint" in
      signalCache_set "apiEndpoint" apiEndpoint;;
      api_log info (Text ("Retrieved API endpoint: " +:+ ToString apiEndpoint));;
      ret apiEndpoint
  else ret apiEndpoint.

(** Step 6: the URL of the signal call. *)
Definition queryParams (parameters : list string) : string :=
  join "&" (imap (fun index value =>
                    "p" +:+ dec_nat (index + 1) +:+ "=" +:+ encodeURIComponent value)
                 (take 9 parameters)).

Definition signalPath (apiEndpoint : value) (contactId : string) : string :=
  ToString apiEndpoint +:+ "/incontactapi/services/" +:+ API_VERSION +:+
  "/interactions/" +:+ contactId +:+ "/signal".

Definition signalUrl (apiEndpoint : value) (contactId : string) (parameters : list string)
  : string :=
  if Nat.ltb 0 (List.length parameters)
  then signalPath apiEndpoint contactId +:+ "?" +:+ queryParams parameters
  else signalPath apiEndpoint contactId.

Definition signalRequest (apiEndpoint token : value) (config : Config) : request :=
  Request POST (VStr (signalUrl apiEndpoint (contactId config) (parameters config)))
    (Some (VObj []))
    [("Authorization", "Bearer " +:+ ToString token); ("Accept", "application/json")].

(** Steps 6 and 7: build the URL and call the Signal API. *)
Definition callSignalApi (w : World) (config : Config) (apiEndpoint token : value)
  : M AxiosResponse :=
  when (Nat.ltb 0 (List.length (parameters config)))
       (api_log info (Text ("Added " +:+ dec_nat (List.length (parameters config)) +:+
                            " parameters to Signal API call")));;
  api_log info (Text ("Calling Signal API for contact ID: " +:+ contactId config));;
  signalResponse <- axios w (signalRequest apiEndpoint token config);;
  api_log info (Text "Signal API call successful");;
  ret signalResponse.

(** Step 8: store the response. *)
Definition storeResponse (config : Config) (signalResponse : AxiosResponse) : M unit :=
  let responseData := js_or (data signalResponse) (response_object signalResponse) in
  if String.eqb (storageType config) "context" then
    context_set (storageKey config) responseData;;
    api_log info (Text ("Response stored in context." +:+ storageKey config))
  else
    api_addToInput (storageKey config) responseData;;
    api_log info (Text ("Response stored in input." +:+ storageKey config)).

(** [if (!context.signal) { context.signal = {} }], the first statement of
    the [try] and of the [catch]. *)
Definition ensureSignalCache : M unit :=
  signal <- context_read "signal";;
  when (negb (truthy signal)) (context_set "signal" (VObj [])).

(** The first lines of the [try]: the cache object, created if missing. *)
Definition initSignalCache : M value :=
  ensureSignalCache;;
  context_read "signal".

(** Steps 1 to 8, on the cache object [signalCache]. *)
Definition steps (w : World) (config : Config) (signalCache : value) : M unit :=
  let token := get_prop signalCache "token" in
  let tenantId := get_prop signalCache "tenantId" in
  let apiEndpoint := get_prop signalCache "apiEndpoint" in
  let tokenEndpoint := get_prop signalCache "tokenEndpoint" in
  checked <- checkToken w token tenantId;;
  let '(needNewToken, tenantId) := checked in
  tokenEndpoint <- getTokenEndpoint w needNewToken tokenEndpoint;;
  granted <- getAccessToken w config needNewToken tokenEndpoint token tenantId;;
  let '(token, tenantId) := granted in
  apiEndpoint <- getApiEndpoint w apiEndpoint tenantId;;
  signalResponse <- callSignalApi w config apiEndpoint token;;
  storeResponse config signalResponse.

(** The body of the [try]. *)
Definition pipeline (w : World) (config : Config) : M unit :=
  signalCache <- initSignalCache;;
  steps w config signalCache.

(** The object the [catch] builds from what was thrown. *)
Definition errorMessage (e : js_error) : value :=
  js_or (get_prop (error_object e) "message") (VStr (error_string e)).

Definition errorDetails (e : js_error) : value :=
  VObj [("step", js_or (get_prop (error_object e) "step") (VStr "unknown"));
        ("message", errorMessage e);
        ("details",
         js_or (match get_prop (error_object e) "response" with
                | VUndef | VNull => VUndef
                | r => get_prop r "data"
                end)
               (error_object e))].

(** The body of the [catch]. *)
Definition onError (e : js_error) : M unit :=
  ensureSignalCache;;
  signalCache_set "error" (errorDetails e);;
  api_log error (Text ("Signal API Error: " +:+ ToString (errorMessage e)));;
  api_log error (Json "Error details: " (errorDetails e)).

(** The node function: [try { pipeline } catch (error) { onError }].  A
    [Throw] that comes out of it is an error thrown past the invocation. *)
Definition signalApi (w : World) (config : Config) : M unit :=
  try_catch (pipeline w config) onError.

(** * Observations and specifications *)

(** The cache is the object in [context.signal]. *)
Definition cache (s : State) : value := context_get s "signal".

(** The cache slot is well-typed when it is empty (falsy) or holds an
    object, as the cast [context.signal as ISignalCache] assumes. *)
Definition cache_ok (s : State) : Prop :=
  truthy (cache s) = true -> is_object (cache s) = true.

(** The response is stored over the cache itself when the storage key is
    [signal] and the storage is the context. *)
Definition stores_over_cache (config : Config) : Prop :=
  storageType config = "context" /\ storageKey config = "signal".


(** [m] respects [R] when every run of [m] ends in a state related to the
    one it started from; it respects [R] on a throw when that holds of the
    runs that throw. *)
Definition respects (R : relation State) {A} (m : M A) : Prop :=
  forall s, R s (m s).2.

Definition respects_on_throw (R : relation State) {A} (m : M A) : Prop :=
  forall s e s', m s = (Throw e, s') -> R s s'.

(** Nothing but the cache slot is written, and a cache that is an object
    stays one. *)
Definition frame (s s' : State) : Prop :=
  input s' = input s /\
  (forall k, k <> "signal" -> context s' !! k = context s !! k) /\
  (is_object (cache s) = true -> is_object (cache s') = true).

(** A cache slot that holds something keeps holding something. *)
Definition keeps_defined (s s' : State) : Prop :=
  truthy (cache s) = true -> truthy (cache s') = true.

(** The field [k] of the cache keeps its value. *)
Definition same_field (k : string) (s s' : State) : Prop :=
  get_prop (cache s') k = get_prop (cache s) k.

(** Several invocations, one after the other, on the same session. *)
Fixpoint invocations (l : list (World * Config)) (s : State) : State :=
  match l with
  | [] => s
  | (w, config) :: r => invocations r (signalApi w config s).2
  end.

(** The query string as the specification words it: parameter [i], counted
    from 1, is written under the key [p<i>] with its URL-encoded value, for
    the first 9 parameters at most, in input order; an empty list has no
    query string at all.

    URL-encoded is read as in RFC 3986: the encoded text decodes, by
    percent-decoding, to the value, and it is made of characters that have
    no meaning of their own in a query string and of [%] triplets.  The
    definitions below do not use the encoder of the node. *)

(** Percent-decoding: [%] and two hexadecimal digits stand for one byte, every
    other character for itself; a [%] without two hexadecimal digits after it
    is an error. *)
Fixpoint spec_percent_decode (s : string) : option string :=
  match s with
  | EmptyString => Some EmptyString
  | String c r =>
      if Ascii.eqb c "%" then
        match r with
        | String h (String l r') =>
            if hex_digit h && hex_digit l
            then option_map (String (chr (16 * digit_val h + digit_val l)))
                            (spec_percent_decode r')
            else None
        | _ => None
        end
      else option_map (String c) (spec_percent_decode r)
  end.





(** The token request fails, whatever endpoint it is sent to: the call is
    rejected, or the response has no access token. *)
Definition token_request_fails (w : World) (config : Config) : Prop :=
  forall tokenEndpoint,
    match http w (tokenRequest config tokenEndpoint) with
    | Rejected _ => True
    | Resolved r => truthy (get_prop (data r) "access_token") = false
    end.

(** Valid base64url, as the specification of the decoder has it: only
    letters, digits, [-] and [_] (RFC 4648, section 5, unpadded as in a
    compact token). *)
Definition spec_valid_base64url (segment : string) : bool :=
  all_chars (fun c => is_alnum c || one_of "-_" c) segment.

(** * Scenarios

    Concrete sessions, servers and configurations on which the theorems are
    exercised. *)

Module Scenario.

(** A token whose payload is the object with exp 9999999999 and tenantId
    t1, and one whose exp is 1000000000. *)
Definition valid_token : string :=
  "h.eyJleHAiOjk5OTk5OTk5OTksInRlbmFudElkIjoidDEifQ.s".
Definition expired_token : string :=
  "h.eyJleHAiOjEwMDAwMDAwMDAsInRlbmFudElkIjoidDEifQ.s".

Definition ok (body : value) : http_result :=
  Resolved (Response body 200 "OK" (VObj [])).

Definition network_error : http_result :=
  Rejected (JsError "AxiosError" "Network Error" None).

(** A server, by what it answers to the four calls of the node: the two
    GETs are told apart by their URL, the two POSTs by their body. *)
Definition server (openid token discovery signal : http_result)
  : request -> http_result :=
  fun r =>
    match req_method r, req_url r, req_body r with
    | GET, VStr u, _ => if String.eqb u openidConfigUrl then openid else discovery
    | POST, _, Some (VStr _) => token
    | POST, _, _ => signal
    | _, _, _ => network_error
    end.

Definition openid_answer : http_result :=
  ok (VObj [("token_endpoint", VStr "https://auth.example/token")]).
Definition token_answer : http_result :=
  ok (VObj [("access_token", VStr valid_token)]).
Definition discovery_answer : http_result :=
  ok (VObj [("api_endpoint", VStr "https://api.example")]).
Definition signal_answer : http_result :=
  ok (VObj [("accepted", VBool true)]).

Definition clock : Z := 1700000000000.

(** Every call succeeds. *)
Definition happy : World :=
  {| http := server openid_answer token_answer discovery_answer signal_answer;
     now := clock |}.


(** No call gets through. *)
Definition offline : World :=
  {| http := fun _ => network_error; now := clock |}.

(** The token endpoint answers without an access token. *)
Definition no_access_token : World :=
  {| http := server openid_answer (ok (VObj [("error", VStr "invalid_grant")]))
                    discovery_answer signal_answer;
     now := clock |}.

(** The token endpoint is down. *)
Definition token_down : World :=
  {| http := server openid_answer network_error discovery_answer signal_answer;
     now := clock |}.

Definition config : Config :=
  {| basicAuthConnection := {| username := "client"; password := "secret" |};
     appCredentialsConnection := {| username := "agent"; password := "pass word" |};
     contactId := "abc123";
     parameters := ["x"];
     storageType := "context";
     storageKey := "signalResponse" |}.

(** The same, with the response stored under the key of the cache. *)
Definition config_over_cache : Config :=
  {| basicAuthConnection := basicAuthConnection config;
     appCredentialsConnection := appCredentialsConnection config;
     contactId := "abc123";
     parameters := ["x"];
     storageType := "context";
     storageKey := "signal" |}.

(** A new session, and a session whose cache slot holds [c]. *)
Definition fresh : State :=
  {| context := ∅; input := ∅; log := []; calls := [] |}.

Definition session (c : value) : State :=
  {| context := {["signal" := c]}; input := ∅; log := []; calls := [] |}.

(** A cache with a valid token and nothing else. *)
Definition token_only : value := VObj [("token", VStr valid_token)].

(** The claims of [valid_token]. *)
Definition valid_claims : value :=
  VObj [("exp", VNum (of_Z 9999999999)); ("tenantId", VStr "t1")].

(** A cache after a first successful invocation, its token since
    expired. *)
Definition stale_cache : value :=
  VObj [("tokenEndpoint", VStr "https://auth.example/token");
        ("token", VStr expired_token);
        ("tenantId", VStr "t1");
        ("apiEndpoint", VStr "https://api.example")].

End Scenario.

(** * Further observations *)

(** Nothing is written but the cache slot and the storage key: the other
    keys of the context and of the input keep what they hold, and the store
    that the storage type does not select is not written at all. *)
Definition only_writes (config : Config) (s s' : State) : Prop :=
  (forall k, k <> "signal" -> k <> storageKey config ->
             context s' !! k = context s !! k) /\
  (forall k, k <> storageKey config -> input s' !! k = input s !! k) /\
  (storageType config = "context" -> input s' = input s) /\
  (storageType config <> "context" ->
   forall k, k <> "signal" -> context s' !! k = context s !! k).

(** The world answered the request. *)
Definition resolved (w : World) (req : request) : Prop :=
  exists r, http w req = Resolved r.

(** The calls of a computation: it appends at most [hi] calls; when it
    returns it has made at least [lo], all answered; when it throws it has
    made at least one, and all but the last were answered. *)
Definition run_calls (w : World) (lo hi : nat) {A} (m : M A) : Prop :=
  forall s, exists new,
    calls (m s).2 = calls s ++ new /\
    List.length new <= hi /\
    match (m s).1 with
    | Normal _ => lo <= List.length new /\ Forall (resolved w) new
    | Throw _ => 1 <= List.length new /\ Forall (resolved w) (removelast new)
    end.

(** The text of [s] is well-formed: its bytes are UTF-8 (decoding them
    replaces nothing).  A JavaScript string with an unpaired surrogate has no
    such bytes; on such a string [encodeURIComponent] throws a [URIError],
    which the encoder of the model, defined on well-formed text, never does.
    Where a property needs the encoder of the source to return, it asks for
    well-formed parameters. *)
Definition well_formed (s : string) : Prop :=
  utf8_decode utf8_idle (bytes_of_string s) = bytes_of_string s.

(** The claims of a cached token that step 1 accepts at time [now_ms]: the
    token is truthy, decodes, and is not expired. *)
Definition usable (now_ms : Z) (token : value) : option value :=
  if truthy token then
    match decodeJWT token with
    | Normal claims =>
        match isTokenExpired now_ms claims with
        | Normal false => Some claims
        | _ => None
        end
    | Throw _ => None
    end
  else None.

(** ** Further scenarios *)

Module Sessions.

(** The claims of [Scenario.expired_token]. *)
Definition stale_claims : value :=
  VObj [("exp", VNum (of_Z 1000000000)); ("tenantId", VStr "t1")].

(** A complete cache with a valid token, and the error that an earlier
    failure left in it. *)
Definition failed_before : value :=
  VObj [("tokenEndpoint", VStr "https://auth.example/token");
        ("token", VStr Scenario.valid_token);
        ("tenantId", VStr "t1");
        ("apiEndpoint", VStr "https://api.example");
        ("error", VObj [("step", VStr "unknown");
                        ("message", VStr "Network Error");
                        ("details", VObj [])])].

(** What the token endpoint grants is no JWT. *)
Definition opaque_grant : AxiosResponse :=
  Response (VObj [("access_token", VStr "opaque")]) 200 "OK" (VObj []).

Definition garbled : World :=
  {| http := Scenario.server Scenario.openid_answer (Resolved opaque_grant)
                             Scenario.discovery_answer Scenario.signal_answer;
     now := Scenario.clock |}.

(** The JSON text of the claims of [Scenario.valid_token]. *)
Definition quoted (s : string) : string := String quote (s +:+ String quote EmptyString).

Definition claims_text : string :=
  "{" +:+ quoted "exp" +:+ ":9999999999," +:+ quoted "tenantId" +:+ ":" +:+
  quoted "t1" +:+ "}".

End Sessions.

(** ** Separators and alphabets *)

(** The character [c] occurs in [s]. *)
Fixpoint occurs (c : ascii) (s : string) : bool :=
  match s with
  | EmptyString => false
  | String x r => Ascii.eqb x c || occurs c r
  end.

(** The characters the two encoders write. *)
Definition form_safe (c : ascii) : bool := form_keep c || one_of "+%" c.
Definition uri_safe (c : ascii) : bool := uri_unreserved c || Ascii.eqb c "%".

(** The fields of a form-urlencoded text or of a query string, as the
    receiver reads them: the text is split at [&], each field at [=]. *)
Definition form_fields (body : string) : list (list string) :=
  map (split "=") (split "&" body).

(** The values a byte can take. *)
Definition all_bytes : list N := map N.of_nat (seq 0 256).

(** What the round trip through base64 needs of two neighbouring bytes. *)
Definition sextets_fit (a b : N) : bool :=
  let s1 := N.shiftr a 2 in
  let s2 := N.lor (N.shiftl (N.land a 3) 4) (N.shiftr b 4) in
  let s2' := N.shiftl (N.land a 3) 4 in
  let s3 := N.lor (N.shiftl (N.land a 15) 2) (N.shiftr b 6) in
  let s3' := N.shiftl (N.land a 15) 2 in
  let s4 := N.land b 63 in
  ((s1 <? 64) && (s2 <? 64) && (s2' <? 64) && (s3 <? 64) && (s3' <? 64) && (s4 <? 64)
   && (N.lor (N.shiftl s1 2) (N.shiftr s2 4) =? a)
   && (N.lor (N.shiftl s1 2) (N.shiftr s2' 4) =? a)
   && (N.land s2 15 =? N.shiftr b 4)
   && (N.lor (N.shiftl (N.shiftr a 4) 4) (N.shiftr s3 2) =? a)
   && (N.lor (N.shiftl (N.shiftr a 4) 4) (N.shiftr s3' 2) =? a)
   && (N.lor (N.shiftl (N.land s3 3) 6) s4 =? b))%N.

(** ** The log *)

(** Nothing was logged at level [error] between [s] and [s']. *)
Definition no_error_logged (s s' : State) : Prop :=
  exists new, log s' = log s ++ new /\ Forall (fun entry => entry.1 <> error) new.

(** ** The descriptor of the node, and the extension

    The node descriptor of signalApi.ts without its texts for the editor
    ([label], [summary], [description]), the two connection schemas, and the
    connections that module.ts registers.  (module.ts also registers the
    nodes: [signalApi] and a node [exampleNode] defined elsewhere.) *)

Module Descriptor.

Record field := Field {
  key : string;
  type : string;
  connectionType : option string;
  required : bool;
  defaultValue : option value;
  options : list (string * string)
}.

Definition fields : list field :=
  [ Field "basicAuthConnection" "connection" (Some "cxone-basic-auth") true None [];
    Field "appCredentialsConnection" "connection" (Some "cxone-app-credentials") true None [];
    Field "contactId" "cognigyText" None true None [];
    Field "parameters" "textArray" None false (Some (VArr [])) [];
    Field "storageType" "select" None true (Some (VStr "context"))
          [("Context", "context"); ("Input", "input")];
    Field "storageKey" "cognigyText" None true (Some (VStr "signalResponse")) [] ].

Record section := Section_ {
  section_key : string;
  defaultCollapsed : bool;
  section_fields : list string
}.

Definition sections : list section :=
  [ Section_ "authentication" false ["basicAuthConnection"; "appCredentialsConnection"];
    Section_ "apiSettings" false ["contactId"; "parameters"];
    Section_ "storage" false ["storageType"; "storageKey"] ].

(** The entries of [form], all of type [section], by their key. *)
Definition form : list string := ["authentication"; "apiSettings"; "storage"].

(** The key of [preview]. *)
Definition preview : string := "contactId".

(** The keys that the node function takes from [config]. *)
Definition config_keys : list string :=
  ["basicAuthConnection"; "appCredentialsConnection"; "contactId"; "parameters";
   "storageType"; "storageKey"].

(** The default that the descriptor declares for the field [k]. *)
Definition default_of (k : string) : option value :=
  match find (fun f => String.eqb (key f) k) fields with
  | Some f => defaultValue f
  | None => None
  end.

End Descriptor.

Module Extension.

Record connection_schema := Schema {
  type : string;
  label : string;
  fields : list string
}.

Definition cxoneBasicAuth : connection_schema :=
  Schema "cxone-basic-auth" "CXone Basic Authentication" ["username"; "password"].

Definition cxoneAppCredentials : connection_schema :=
  Schema "cxone-app-credentials" "CXone Application Credentials" ["username"; "password"].

Definition connections : list connection_schema := [cxoneBasicAuth; cxoneAppCredentials].

End Extension.

(** ** The order of the calls *)

(** The four calls of the node, by what they are. *)
Definition is_openid (r : request) : Prop := r = openidRequest.
Definition is_token (config : Config) (r : request) : Prop :=
  exists tokenEndpoint, r = tokenRequest config tokenEndpoint.
Definition is_discovery (r : request) : Prop :=
  exists tenantId, r = discoveryRequest tenantId.
Definition is_signal (config : Config) (r : request) : Prop :=
  exists apiEndpoint token, r = signalRequest apiEndpoint token config.

(** The requests of [l] are of the kinds [kinds], in their order, at most
    one of each kind. *)
Fixpoint in_order (kinds : list (request -> Prop)) (l : list request) : Prop :=
  match kinds with
  | [] => l = []
  | K :: ks => in_order ks l \/ exists r l', l = r :: l' /\ K r /\ in_order ks l'
  end.

(** The calls that [m] adds are of the kinds [kinds], in their order. *)
Definition calls_in_order (kinds : list (request -> Prop)) {A} (m : M A) : Prop :=
  forall s, exists new, calls (m s).2 = calls s ++ new /\ in_order kinds new.

(** * Properties *)

(** ** The built-ins *)

(** The fuel of [trim_start] is enough: what it returns starts with no
    white space. *)
Lemma strip_prefix_length pre s r :
  strip_prefix pre s = Some r ->
  String.length s = String.length pre + String.length r.
Proof.
  revert s. induction pre as [|a pre IH]; intros s; simpl.
  - by intros [= ->].
  - destruct s as [|b s]; [done|]. destruct (Ascii.eqb a b); [|done].
    intros H. simpl. by rewrite (IH _ H).
Qed.

Lemma strip_white_shorter s r :
  strip_white s = Some r -> String.length r < String.length s.
Proof.
  unfold strip_white.
  assert (Forall (fun w => 0 < String.length (string_of_bytes w)) white_space) as Hne
    by (repeat constructor).
  induction Hne as [|w l Hw _ IH]; simpl; [done|].
  destruct (strip_prefix (string_of_bytes w) s) as [r'|] eqn:E; [|exact IH].
  intros [= <-]. apply strip_prefix_length in E. lia.
Qed.

Lemma skip_white_done fuel s :
  String.length s <= fuel -> strip_white (skip_white fuel s) = None.
Proof.
  revert s. induction fuel as [|fuel IH]; intros s Hs; simpl.
  - destruct (strip_white s) as [r|] eqn:E; [|done].
    apply strip_white_shorter in E. lia.
  - destruct (strip_white s) as [r|] eqn:E; [|done].
    apply IH. apply strip_white_shorter in E. lia.
Qed.

Lemma trim_start_done s : strip_white (trim_start s) = None.
Proof. by apply skip_white_done. Qed.

(** [Buffer.from(_, 'base64')] reads the two alphabets alike and skips what
    is in neither. *)
Example base64_lenient :
  Buffer_from_base64 "Pz8_" = Buffer_from_base64 "Pz8/" /\
  Buffer_from_base64 "P z 8 /" = Buffer_from_base64 "Pz8/" /\
  Buffer_toString_utf8 (Buffer_from_base64 "Pz8/") = "???".
Proof. split_and!; reflexivity. Qed.

Example base64_basic_auth :
  base64_encode (Buffer_from_utf8 "client:secret") = "Y2xpZW50OnNlY3JldA==".
Proof. reflexivity. Qed.

(** The tokens of the scenarios. *)
Example decode_valid_token :
  decodeJWT (VStr Scenario.valid_token) = Normal Scenario.valid_claims.
Proof. reflexivity. Qed.

Example decode_expired_token :
  decodeJWT (VStr Scenario.expired_token) =
    Normal (VObj [("exp", VNum (of_Z 1000000000)); ("tenantId", VStr "t1")]) /\
  isTokenExpired Scenario.clock
    (VObj [("exp", VNum (of_Z 1000000000)); ("tenantId", VStr "t1")]) = Normal true.
Proof. split; reflexivity. Qed.

Example decode_malformed :
  decodeJWT (VStr "only.two") = Throw (Error "Failed to decode JWT: Invalid JWT format") /\
  decodeJWT (VStr "a.bm90IGpzb24.c") =
    Throw (Error ("Failed to decode JWT: " +:+ syntax_error_message)) /\
  decodeJWT (VNum (of_Z 5)) =
    Throw (Error "Failed to decode JWT: token.split is not a function").
Proof. split_and!; reflexivity. Qed.

(** A claim [exp] that is not a number goes through [ToNumber]: a numeric
    string is compared as its number, anything that is [NaN] is never
    "less than" and so never expired. *)
Example expiry_coercions :
  isTokenExpired Scenario.clock (VObj [("exp", VStr "9999999999")]) = Normal false /\
  isTokenExpired Scenario.clock (VObj [("exp", VStr "1000000000")]) = Normal true /\
  isTokenExpired Scenario.clock (VObj [("exp", VStr "soon")]) = Normal false /\
  isTokenExpired Scenario.clock (VObj [("exp", VNum (of_Z 0))]) = Normal true /\
  isTokenExpired Scenario.clock (VObj []) = Normal true /\
  isTokenExpired Scenario.clock VNull =
    Throw (TypeError "Cannot read properties of null (reading 'exp')").
Proof. split_and!; reflexivity. Qed.

(** ** Property lists *)

Lemma assoc_assign_eq k v o : assoc k (assign k v o) = Some v.
Proof.
  induction o as [|[k' v'] o IH]; simpl.
  - by rewrite String.eqb_refl.
  - destruct (String.eqb_spec k k') as [->|Hne]; simpl.
    + by rewrite String.eqb_refl.
    + destruct (String.eqb_spec k k'); [done|exact IH].
Qed.

Lemma assoc_assign_ne k k' v o : k <> k' -> assoc k' (assign k v o) = assoc k' o.
Proof.
  intros Hne. induction o as [|[k0 v0] o IH]; simpl.
  - destruct (String.eqb_spec k' k); [congruence|done].
  - destruct (String.eqb_spec k k0) as [->|Hk]; simpl.
    + destruct (String.eqb_spec k' k0); [congruence|done].
    + destruct (String.eqb_spec k' k0); [done|exact IH].
Qed.

Lemma get_prop_assign_eq k v o : get_prop (VObj (assign k v o)) k = v.
Proof. simpl. by rewrite assoc_assign_eq. Qed.

Lemma get_prop_assign_ne k k' v o :
  k <> k' -> get_prop (VObj (assign k v o)) k' = get_prop (VObj o) k'.
Proof. intros. simpl. by rewrite assoc_assign_ne. Qed.

(** A falsy value has no property but, for the empty string, [length]. *)
Lemma get_prop_falsy v k :
  truthy v = false -> k <> "length" -> get_prop v k = VUndef.
Proof.
  intros Hv Hk. destruct v; try done; simpl in *.
  destruct (String.eqb_spec k "length"); [done|done].
Qed.

Lemma is_object_inv v : is_object v = true -> exists o, v = VObj o.
Proof. destruct v; try done. eauto. Qed.

Lemma js_or_truthy a b : truthy b = true -> truthy (js_or a b) = true.
Proof. intros. unfold js_or. by destruct (truthy a) eqn:?. Qed.

(** ** The monad *)

Lemma bind_normal_inv {A B} (m : M A) (k : A -> M B) s b s' :
  bind m k s = (Normal b, s') ->
  exists a s1, m s = (Normal a, s1) /\ k a s1 = (Normal b, s').
Proof.
  unfold bind. destruct (m s) as [[a|e] s1] eqn:E; [eauto|done].
Qed.

Lemma bind_throw_inv {A B} (m : M A) (k : A -> M B) s e s' :
  bind m k s = (Throw e, s') ->
  m s = (Throw e, s') \/ exists a s1, m s = (Normal a, s1) /\ k a s1 = (Throw e, s').
Proof.
  unfold bind. destruct (m s) as [[a|e0] s1] eqn:E; [eauto|].
  intros [= -> ->]. by left.
Qed.

Lemma bind_normal {A B} (m : M A) (k : A -> M B) s a s1 :
  m s = (Normal a, s1) -> bind m k s = k a s1.
Proof. unfold bind. by intros ->. Qed.

Lemma bind_throw {A B} (m : M A) (k : A -> M B) s e s1 :
  m s = (Throw e, s1) -> bind m k s = (Throw e, s1).
Proof. unfold bind. by intros ->. Qed.

(** ** Relations every step of a computation respects *)

Section Respects.
Context (R : relation State) `{!PreOrder R}.

Lemma respects_ret {A} (a : A) : respects R (ret a).
Proof. intros s. simpl. reflexivity. Qed.

Lemma respects_throw {A} e : respects R (@throw A e).
Proof. intros s. simpl. reflexivity. Qed.

Lemma respects_lift {A} (c : completion A) : respects R (lift c).
Proof. intros s. simpl. reflexivity. Qed.

Lemma respects_context_read k : respects R (context_read k).
Proof. intros s. simpl. reflexivity. Qed.

Lemma respects_bind {A B} (m : M A) (k : A -> M B) :
  respects R m -> (forall a, respects R (k a)) -> respects R (bind m k).
Proof.
  intros Hm Hk s. unfold bind. specialize (Hm s).
  destruct (m s) as [[a|e] s1]; simpl in *; [|done].
  etrans; [exact Hm|apply Hk].
Qed.

Lemma respects_try_catch {A} (m : M A) h :
  respects R m -> (forall e, respects R (h e)) -> respects R (try_catch m h).
Proof.
  intros Hm Hh s. unfold try_catch. specialize (Hm s).
  destruct (m s) as [[a|e] s1]; simpl in *; [done|].
  etrans; [exact Hm|apply Hh].
Qed.

Lemma respects_when b m : respects R m -> respects R (when b m).
Proof. intros Hm. destruct b; simpl; [done|apply respects_ret]. Qed.

(** A relation that does not look at the log or at the calls is respected
    by logging and by the network. *)
Hypothesis R_store : forall s s',
  context s' = context s -> input s' = input s -> R s s'.

Lemma respects_api_log l msg : respects R (api_log l msg).
Proof. intros s. by apply R_store. Qed.

Lemma respects_axios w req : respects R (axios w req).
Proof. intros s. unfold axios. destruct (http w req); by apply R_store. Qed.
End Respects.

Section RespectsOnThrow.
Context (R : relation State) `{!PreOrder R}.

Lemma respects_on_throw_weaken {A} (m : M A) :
  respects R m -> respects_on_throw R m.
Proof. intros Hm s e s' E. specialize (Hm s). by rewrite E in Hm. Qed.

Lemma respects_on_throw_bind {A B} (m : M A) (k : A -> M B) :
  respects R m -> (forall a, respects_on_throw R (k a)) ->
  respects_on_throw R (bind m k).
Proof.
  intros Hm Hk s e s' E. specialize (Hm s).
  apply bind_throw_inv in E as [E|(a & s1 & E & Ek)]; rewrite E in Hm; simpl in Hm.
  - done.
  - etrans; [exact Hm|]. by eapply Hk.
Qed.
End RespectsOnThrow.

(** ** The relations *)

Lemma cache_same_context s s' : context s' = context s -> cache s' = cache s.
Proof. unfold cache, context_get. by intros ->. Qed.

#[local] Instance frame_preorder : PreOrder frame.
Proof.
  split.
  - by intros s.
  - intros a b c (Hi & Hc & Ho) (Hi' & Hc' & Ho'). split_and!.
    + congruence.
    + intros k Hk. rewrite Hc' by done. by apply Hc.
    + auto.
Qed.

#[local] Instance keeps_defined_preorder : PreOrder keeps_defined.
Proof. split; unfold keeps_defined; [by intros s|intros a b c; auto]. Qed.

#[local] Instance same_field_preorder k : PreOrder (same_field k).
Proof. split; unfold same_field; [by intros s|intros a b c; congruence]. Qed.

Lemma frame_store s s' : context s' = context s -> input s' = input s -> frame s s'.
Proof.
  intros Hc Hi. split_and!; [done|by rewrite Hc|by rewrite (cache_same_context _ _ Hc)].
Qed.

Lemma keeps_defined_store s s' :
  context s' = context s -> input s' = input s -> keeps_defined s s'.
Proof. intros Hc _. unfold keeps_defined. by rewrite (cache_same_context _ _ Hc). Qed.

Lemma same_field_store k s s' :
  context s' = context s -> input s' = input s -> same_field k s s'.
Proof. intros Hc _. unfold same_field. by rewrite (cache_same_context _ _ Hc). Qed.

(** The cache after a write to the slot. *)
Lemma cache_insert_signal v s : cache (with_context (insert "signal" v) s) = v.
Proof. unfold cache, context_get. simpl. by rewrite lookup_insert_eq. Qed.

Lemma cache_insert_other k v s :
  k <> "signal" -> cache (with_context (insert k v) s) = cache s.
Proof. intros. unfold cache, context_get. simpl. by rewrite lookup_insert_ne. Qed.

(** What a write through [signalCache] does. *)
Lemma signalCache_set_object k v s o :
  cache s = VObj o ->
  signalCache_set k v s =
    (Normal tt, with_context (insert "signal" (VObj (assign k v o))) s).
Proof. unfold signalCache_set, cache. by intros ->. Qed.

Lemma signalCache_set_throws k v s :
  is_object (cache s) = false ->
  exists e, signalCache_set k v s = (Throw e, s).
Proof. unfold signalCache_set, cache. destruct (context_get s "signal"); try done; eauto. Qed.

Lemma signalCache_set_frame k v : respects frame (signalCache_set k v).
Proof.
  intros s. destruct (is_object (cache s)) eqn:Ho.
  - apply is_object_inv in Ho as [o Ho]. rewrite (signalCache_set_object _ _ _ _ Ho).
    simpl. split_and!; [done| |by rewrite cache_insert_signal].
    intros k' Hk. simpl. by rewrite lookup_insert_ne.
  - destruct (signalCache_set_throws k v s Ho) as [e ->]. simpl. reflexivity.
Qed.

Lemma signalCache_set_keeps_defined k v : respects keeps_defined (signalCache_set k v).
Proof.
  intros s. destruct (is_object (cache s)) eqn:Ho.
  - apply is_object_inv in Ho as [o Ho]. rewrite (signalCache_set_object _ _ _ _ Ho).
    simpl. intros _. by rewrite cache_insert_signal.
  - destruct (signalCache_set_throws k v s Ho) as [e ->]. simpl. reflexivity.
Qed.

Lemma signalCache_set_same_field k0 k v :
  k <> k0 -> respects (same_field k0) (signalCache_set k v).
Proof.
  intros Hk s. destruct (is_object (cache s)) eqn:Ho.
  - apply is_object_inv in Ho as [o Ho]. rewrite (signalCache_set_object _ _ _ _ Ho).
    simpl. unfold same_field. rewrite cache_insert_signal, Ho.
    by apply get_prop_assign_ne.
  - destruct (signalCache_set_throws k v s Ho) as [e ->]. simpl. reflexivity.
Qed.

Create HintDb respects.
#[local] Hint Resolve frame_store keeps_defined_store same_field_store : respects.
#[local] Hint Resolve signalCache_set_frame signalCache_set_keeps_defined : respects.
#[local] Hint Resolve signalCache_set_same_field : respects.
#[local] Hint Extern 1 (_ <> _) => discriminate : respects.

(** Breaks a computation into its steps and closes the writes with the
    lemmas of the relation at hand. *)
Ltac preorder :=
  lazymatch goal with
  | |- PreOrder _ => apply _
  | _ => idtac
  end.

Ltac respects_steps :=
  repeat first
    [ solve [auto with respects]
    | apply respects_ret; preorder
    | apply respects_throw; preorder
    | apply respects_lift; preorder
    | apply respects_context_read; preorder
    | apply respects_api_log; preorder; solve [auto with respects]
    | apply respects_axios; preorder; solve [auto with respects]
    | apply respects_when; preorder
    | apply respects_bind; preorder; [|intros ?]
    | apply respects_try_catch; preorder; [|intros ?]
    | match goal with
      | |- respects _ (if ?b then _ else _) => destruct b
      | |- respects _ (let '(_, _) := ?p in _) => destruct p
      | |- respects _ (match ?p with (_, _) => _ end) => destruct p
      end ].

(** ** What each step respects *)

Lemma checkToken_respects R `{!PreOrder R} w token tenantId :
  (forall s s', context s' = context s -> input s' = input s -> R s s') ->
  respects R (checkToken w token tenantId).
Proof.
  intros HR s. unfold checkToken.
  destruct (truthy token); [|reflexivity].
  unfold try_catch, bind, lift.
  destruct (decodeJWT token) as [claims|e]; [|by apply HR].
  destruct (isTokenExpired (now w) claims) as [[|]|e]; by apply HR.
Qed.

Lemma ensureSignalCache_spec s :
  ensureSignalCache s =
    (Normal tt, if truthy (cache s) then s
                else with_context (insert "signal" (VObj [])) s).
Proof.
  unfold ensureSignalCache, bind, context_read. fold (cache s).
  by destruct (truthy (cache s)).
Qed.

Lemma initSignalCache_spec s :
  exists s0, initSignalCache s = (Normal (cache s0), s0) /\
    s0 = (if truthy (cache s) then s else with_context (insert "signal" (VObj [])) s).
Proof.
  eexists. split; [|reflexivity].
  unfold initSignalCache. rewrite (bind_normal _ _ _ _ _ (ensureSignalCache_spec s)).
  reflexivity.
Qed.

Lemma ensureSignalCache_frame : respects frame ensureSignalCache.
Proof.
  intros s. rewrite ensureSignalCache_spec. simpl.
  destruct (truthy (cache s)); [reflexivity|].
  split_and!; [done| |by rewrite cache_insert_signal].
  intros k Hk. simpl. by rewrite lookup_insert_ne.
Qed.

Lemma ensureSignalCache_keeps_defined : respects keeps_defined ensureSignalCache.
Proof.
  intros s. rewrite ensureSignalCache_spec. simpl.
  destruct (truthy (cache s)); [reflexivity|].
  intros _. by rewrite cache_insert_signal.
Qed.

Lemma ensureSignalCache_same_field k :
  k <> "length" -> respects (same_field k) ensureSignalCache.
Proof.
  intros Hk s. rewrite ensureSignalCache_spec. simpl.
  destruct (truthy (cache s)) eqn:Ht; [reflexivity|].
  unfold same_field. rewrite cache_insert_signal.
  by rewrite (get_prop_falsy _ _ Ht Hk).
Qed.

#[local] Hint Resolve ensureSignalCache_frame ensureSignalCache_keeps_defined : respects.
#[local] Hint Resolve ensureSignalCache_same_field : respects.

(** Storing the response never throws. *)
Lemma storeResponse_normal config r s :
  exists s', storeResponse config r s = (Normal tt, s').
Proof.
  unfold storeResponse. destruct (String.eqb _ _); eexists; reflexivity.
Qed.

Lemma storeResponse_on_throw R config r : respects_on_throw R (storeResponse config r).
Proof.
  intros s e s' E. destruct (storeResponse_normal config r s) as [s1 E1]. congruence.
Qed.

(** Up to the call of the Signal API, only the cache slot is written. *)
Lemma steps_frame_on_throw w config c : respects_on_throw frame (steps w config c).
Proof.
  unfold steps.
  apply respects_on_throw_bind; [apply _|apply checkToken_respects; [apply _|auto with respects]|].
  intros [needNewToken tenantId].
  apply respects_on_throw_bind; [apply _|unfold getTokenEndpoint; respects_steps|].
  intros tokenEndpoint.
  apply respects_on_throw_bind; [apply _|unfold getAccessToken; respects_steps|].
  intros [token tenantId'].
  apply respects_on_throw_bind; [apply _|unfold getApiEndpoint; respects_steps|].
  intros apiEndpoint.
  apply respects_on_throw_bind; [apply _|unfold callSignalApi; respects_steps|].
  intros r. apply storeResponse_on_throw.
Qed.

Lemma storeResponse_keeps_defined config r : respects keeps_defined (storeResponse config r).
Proof.
  intros s. unfold storeResponse, keeps_defined.
  destruct (String.eqb _ _); simpl; [|done].
  unfold cache, context_get; simpl.
  intros Hs. destruct (decide (storageKey config = "signal")) as [->|Hne].
  - rewrite lookup_insert_eq. by apply js_or_truthy.
  - by rewrite lookup_insert_ne.
Qed.

Lemma steps_keeps_defined w config c : respects keeps_defined (steps w config c).
Proof.
  unfold steps.
  apply respects_bind; [apply _|apply checkToken_respects; [apply _|auto with respects]|].
  intros [needNewToken tenantId].
  apply respects_bind; [apply _|unfold getTokenEndpoint; respects_steps|].
  intros tokenEndpoint.
  apply respects_bind; [apply _|unfold getAccessToken; respects_steps|].
  intros [token tenantId'].
  apply respects_bind; [apply _|unfold getApiEndpoint; respects_steps|].
  intros apiEndpoint.
  apply respects_bind; [apply _|unfold callSignalApi; respects_steps|].
  intros r. apply storeResponse_keeps_defined.
Qed.

Lemma onError_keeps_defined e : respects keeps_defined (onError e).
Proof. unfold onError. respects_steps. Qed.

(** An invocation, once the cache object is there. *)
Lemma signalApi_after_init w config s :
  exists s0,
    s0 = (if truthy (cache s) then s else with_context (insert "signal" (VObj [])) s) /\
    truthy (cache s0) = true /\
    signalApi w config s = try_catch (steps w config (cache s0)) onError s0.
Proof.
  destruct (initSignalCache_spec s) as (s0 & E0 & Hs0).
  exists s0. split_and!; [done| |].
  - subst s0. destruct (truthy (cache s)) eqn:Ht; [done|].
    by rewrite cache_insert_signal.
  - unfold signalApi, pipeline, try_catch. by rewrite (bind_normal _ _ _ _ _ E0).
Qed.

(** ** What each step does *)

Arguments ToString : simpl never.
Arguments tokenRequest : simpl never.
Arguments signalRequest : simpl never.
Arguments discoveryUrl : simpl never.
Arguments openidConfigUrl : simpl never.
Arguments openidRequest : simpl never.
Arguments discoveryRequest : simpl never.
Arguments errorDetails : simpl never.
Arguments errorMessage : simpl never.
Arguments decodeJWT : simpl never.
Arguments isTokenExpired : simpl never.
Arguments dec_nat : simpl never.

Lemma truthy_get_prop v k :
  truthy (get_prop v k) = true -> k <> "length" -> truthy v = true.
Proof.
  intros Hp Hk. destruct (truthy v) eqn:Hv; [done|].
  by rewrite (get_prop_falsy _ _ Hv Hk) in Hp.
Qed.

(** Runs the first step of a sequence, given what it returns. *)
(** Reads the cache off a state built by the steps. *)
Ltac read_cache :=
  unfold cache, context_get; simpl; rewrite ?lookup_insert_eq; simpl.

Tactic Notation "step" uconstr(H) :=
  erewrite (bind_normal _ _ _ _ _ H); cbv beta iota.
Tactic Notation "step" uconstr(H) "in" hyp(E) :=
  erewrite (bind_normal _ _ _ _ _ H) in E; cbv beta iota in E.
Tactic Notation "step_throw" uconstr(H) :=
  erewrite (bind_throw _ _ _ _ _ H).

(** Step 1. *)
Lemma checkToken_absent w token tenantId s :
  truthy token = false ->
  checkToken w token tenantId s = (Normal (true, tenantId), s).
Proof. intros H. unfold checkToken. by rewrite H. Qed.

Lemma checkToken_valid w token tenantId claims s :
  decodeJWT token = Normal claims ->
  isTokenExpired (now w) claims = Normal false ->
  truthy token = true ->
  checkToken w token tenantId s =
    (Normal (false, get_prop claims "tenantId"),
     logged info (Text "Using cached valid token") s).
Proof.
  intros Hd He Ht. unfold checkToken, try_catch, bind, lift. by rewrite Ht, Hd, He.
Qed.

Lemma checkToken_expired w token tenantId claims s :
  decodeJWT token = Normal claims ->
  isTokenExpired (now w) claims = Normal true ->
  truthy token = true ->
  checkToken w token tenantId s =
    (Normal (true, tenantId),
     logged info (Text "Cached token expired, fetching new token") s).
Proof.
  intros Hd He Ht. unfold checkToken, try_catch, bind, lift. by rewrite Ht, Hd, He.
Qed.

(** Whatever the cached token is, step 1 returns, calls nobody and writes
    nothing but the log. *)
Lemma checkToken_quiet w token tenantId s :
  exists needNewToken tenantId' s',
    checkToken w token tenantId s = (Normal (needNewToken, tenantId'), s') /\
    context s' = context s /\ input s' = input s /\ calls s' = calls s.
Proof.
  unfold checkToken. destruct (truthy token); [|by eauto 10].
  unfold try_catch, bind, lift.
  destruct (decodeJWT token) as [claims|e]; [|by eauto 10].
  destruct (isTokenExpired (now w) claims) as [[|]|e]; by eauto 10.
Qed.

(** Step 2. *)
Lemma getTokenEndpoint_skip w needNewToken tokenEndpoint s :
  needNewToken && negb (truthy tokenEndpoint) = false ->
  getTokenEndpoint w needNewToken tokenEndpoint s = (Normal tokenEndpoint, s).
Proof. intros H. unfold getTokenEndpoint. by rewrite H. Qed.

Lemma getTokenEndpoint_fetched w tokenEndpoint s r o :
  truthy tokenEndpoint = false ->
  http w openidRequest = Resolved r ->
  truthy (get_prop (data r) "token_endpoint") = true ->
  cache s = VObj o ->
  getTokenEndpoint w true tokenEndpoint s =
    (Normal (get_prop (data r) "token_endpoint"),
     logged info (Text ("Retrieved token endpoint: " +:+
                        ToString (get_prop (data r) "token_endpoint")))
       (with_context
          (insert "signal" (VObj (assign "tokenEndpoint"
                                    (get_prop (data r) "token_endpoint") o)))
          (called openidRequest
             (logged info (Text "Fetching OpenID configuration") s)))).
Proof.
  intros Hte Hr Hf Ho. unfold getTokenEndpoint. rewrite Hte. simpl.
  unfold bind at 1. simpl. unfold bind at 1, axios. rewrite Hr.
  rewrite Hf, (truthy_get_prop _ _ Hf) by done. simpl.
  by rewrite (bind_normal _ _ _ _ _
                (signalCache_set_object _ _ (called _ (logged _ _ s)) o Ho)).
Qed.

Lemma getTokenEndpoint_rejected w tokenEndpoint s e :
  truthy tokenEndpoint = false ->
  http w openidRequest = Rejected e ->
  getTokenEndpoint w true tokenEndpoint s =
    (Throw e, called openidRequest
                (logged info (Text "Fetching OpenID configuration") s)).
Proof.
  intros Hte Hr. unfold getTokenEndpoint. rewrite Hte. simpl.
  unfold bind at 1. simpl. unfold bind at 1, axios. by rewrite Hr.
Qed.

(** Steps 3 and 4. *)
Lemma getAccessToken_skip w config tokenEndpoint token tenantId s :
  getAccessToken w config false tokenEndpoint token tenantId s =
    (Normal (token, tenantId), s).
Proof. reflexivity. Qed.

Lemma getAccessToken_rejected w config tokenEndpoint token tenantId s e :
  http w (tokenRequest config tokenEndpoint) = Rejected e ->
  getAccessToken w config true tokenEndpoint token tenantId s =
    (Throw e, called (tokenRequest config tokenEndpoint)
                (logged info (Text "Requesting access token") s)).
Proof.
  intros Hr. unfold getAccessToken.
  unfold bind at 1. simpl. unfold bind at 1, axios. by rewrite Hr.
Qed.

Lemma getAccessToken_no_token w config tokenEndpoint token tenantId s r :
  http w (tokenRequest config tokenEndpoint) = Resolved r ->
  truthy (get_prop (data r) "access_token") = false ->
  getAccessToken w config true tokenEndpoint token tenantId s =
    (Throw (Error "Failed to retrieve access token from response"),
     called (tokenRequest config tokenEndpoint)
       (logged info (Text "Requesting access token") s)).
Proof.
  intros Hr Ha. unfold getAccessToken.
  unfold bind at 1. simpl. unfold bind at 1, axios. rewrite Hr.
  by rewrite Ha, orb_true_r.
Qed.

Lemma getAccessToken_granted w config tokenEndpoint token tenantId s r claims tenantId' o :
  http w (tokenRequest config tokenEndpoint) = Resolved r ->
  truthy (get_prop (data r) "access_token") = true ->
  decodeJWT (get_prop (data r) "access_token") = Normal claims ->
  member claims "tenantId" = Normal tenantId' ->
  cache s = VObj o ->
  getAccessToken w config true tokenEndpoint token tenantId s =
    (Normal (get_prop (data r) "access_token", tenantId'),
     logged info (Text ("Extracted tenant ID: " +:+ ToString tenantId'))
       (with_context
          (insert "signal"
             (VObj (assign "tenantId" tenantId'
                      (assign "token" (get_prop (data r) "access_token") o))))
          (logged info (Text "Access token retrieved successfully")
             (with_context
                (insert "signal"
                   (VObj (assign "token" (get_prop (data r) "access_token") o)))
                (called (tokenRequest config tokenEndpoint)
                   (logged info (Text "Requesting access token") s)))))).
Proof.
  intros Hr Ha Hd Hm Ho. unfold getAccessToken.
  unfold bind at 1. simpl. unfold bind at 1, axios. rewrite Hr.
  rewrite Ha, (truthy_get_prop _ _ Ha) by done. simpl.
  rewrite (bind_normal _ _ _ _ _
             (signalCache_set_object _ _ (called _ (logged _ _ s)) o Ho)).
  unfold bind at 1. simpl. unfold bind at 1, lift. rewrite Hd.
  unfold bind at 1. rewrite Hm.
  by rewrite (bind_normal _ _ _ _ _
                (signalCache_set_object _ _ (logged _ _ (with_context _ _)) _
                   (cache_insert_signal _ _))).
Qed.

Lemma getAccessToken_undecodable w config tokenEndpoint token tenantId s r e o :
  http w (tokenRequest config tokenEndpoint) = Resolved r ->
  truthy (get_prop (data r) "access_token") = true ->
  decodeJWT (get_prop (data r) "access_token") = Throw e ->
  cache s = VObj o ->
  getAccessToken w config true tokenEndpoint token tenantId s =
    (Throw e,
     logged info (Text "Access token retrieved successfully")
       (with_context
          (insert "signal"
             (VObj (assign "token" (get_prop (data r) "access_token") o)))
          (called (tokenRequest config tokenEndpoint)
             (logged info (Text "Requesting access token") s)))).
Proof.
  intros Hr Ha Hd Ho. unfold getAccessToken.
  unfold bind at 1. simpl. unfold bind at 1, axios. rewrite Hr.
  rewrite Ha, (truthy_get_prop _ _ Ha) by done. simpl.
  rewrite (bind_normal _ _ _ _ _
             (signalCache_set_object _ _ (called _ (logged _ _ s)) o Ho)).
  unfold bind at 1. simpl. unfold bind at 1, lift. by rewrite Hd.
Qed.

(** Step 5. *)
Lemma getApiEndpoint_skip w apiEndpoint tenantId s :
  truthy apiEndpoint = true ->
  getApiEndpoint w apiEndpoint tenantId s = (Normal apiEndpoint, s).
Proof. intros H. unfold getApiEndpoint. by rewrite H. Qed.

Lemma getApiEndpoint_fetched w apiEndpoint tenantId s r o :
  truthy apiEndpoint = false ->
  http w (discoveryRequest tenantId) = Resolved r ->
  truthy (get_prop (data r) "api_endpoint") = true ->
  cache s = VObj o ->
  getApiEndpoint w apiEndpoint tenantId s =
    (Normal (get_prop (data r) "api_endpoint"),
     logged info (Text ("Retrieved API endpoint: " +:+
                        ToString (get_prop (data r) "api_endpoint")))
       (with_context
          (insert "signal" (VObj (assign "apiEndpoint"
                                    (get_prop (data r) "api_endpoint") o)))
          (called (discoveryRequest tenantId)
             (logged info (Text "Fetching API endpoint from discovery service") s)))).
Proof.
  intros Hte Hr Hf Ho. unfold getApiEndpoint. rewrite Hte. simpl.
  unfold bind at 1. simpl. unfold bind at 1, axios. rewrite Hr.
  rewrite Hf, (truthy_get_prop _ _ Hf) by done. simpl.
  by rewrite (bind_normal _ _ _ _ _
                (signalCache_set_object _ _ (called _ (logged _ _ s)) o Ho)).
Qed.

Lemma getApiEndpoint_rejected w apiEndpoint tenantId s e :
  truthy apiEndpoint = false ->
  http w (discoveryRequest tenantId) = Rejected e ->
  getApiEndpoint w apiEndpoint tenantId s =
    (Throw e, called (discoveryRequest tenantId)
                (logged info (Text "Fetching API endpoint from discovery service") s)).
Proof.
  intros Hte Hr. unfold getApiEndpoint. rewrite Hte. simpl.
  unfold bind at 1. simpl. unfold bind at 1, axios. by rewrite Hr.
Qed.

Lemma getApiEndpoint_missing w apiEndpoint tenantId s r :
  truthy apiEndpoint = false ->
  http w (discoveryRequest tenantId) = Resolved r ->
  truthy (get_prop (data r) "api_endpoint") = false ->
  getApiEndpoint w apiEndpoint tenantId s =
    (Throw (Error "Failed to retrieve api_endpoint from discovery service"),
     called (discoveryRequest tenantId)
       (logged info (Text "Fetching API endpoint from discovery service") s)).
Proof.
  intros Hte Hr Hf. unfold getApiEndpoint. rewrite Hte. simpl.
  unfold bind at 1. simpl. unfold bind at 1, axios. rewrite Hr.
  by rewrite Hf, orb_true_r.
Qed.

(** Steps 6 and 7: one call, whatever came before. *)
Lemma callSignalApi_calls w config apiEndpoint token s :
  exists s0,
    context s0 = context s /\ input s0 = input s /\ calls s0 = calls s /\
    callSignalApi w config apiEndpoint token s =
      match http w (signalRequest apiEndpoint token config) with
      | Resolved r =>
          (Normal r, logged info (Text "Signal API call successful")
                       (called (signalRequest apiEndpoint token config) s0))
      | Rejected e => (Throw e, called (signalRequest apiEndpoint token config) s0)
      end.
Proof.
  unfold callSignalApi.
  destruct (Nat.ltb 0 (List.length (parameters config))); simpl.
  - eexists (logged _ _ (logged _ _ s)). split_and!; [done..|].
    unfold bind, axios, api_log. simpl.
    by destruct (http w (signalRequest apiEndpoint token config)).
  - eexists (logged _ _ s). split_and!; [done..|].
    unfold bind, axios, api_log, ret. simpl.
    by destruct (http w (signalRequest apiEndpoint token config)).
Qed.

(** Step 8. *)
Lemma storeResponse_spec config r s :
  storeResponse config r s =
    (Normal tt,
     if String.eqb (storageType config) "context"
     then logged info (Text ("Response stored in context." +:+ storageKey config))
            (with_context (insert (storageKey config)
                                  (js_or (data r) (response_object r))) s)
     else logged info (Text ("Response stored in input." +:+ storageKey config))
            (with_input (insert (storageKey config)
                                (js_or (data r) (response_object r))) s)).
Proof. unfold storeResponse. by destruct (String.eqb _ _). Qed.

(** The cache the steps start from: an object, with the fields the cache
    had (none if there was no cache). *)
Lemma init_object s :
  cache_ok s ->
  exists s0 o,
    initSignalCache s = (Normal (VObj o), s0) /\
    cache s0 = VObj o /\
    input s0 = input s /\ calls s0 = calls s /\ log s0 = log s /\
    (forall k, k <> "signal" -> context s0 !! k = context s !! k) /\
    (forall k, k <> "length" -> get_prop (VObj o) k = get_prop (cache s) k).
Proof.
  intros Hok. destruct (initSignalCache_spec s) as (s0 & E0 & Hs0).
  destruct (truthy (cache s)) eqn:Ht; subst s0.
  - destruct (is_object_inv _ (Hok Ht)) as [o Ho]. exists s, o.
    rewrite Ho in E0. split_and!; try done. intros k _. by rewrite Ho.
  - exists (with_context (insert "signal" (VObj [])) s), [].
    rewrite cache_insert_signal in E0. split_and!; try done.
    + by rewrite cache_insert_signal.
    + intros k Hk. simpl. by rewrite lookup_insert_ne.
    + intros k Hk. by rewrite (get_prop_falsy _ _ Ht Hk).
Qed.

(** ** The steps that succeeded *)

Lemma getTokenEndpoint_missing w tokenEndpoint s r :
  truthy tokenEndpoint = false ->
  http w openidRequest = Resolved r ->
  truthy (get_prop (data r) "token_endpoint") = false ->
  getTokenEndpoint w true tokenEndpoint s =
    (Throw (Error "Failed to retrieve token_endpoint from OpenID configuration"),
     called openidRequest (logged info (Text "Fetching OpenID configuration") s)).
Proof.
  intros Hte Hr Hf. unfold getTokenEndpoint. rewrite Hte. simpl.
  unfold bind at 1. simpl. unfold bind at 1, axios. rewrite Hr.
  by rewrite Hf, orb_true_r.
Qed.

Lemma getAccessToken_no_claims w config tokenEndpoint token tenantId s r claims e o :
  http w (tokenRequest config tokenEndpoint) = Resolved r ->
  truthy (get_prop (data r) "access_token") = true ->
  decodeJWT (get_prop (data r) "access_token") = Normal claims ->
  member claims "tenantId" = Throw e ->
  cache s = VObj o ->
  getAccessToken w config true tokenEndpoint token tenantId s =
    (Throw e,
     logged info (Text "Access token retrieved successfully")
       (with_context
          (insert "signal"
             (VObj (assign "token" (get_prop (data r) "access_token") o)))
          (called (tokenRequest config tokenEndpoint)
             (logged info (Text "Requesting access token") s)))).
Proof.
  intros Hr Ha Hd Hm Ho. unfold getAccessToken.
  unfold bind at 1. simpl. unfold bind at 1, axios. rewrite Hr.
  rewrite Ha, (truthy_get_prop _ _ Ha) by done. simpl.
  rewrite (bind_normal _ _ _ _ _
             (signalCache_set_object _ _ (called _ (logged _ _ s)) o Ho)).
  unfold bind at 1. simpl. unfold bind at 1, lift. rewrite Hd.
  unfold bind at 1. by rewrite Hm.
Qed.

Lemma getTokenEndpoint_fetch_inv w tokenEndpoint s o found s' :
  truthy tokenEndpoint = false ->
  cache s = VObj o ->
  getTokenEndpoint w true tokenEndpoint s = (Normal found, s') ->
  exists r,
    http w openidRequest = Resolved r /\
    found = get_prop (data r) "token_endpoint" /\
    truthy found = true /\
    s' = logged info (Text ("Retrieved token endpoint: " +:+ ToString found))
           (with_context (insert "signal" (VObj (assign "tokenEndpoint" found o)))
              (called openidRequest
                 (logged info (Text "Fetching OpenID configuration") s))).
Proof.
  intros Hte Ho E.
  destruct (http w openidRequest) as [r|e] eqn:Hr.
  - destruct (truthy (get_prop (data r) "token_endpoint")) eqn:Hf.
    + rewrite (getTokenEndpoint_fetched _ _ _ _ _ Hte Hr Hf Ho) in E.
      injection E as <- <-. eauto.
    + by rewrite (getTokenEndpoint_missing _ _ _ _ Hte Hr Hf) in E.
  - by rewrite (getTokenEndpoint_rejected _ _ _ _ Hte Hr) in E.
Qed.

Lemma getAccessToken_granted_inv w config tokenEndpoint token tenantId s o token' tenantId' s' :
  cache s = VObj o ->
  getAccessToken w config true tokenEndpoint token tenantId s
    = (Normal (token', tenantId'), s') ->
  exists r claims,
    http w (tokenRequest config tokenEndpoint) = Resolved r /\
    token' = get_prop (data r) "access_token" /\
    truthy token' = true /\
    decodeJWT token' = Normal claims /\
    member claims "tenantId" = Normal tenantId' /\
    s' = logged info (Text ("Extracted tenant ID: " +:+ ToString tenantId'))
           (with_context
              (insert "signal"
                 (VObj (assign "tenantId" tenantId' (assign "token" token' o))))
              (logged info (Text "Access token retrieved successfully")
                 (with_context (insert "signal" (VObj (assign "token" token' o)))
                    (called (tokenRequest config tokenEndpoint)
                       (logged info (Text "Requesting access token") s))))).
Proof.
  intros Ho E.
  destruct (http w (tokenRequest config tokenEndpoint)) as [r|e] eqn:Hr.
  - destruct (truthy (get_prop (data r) "access_token")) eqn:Ha.
    + destruct (decodeJWT (get_prop (data r) "access_token")) as [claims|e] eqn:Hd.
      * destruct (member claims "tenantId") as [tid|e] eqn:Hm.
        -- rewrite (getAccessToken_granted _ _ _ _ _ _ _ _ _ _ Hr Ha Hd Hm Ho) in E.
           injection E as <- <- <-. eauto 10.
        -- by rewrite (getAccessToken_no_claims _ _ _ _ _ _ _ _ _ _ Hr Ha Hd Hm Ho) in E.
      * by rewrite (getAccessToken_undecodable _ _ _ _ _ _ _ _ _ Hr Ha Hd Ho) in E.
    + by rewrite (getAccessToken_no_token _ _ _ _ _ _ _ Hr Ha) in E.
  - by rewrite (getAccessToken_rejected _ _ _ _ _ _ _ Hr) in E.
Qed.

Lemma getApiEndpoint_fetch_inv w apiEndpoint tenantId s o found s' :
  truthy apiEndpoint = false ->
  cache s = VObj o ->
  getApiEndpoint w apiEndpoint tenantId s = (Normal found, s') ->
  exists r,
    http w (discoveryRequest tenantId) = Resolved r /\
    found = get_prop (data r) "api_endpoint" /\
    truthy found = true /\
    s' = logged info (Text ("Retrieved API endpoint: " +:+ ToString found))
           (with_context (insert "signal" (VObj (assign "apiEndpoint" found o)))
              (called (discoveryRequest tenantId)
                 (logged info (Text "Fetching API endpoint from discovery service") s))).
Proof.
  intros Hte Ho E.
  destruct (http w (discoveryRequest tenantId)) as [r|e] eqn:Hr.
  - destruct (truthy (get_prop (data r) "api_endpoint")) eqn:Hf.
    + rewrite (getApiEndpoint_fetched _ _ _ _ _ _ Hte Hr Hf Ho) in E.
      injection E as <- <-. eauto.
    + by rewrite (getApiEndpoint_missing _ _ _ _ _ Hte Hr Hf) in E.
  - by rewrite (getApiEndpoint_rejected _ _ _ _ _ Hte Hr) in E.
Qed.

Lemma callSignalApi_inv w config apiEndpoint token s r s' :
  callSignalApi w config apiEndpoint token s = (Normal r, s') ->
  http w (signalRequest apiEndpoint token config) = Resolved r /\
  context s' = context s /\ input s' = input s /\
  calls s' = calls s ++ [signalRequest apiEndpoint token config].
Proof.
  intros E. destruct (callSignalApi_calls w config apiEndpoint token s)
    as (s0 & Hc & Hi & Hcalls & E').
  rewrite E' in E.
  destruct (http w (signalRequest apiEndpoint token config)) as [r'|e]; [|done].
  injection E as <- <-. simpl. by rewrite Hc, Hi, Hcalls.
Qed.

(** ** The catch *)

Lemma errorDetails_shape e :
  exists step msg details,
    errorDetails e = VObj [("step", step); ("message", msg); ("details", details)].
Proof. unfold errorDetails. eauto. Qed.

(** No error the node can catch has a [step]. *)
Lemma errorDetails_step e : get_prop (errorDetails e) "step" = VStr "unknown".
Proof. unfold errorDetails, error_object. destruct (response e); reflexivity. Qed.

(** The handler, on a cache that is an object. *)
Lemma onError_object e s o :
  cache s = VObj o ->
  onError e s =
    (Normal tt,
     logged error (Json "Error details: " (errorDetails e))
       (logged error (Text ("Signal API Error: " +:+ ToString (errorMessage e)))
          (with_context (insert "signal" (VObj (assign "error" (errorDetails e) o))) s))).
Proof.
  intros Ho. unfold onError.
  rewrite (bind_normal _ _ _ _ _ (ensureSignalCache_spec s)), Ho. simpl.
  by rewrite (bind_normal _ _ _ _ _ (signalCache_set_object _ _ _ _ Ho)).
Qed.

(** Where the [try] throws, only the cache slot has been written, and it
    holds an object if it was well-typed to begin with. *)
Lemma pipeline_throw_frame w config s e s1 :
  cache_ok s -> pipeline w config s = (Throw e, s1) ->
  is_object (cache s1) = true /\ input s1 = input s /\
  (forall k, k <> "signal" -> context s1 !! k = context s !! k).
Proof.
  intros Hok E. unfold pipeline in E.
  destruct (initSignalCache_spec s) as (s0 & E0 & Hs0).
  rewrite (bind_normal _ _ _ _ _ E0) in E.
  apply steps_frame_on_throw in E as (Hi & Hc & Ho).
  destruct (truthy (cache s)) eqn:Ht; subst s0.
  - split_and!; [by apply Ho, Hok|done|done].
  - rewrite cache_insert_signal in Ho. split_and!; [by apply Ho|done|].
    intros k Hk. rewrite (Hc k Hk). simpl. by rewrite lookup_insert_ne.
Qed.

(** ** The calls of each step *)


Lemma run_calls_bind w lo1 hi1 lo2 hi2 {A B} (m : M A) (k : A -> M B) :
  run_calls w lo1 hi1 m -> (forall a, run_calls w lo2 hi2 (k a)) ->
  run_calls w (lo1 + lo2) (hi1 + hi2) (bind m k).
Proof.
  intros Hm Hk s. destruct (Hm s) as (n1 & E1 & Hh1 & H1). unfold bind.
  destruct (m s) as [[a|e] s1]; simpl in *.
  - destruct H1 as [Hl1 Hr1]. destruct (Hk a s1) as (n2 & E2 & Hh2 & H2).
    exists (n1 ++ n2). rewrite E2, E1, app_assoc, length_app.
    split; [done|split; [lia|]].
    destruct ((k a s1).1).
    + destruct H2 as [Hl2 Hr2]. split; [lia|by apply Forall_app].
    + destruct H2 as [Hl2 Hr2]. split; [lia|].
      rewrite removelast_app by (intros ->; simpl in Hl2; lia).
      by apply Forall_app.
  - exists n1. split; [done|split; [lia|done]].
Qed.

Lemma run_calls_quiet w {A} (m : M A) :
  (forall s, exists a s', m s = (Normal a, s') /\ calls s' = calls s) ->
  run_calls w 0 0 m.
Proof.
  intros Hm s. destruct (Hm s) as (a & s' & -> & Hc). exists []. simpl.
  rewrite Hc, app_nil_r. split_and!; [done|lia|lia|constructor].
Qed.


Lemma storeResponse_run_calls w config r : run_calls w 0 0 (storeResponse config r).
Proof.
  apply run_calls_quiet. intros s. rewrite storeResponse_spec.
  do 2 eexists. split; [reflexivity|]. by destruct (String.eqb _ _).
Qed.


(** Closes the case of a step that made the one call [req], or none. *)
Ltac one_call req :=
  unfold ret, throw; simpl;
  first
    [ exists [req]; split; [reflexivity|split; [simpl; lia|]];
      split; [simpl; lia|];
      solve [ simpl; constructor
            | repeat constructor; eexists; eassumption ]
    | exists []; rewrite app_nil_r; split; [reflexivity|split; [simpl; lia|]];
      split; [simpl; lia|constructor] ].

Lemma getTokenEndpoint_run_calls w needNewToken tokenEndpoint :
  run_calls w 0 1 (getTokenEndpoint w needNewToken tokenEndpoint).
Proof.
  intros s. unfold getTokenEndpoint.
  destruct (needNewToken && negb (truthy tokenEndpoint)); [|one_call openidRequest].
  unfold bind, api_log, axios, throw, ret, signalCache_set, context_get. simpl.
  destruct (http w openidRequest) as [r|e] eqn:Hr; [|one_call openidRequest].
  destruct (_ || _); [one_call openidRequest|]. simpl.
  destruct (default VUndef (context s !! "signal")); one_call openidRequest.
Qed.

Lemma getApiEndpoint_run_calls w apiEndpoint tenantId :
  run_calls w 0 1 (getApiEndpoint w apiEndpoint tenantId).
Proof.
  intros s. unfold getApiEndpoint.
  destruct (negb (truthy apiEndpoint)); [|one_call (discoveryRequest tenantId)].
  unfold bind, api_log, axios, throw, ret, signalCache_set, context_get. simpl.
  destruct (http w (discoveryRequest tenantId)) as [r|e] eqn:Hr;
    [|one_call (discoveryRequest tenantId)].
  destruct (_ || _); [one_call (discoveryRequest tenantId)|]. simpl.
  destruct (default VUndef (context s !! "signal")); one_call (discoveryRequest tenantId).
Qed.


Lemma callSignalApi_run_calls w config apiEndpoint token :
  run_calls w 1 1 (callSignalApi w config apiEndpoint token).
Proof.
  intros s. destruct (callSignalApi_calls w config apiEndpoint token s)
    as (s0 & _ & _ & Hc & ->).
  destruct (http w (signalRequest apiEndpoint token config)) as [r|e] eqn:Hr;
    simpl; rewrite Hc; exists [signalRequest apiEndpoint token config];
    (split; [done|split; [simpl; lia|split; [simpl; lia|]]]).
  - repeat constructor. by exists r.
  - constructor.
Qed.


(** ** C1: a failure is recorded, not thrown *)

(** C1, as amended.  For every invocation that starts with a cache slot
    that is empty or holds an object: if a step of the pipeline fails (the
    [try] block throws [e], in state [s1]), the invocation returns normally;
    the cache's [error] field holds the one object [{step, message,
    details}] built from [e]; the two error lines are logged; and nothing is
    stored for the caller: the input and every context key but the cache
    slot are as they were before the invocation. *)
Theorem failure_recorded_not_thrown w config s e s1 :
  cache_ok s ->
  pipeline w config s = (Throw e, s1) ->
  exists s2,
    signalApi w config s = (Normal tt, s2) /\
    get_prop (cache s2) "error" = errorDetails e /\
    (exists step msg details,
       errorDetails e = VObj [("step", step); ("message", msg); ("details", details)]) /\
    log s2 = log s1 ++
      [(error, Text ("Signal API Error: " +:+ ToString (errorMessage e)));
       (error, Json "Error details: " (errorDetails e))] /\
    calls s2 = calls s1 /\
    input s2 = input s /\
    (forall k, k <> "signal" -> context s2 !! k = context s !! k).
Proof.
  intros Hok E.
  destruct (pipeline_throw_frame _ _ _ _ _ Hok E) as (Ho & Hi & Hc).
  apply is_object_inv in Ho as [o Ho].
  eexists. split.
  { unfold signalApi, try_catch. rewrite E. by apply onError_object. }
  split_and!; simpl; try done.
  - unfold cache, context_get. simpl. rewrite lookup_insert_eq. simpl.
    by rewrite assoc_assign_eq.
  - apply errorDetails_shape.
  - by rewrite <- app_assoc.
  - intros k Hk. rewrite lookup_insert_ne by done. by apply Hc.
Qed.

(** C1 at work: a new session, no call gets through. *)
Lemma failure_recorded_not_thrown_offline :
  exists s2,
    signalApi Scenario.offline Scenario.config Scenario.fresh = (Normal tt, s2) /\
    get_prop (cache s2) "error" =
      errorDetails (JsError "AxiosError" "Network Error" None) /\
    input s2 = ∅ /\
    context s2 !! "signalResponse" = None.
Proof.
  destruct (failure_recorded_not_thrown Scenario.offline Scenario.config Scenario.fresh
              (JsError "AxiosError" "Network Error" None)
              (pipeline Scenario.offline Scenario.config Scenario.fresh).2)
    as (s2 & E & Herr & _ & _ & _ & Hi & Hc).
  - intros H. vm_compute in H. discriminate.
  - vm_compute. reflexivity.
  - exists s2. split_and!; [exact E|exact Herr|exact Hi|].
    rewrite Hc by discriminate. reflexivity.
Defined.

(** C1, as stated, fails when the cache slot holds a primitive: the write
    of the error in the [catch] throws in its turn, and no error is
    recorded. *)
Lemma primitive_cache_escapes :
  (pipeline Scenario.offline Scenario.config (Scenario.session (VStr "ok"))).1
    = Throw (JsError "AxiosError" "Network Error" None) /\
  (signalApi Scenario.offline Scenario.config (Scenario.session (VStr "ok"))).1
    = Throw (TypeError "Cannot create property 'error' on string 'ok'") /\
  cache (signalApi Scenario.offline Scenario.config (Scenario.session (VStr "ok"))).2
    = VStr "ok".
Proof. vm_compute. repeat split; reflexivity. Qed.

(** ** C2: the first invocation of a session *)

Lemma append_assoc (a b c : string) : (a +:+ b) +:+ c = a +:+ (b +:+ c).
Proof.
  induction a as [|x a IH]; [done|].
  change (String x ((a +:+ b) +:+ c) = String x (a +:+ (b +:+ c))). by rewrite IH.
Qed.

Lemma init_empty s :
  cache s = VUndef \/ cache s = VObj [] ->
  exists s0,
    initSignalCache s = (Normal (VObj []), s0) /\
    cache s0 = VObj [] /\
    input s0 = input s /\ calls s0 = calls s /\
    (forall k, k <> "signal" -> context s0 !! k = context s !! k).
Proof.
  intros Hc. destruct (initSignalCache_spec s) as (s0 & E0 & Hs0).
  destruct Hc as [Hc|Hc]; rewrite Hc in Hs0; simpl in Hs0; subst s0.
  - rewrite cache_insert_signal in E0. eexists. split; [exact E0|].
    split_and!; [by rewrite cache_insert_signal|done|done|].
    intros k Hk. simpl. by rewrite lookup_insert_ne.
  - rewrite Hc in E0. eauto 10.
Qed.

(** What is left of the context after the response has been stored. *)
Lemma storeResponse_cache config r s s' :
  ~ stores_over_cache config ->
  storeResponse config r s = (Normal tt, s') ->
  cache s' = cache s /\ calls s' = calls s.
Proof.
  intros Hns E. rewrite storeResponse_spec in E. injection E as <-.
  unfold stores_over_cache in Hns.
  destruct (String.eqb_spec (storageType config) "context") as [Ht|Ht]; simpl.
  - split; [|done]. unfold cache, context_get. simpl.
    rewrite lookup_insert_ne; [done|]. intros Hk. by apply Hns.
  - done.
Qed.

Lemma member_normal v k t : member v k = Normal t -> t = get_prop v k.
Proof. destruct v; simpl; intros [= <-]; reflexivity. Qed.

(** C2, as amended.  A successful invocation that starts from an empty
    cache, with contact [abc123] and the one parameter [x], makes exactly
    four calls, in this order: the GET of the OpenID configuration; the POST
    of the token request to the token endpoint that the configuration
    names; the GET of the API-endpoint discovery for the tenant that the
    claims of the granted token name; and the POST of the signal, with the
    granted token, to
    [<api endpoint>/incontactapi/services/v33.0/interactions/abc123/signal?p1=x],
    the API endpoint being the one that the discovery names.  All four are
    answered.  Afterwards the cache holds exactly [tokenEndpoint], [token],
    [tenantId] and [apiEndpoint], with these values (provided the response
    is not stored over the cache itself). *)
Theorem first_invocation_calls w config s s' :
  contactId config = "abc123" ->
  parameters config = ["x"] ->
  cache s = VUndef \/ cache s = VObj [] ->
  ~ stores_over_cache config ->
  pipeline w config s = (Normal tt, s') ->
  exists tokenEndpoint token claims tenantId apiEndpoint r1 r2 r3 r4,
    signalApi w config s = (Normal tt, s') /\
    calls s' = calls s ++
      [openidRequest; tokenRequest config tokenEndpoint;
       discoveryRequest tenantId; signalRequest apiEndpoint token config] /\
    http w openidRequest = Resolved r1 /\
    tokenEndpoint = get_prop (data r1) "token_endpoint" /\
    http w (tokenRequest config tokenEndpoint) = Resolved r2 /\
    token = get_prop (data r2) "access_token" /\
    decodeJWT token = Normal claims /\
    tenantId = get_prop claims "tenantId" /\
    http w (discoveryRequest tenantId) = Resolved r3 /\
    apiEndpoint = get_prop (data r3) "api_endpoint" /\
    http w (signalRequest apiEndpoint token config) = Resolved r4 /\
    signalRequest apiEndpoint token config =
      Request POST
        (VStr (ToString apiEndpoint +:+
               "/incontactapi/services/v33.0/interactions/abc123/signal?p1=x"))
        (Some (VObj []))
        [("Authorization", "Bearer " +:+ ToString token);
         ("Accept", "application/json")] /\
    cache s' = VObj [("tokenEndpoint", tokenEndpoint); ("token", token);
                     ("tenantId", tenantId); ("apiEndpoint", apiEndpoint)] /\
    truthy tokenEndpoint = true /\ truthy token = true /\ truthy apiEndpoint = true.
Proof.
  intros Hcid Hps Hempty Hns E.
  assert (signalApi w config s = (Normal tt, s')) as Hrun
    by (unfold signalApi, try_catch; by rewrite E).
  destruct (init_empty s Hempty) as (s0 & E0 & Ho & _ & Hcalls0 & _).
  unfold pipeline in E. step E0 in E. unfold steps in E.
  change (get_prop (VObj []) _) with VUndef in E.
  step (checkToken_absent w VUndef VUndef s0 eq_refl) in E.
  apply bind_normal_inv in E as (te & s1 & E1 & E).
  apply (getTokenEndpoint_fetch_inv w VUndef s0 [] te s1 eq_refl Ho) in E1
    as (r1 & Hr1 & -> & Hte & ->).
  apply bind_normal_inv in E as ([tok tid] & s2 & E2 & E).
  eapply getAccessToken_granted_inv in E2; [|read_cache; reflexivity].
  destruct E2 as (r2 & claims & Hr2 & -> & Htok & Hd & Hm & ->).
  apply member_normal in Hm. subst tid.
  apply bind_normal_inv in E as (api & s3 & E3 & E).
  eapply getApiEndpoint_fetch_inv in E3; [|done|read_cache; reflexivity].
  destruct E3 as (r3 & Hr3 & -> & Hapi & ->).
  apply bind_normal_inv in E as (r4 & s4 & E4 & E).
  apply callSignalApi_inv in E4 as (Hr4 & Hc4 & _ & Hcalls4).
  apply (storeResponse_cache _ _ _ _ Hns) in E as [Hc5 Hcalls5].
  exists (get_prop (data r1) "token_endpoint"), (get_prop (data r2) "access_token"),
    claims, (get_prop claims "tenantId"), (get_prop (data r3) "api_endpoint"),
    r1, r2, r3, r4.
  split; [exact Hrun|]. split_and!; try done.
  - rewrite Hcalls5, Hcalls4. simpl. rewrite Hcalls0, <- !app_assoc. reflexivity.
  - unfold signalRequest, signalUrl, signalPath. rewrite Hcid, Hps. simpl.
    unfold queryParams. simpl. rewrite append_assoc. reflexivity.
  - rewrite Hc5. unfold cache, context_get. rewrite Hc4. simpl.
    rewrite lookup_insert_eq. reflexivity.
Qed.

(** C2 at work: the happy server, a new session. *)
Lemma first_invocation_calls_happy :
  exists tokenEndpoint token claims tenantId apiEndpoint,
    signalApi Scenario.happy Scenario.config Scenario.fresh =
      (Normal tt, (pipeline Scenario.happy Scenario.config Scenario.fresh).2) /\
    calls (pipeline Scenario.happy Scenario.config Scenario.fresh).2 =
      calls Scenario.fresh ++
      [openidRequest; tokenRequest Scenario.config tokenEndpoint;
       discoveryRequest tenantId; signalRequest apiEndpoint token Scenario.config] /\
    decodeJWT token = Normal claims /\
    tenantId = get_prop claims "tenantId" /\
    cache (pipeline Scenario.happy Scenario.config Scenario.fresh).2 =
      VObj [("tokenEndpoint", tokenEndpoint); ("token", token);
            ("tenantId", tenantId); ("apiEndpoint", apiEndpoint)].
Proof.
  destruct (first_invocation_calls Scenario.happy Scenario.config Scenario.fresh
              (pipeline Scenario.happy Scenario.config Scenario.fresh).2)
    as (te & tok & claims & tid & api & r1 & r2 & r3 & r4 &
        H1 & H2 & _ & _ & _ & _ & Hd & Ht & _ & _ & _ & _ & H3 & _).
  - reflexivity.
  - reflexivity.
  - left. reflexivity.
  - intros [_ H]. discriminate H.
  - vm_compute. reflexivity.
  - exists te, tok, claims, tid, api. split_and!; assumption.
Defined.

(** C2, as stated, fails: the successful first invocation of a session
    makes four calls, not three; the third is the discovery of the API
    endpoint. *)
Lemma first_invocation_not_three_calls :
  (pipeline Scenario.happy Scenario.config Scenario.fresh).1 = Normal tt /\
  cache Scenario.fresh = VUndef /\
  calls (signalApi Scenario.happy Scenario.config Scenario.fresh).2 =
    [openidRequest;
     tokenRequest Scenario.config (VStr "https://auth.example/token");
     discoveryRequest (VStr "t1");
     signalRequest (VStr "https://api.example") (VStr Scenario.valid_token)
       Scenario.config] /\
  List.length (calls (signalApi Scenario.happy Scenario.config Scenario.fresh).2) <> 3.
Proof. vm_compute. split_and!; [reflexivity..|discriminate]. Qed.

(** ** C3: a valid cached token *)

Lemma try_bind_normal {A B} (m : M A) (k : A -> M B) h s a s1 :
  m s = (Normal a, s1) -> try_catch (bind m k) h s = try_catch (k a) h s1.
Proof. intros E. unfold try_catch. by rewrite (bind_normal _ _ _ _ _ E). Qed.

Lemma try_bind_throw {A B} (m : M A) (k : A -> M B) h s e s1 :
  m s = (Throw e, s1) -> try_catch (bind m k) h s = h e s1.
Proof. intros E. unfold try_catch. by rewrite (bind_throw _ _ _ _ _ E). Qed.

(** A token that decodes is a non-empty string. *)
Lemma decodeJWT_string token claims :
  decodeJWT token = Normal claims -> exists t, token = VStr t /\ truthy token = true.
Proof.
  unfold decodeJWT, decodeJWT_try. destruct token as [| | | |t| |]; try done.
  intros H. exists t. split; [done|]. by destruct t.
Qed.

Lemma get_prop_string_object v k t :
  get_prop v k = VStr t -> exists o, v = VObj o.
Proof.
  destruct v; simpl; try done; [destruct (String.eqb k "length"); done..|eauto].
Qed.


(** The [catch] calls nobody, and neither does the storing of the
    response. *)
Lemma onError_calls e s : calls (onError e s).2 = calls s.
Proof.
  unfold onError. rewrite (bind_normal _ _ _ _ _ (ensureSignalCache_spec s)).
  set (s0 := if truthy (cache s) then s else _).
  assert (calls s0 = calls s) as <- by (subst s0; by destruct (truthy (cache s))).
  unfold bind at 1, signalCache_set.
  by destruct (context_get s0 "signal").
Qed.

Lemma storeResponse_calls config r s : calls (storeResponse config r s).2 = calls s.
Proof. rewrite storeResponse_spec. simpl. by destruct (String.eqb _ _). Qed.

(** From the call of the Signal API on, exactly one call is made. *)
Lemma finish_calls w config apiEndpoint token s :
  calls (try_catch (signalResponse <- callSignalApi w config apiEndpoint token;;
                    storeResponse config signalResponse) onError s).2
    = calls s ++ [signalRequest apiEndpoint token config].
Proof.
  destruct (callSignalApi_calls w config apiEndpoint token s) as (s0 & _ & _ & Hc & E).
  destruct (http w (signalRequest apiEndpoint token config)) as [r|e].
  - rewrite (try_bind_normal _ _ _ _ _ _ E). unfold try_catch.
    pose proof (storeResponse_calls config r
      (logged info (Text "Signal API call successful")
         (called (signalRequest apiEndpoint token config) s0))) as Hs.
    destruct (storeResponse_normal config r
      (logged info (Text "Signal API call successful")
         (called (signalRequest apiEndpoint token config) s0))) as [s1 E1].
    rewrite E1 in *. simpl in *. by rewrite Hs, Hc.
  - rewrite (try_bind_throw _ _ _ _ _ _ E), onError_calls. simpl. by rewrite Hc.
Qed.

(** From the discovery of the API endpoint on: no call but the signal call
    when the endpoint is cached; otherwise the discovery call, followed by
    the signal call if the discovery gave an endpoint. *)
Lemma discover_and_finish_calls w config cached tenantId token s o :
  cache s = VObj o ->
  let s' := (try_catch (apiEndpoint <- getApiEndpoint w cached tenantId;;
                        signalResponse <- callSignalApi w config apiEndpoint token;;
                        storeResponse config signalResponse) onError s).2 in
  if truthy cached then calls s' = calls s ++ [signalRequest cached token config]
  else
    calls s' = calls s ++ [discoveryRequest tenantId] \/
    exists apiEndpoint,
      calls s' = calls s ++ [discoveryRequest tenantId;
                             signalRequest apiEndpoint token config].
Proof.
  intros Ho s'. subst s'. destruct (truthy cached) eqn:Hc.
  - rewrite (try_bind_normal _ _ _ _ _ _ (getApiEndpoint_skip _ _ _ _ Hc)).
    apply finish_calls.
  - destruct (http w (discoveryRequest tenantId)) as [r|e] eqn:Hr.
    + destruct (truthy (get_prop (data r) "api_endpoint")) eqn:Hf.
      * right. exists (get_prop (data r) "api_endpoint").
        rewrite (try_bind_normal _ _ _ _ _ _
                   (getApiEndpoint_fetched _ _ _ _ _ _ Hc Hr Hf Ho)).
        rewrite finish_calls. simpl. by rewrite <- app_assoc.
      * left.
        rewrite (try_bind_throw _ _ _ _ _ _ (getApiEndpoint_missing _ _ _ _ _ Hc Hr Hf)).
        by rewrite onError_calls.
    + left.
      rewrite (try_bind_throw _ _ _ _ _ _ (getApiEndpoint_rejected _ _ _ _ _ Hc Hr)).
      by rewrite onError_calls.
Qed.








(** ** C4: the query string of the signal URL *)

Lemma all_chars_cons p x r : all_chars p (String x r) = p x && all_chars p r.
Proof. reflexivity. Qed.

Lemma all_chars_app p a b : all_chars p (a +:+ b) = all_chars p a && all_chars p b.
Proof.
  induction a as [|x a IH]; [done|].
  change (String x a +:+ b) with (String x (a +:+ b)).
  by rewrite !all_chars_cons, IH, andb_assoc.
Qed.

Lemma all_chars_concat p (g : ascii -> string) l :
  (forall c, all_chars p (g c) = true) ->
  all_chars p (String.concat EmptyString (map g l)) = true.
Proof.
  intros Hg. induction l as [|c l IH]; [done|].
  destruct l as [|d l]; [apply Hg|].
  change (String.concat EmptyString (map g (c :: d :: l)))
    with (g c +:+ (EmptyString +:+ String.concat EmptyString (map g (d :: l)))).
  by rewrite !all_chars_app, Hg, IH.
Qed.








Example query_two :
  queryParams ["a"; "b"] = "p1=a&p2=b" /\
  signalUrl (VStr "https://api.example") "abc123" ["a"; "b"] =
    "https://api.example/incontactapi/services/v33.0/interactions/abc123/signal?p1=a&p2=b".
Proof. split; reflexivity. Qed.

Example query_eleven :
  queryParams ["1"; "2"; "3"; "4"; "5"; "6"; "7"; "8"; "9"; "10"; "11"] =
    "p1=1&p2=2&p3=3&p4=4&p5=5&p6=6&p7=7&p8=8&p9=9".
Proof. reflexivity. Qed.

Example query_none :
  signalUrl (VStr "https://api.example") "abc123" [] =
    "https://api.example/incontactapi/services/v33.0/interactions/abc123/signal".
Proof. reflexivity. Qed.

Example query_encoded :
  queryParams ["a b"; "x&y=z"] = "p1=a%20b&p2=x%26y%3Dz" /\
  spec_percent_decode "x%26y%3Dz" = Some "x&y=z".
Proof. split; reflexivity. Qed.

(** ** C5: a token response without an access token *)

(** C5.  The cache has no token and no token endpoint; the OpenID
    configuration gives a token endpoint; the token response has no
    [access_token].  Then the pipeline fails with the error of the token
    request, the invocation records it and returns, the [token] field is
    still unset, and the token endpoint discovered on the way is in the
    cache. *)
Theorem missing_access_token w config s r_openid r_token :
  cache_ok s ->
  get_prop (cache s) "token" = VUndef ->
  truthy (get_prop (cache s) "tokenEndpoint") = false ->
  http w openidRequest = Resolved r_openid ->
  truthy (get_prop (data r_openid) "token_endpoint") = true ->
  http w (tokenRequest config (get_prop (data r_openid) "token_endpoint"))
    = Resolved r_token ->
  get_prop (data r_token) "access_token" = VUndef ->
  exists s1 s2,
    pipeline w config s =
      (Throw (Error "Failed to retrieve access token from response"), s1) /\
    signalApi w config s = (Normal tt, s2) /\
    get_prop (cache s2) "error" =
      errorDetails (Error "Failed to retrieve access token from response") /\
    get_prop (cache s2) "token" = VUndef /\
    get_prop (cache s2) "tokenEndpoint" = get_prop (data r_openid) "token_endpoint".
Proof.
  intros Hok Htok Hte Hopenid Hfound Htoken Hacc.
  destruct (init_object s Hok) as (s0 & o & E0 & Ho & _ & _ & _ & _ & Hfields).
  assert (pipeline w config s =
            (Throw (Error "Failed to retrieve access token from response"),
             called (tokenRequest config (get_prop (data r_openid) "token_endpoint"))
               (logged info (Text "Requesting access token")
                  (logged info (Text ("Retrieved token endpoint: " +:+
                      ToString (get_prop (data r_openid) "token_endpoint")))
                     (with_context
                        (insert "signal"
                           (VObj (assign "tokenEndpoint"
                                    (get_prop (data r_openid) "token_endpoint") o)))
                        (called openidRequest
                           (logged info (Text "Fetching OpenID configuration") s0)))))))
    as E.
  { assert (truthy (get_prop (VObj o) "token") = false) as Hno
      by (rewrite Hfields by done; by rewrite Htok).
    assert (truthy (get_prop (VObj o) "tokenEndpoint") = false) as Hte0
      by (by rewrite Hfields).
    unfold pipeline. step E0. unfold steps.
    step (checkToken_absent w _ (get_prop (VObj o) "tenantId") s0 Hno).
    step (getTokenEndpoint_fetched w _ s0 r_openid o Hte0 Hopenid Hfound Ho).
    step_throw (getAccessToken_no_token w config _ (get_prop (VObj o) "token")
                  (get_prop (VObj o) "tenantId") _ _ Htoken
                  ltac:(by rewrite Hacc)).
    reflexivity. }
  do 2 eexists. split; [exact E|].
  unfold signalApi, try_catch. rewrite E.
  erewrite onError_object by (read_cache; reflexivity).
  split; [reflexivity|].
  read_cache. rewrite assoc_assign_eq.
  rewrite !assoc_assign_ne by discriminate.
  rewrite assoc_assign_eq. split_and!; [done| |done].
  specialize (Hfields "token" ltac:(discriminate)). simpl in Hfields.
  by rewrite Hfields.
Qed.

(** C5 at work: a new session, a token endpoint that answers without
    an access token. *)
Lemma missing_access_token_fresh :
  exists s2,
    signalApi Scenario.no_access_token Scenario.config Scenario.fresh = (Normal tt, s2) /\
    get_prop (cache s2) "token" = VUndef /\
    get_prop (cache s2) "tokenEndpoint" = VStr "https://auth.example/token".
Proof.
  destruct (missing_access_token Scenario.no_access_token Scenario.config Scenario.fresh
              (Response (VObj [("token_endpoint", VStr "https://auth.example/token")])
                        200 "OK" (VObj []))
              (Response (VObj [("error", VStr "invalid_grant")]) 200 "OK" (VObj [])))
    as (s1 & s2 & _ & E & _ & Htok & Hte).
  - intros H. vm_compute in H. discriminate H.
  - reflexivity.
  - reflexivity.
  - reflexivity.
  - reflexivity.
  - reflexivity.
  - reflexivity.
  - exists s2. split_and!; assumption.
Defined.

(** ** C6: the step of a recorded error *)

(** C6 on the code: whichever stage fails, the recorded [step] is
    [unknown], because no error the handler can receive has a [step].  In
    particular when the discovery of the token endpoint fails in a new
    session, and when the token request fails in a session that knows its
    token endpoint. *)
Theorem recorded_step_is_unknown :
  (forall e, get_prop (errorDetails e) "step" = VStr "unknown") /\
  (pipeline Scenario.offline Scenario.config Scenario.fresh).1
    = Throw (JsError "AxiosError" "Network Error" None) /\
  calls (pipeline Scenario.offline Scenario.config Scenario.fresh).2 = [openidRequest] /\
  get_prop (get_prop (cache (signalApi Scenario.offline Scenario.config
                               Scenario.fresh).2) "error") "step"
    = VStr "unknown" /\
  calls (pipeline Scenario.token_down Scenario.config
           (Scenario.session Scenario.stale_cache)).2
    = [tokenRequest Scenario.config (VStr "https://auth.example/token")] /\
  get_prop (get_prop (cache (signalApi Scenario.token_down Scenario.config
                               (Scenario.session Scenario.stale_cache)).2)
              "error") "step"
    = VStr "unknown".
Proof. split; [apply errorDetails_step|]. vm_compute. split_and!; reflexivity. Qed.

(** ** C7: when decodeJWT fails *)

(** C7, as amended.  On a string, [decodeJWT] throws exactly when the token
    does not split into three segments at the dots, or the text that the
    lenient base64 decoder makes of the middle segment is not JSON; what it
    throws is an [Error] whose message starts with [Failed to decode JWT: ].
    Otherwise it returns the value [JSON.parse] gives for that text.  Base64
    that is not valid is never by itself a failure. *)
Theorem decodeJWT_fails_exactly t :
  let parts := split "." t in
  let decoded := Buffer_toString_utf8 (Buffer_from_base64 (nth 1 parts EmptyString)) in
  match decodeJWT (VStr t) with
  | Throw e =>
      (List.length parts <> 3 \/ JSON_parse decoded = None) /\
      exists reason, e = Error ("Failed to decode JWT: " +:+ reason)
  | Normal claims =>
      List.length parts = 3 /\ JSON_parse decoded = Some claims
  end.
Proof.
  intros parts decoded. unfold decodeJWT, decodeJWT_try. fold parts. fold decoded.
  destruct (Nat.eqb_spec (List.length parts) 3) as [H3|H3]; simpl.
  - destruct (JSON_parse decoded) as [claims|]; [done|].
    split; [by right|eauto].
  - split; [by left|eauto].
Qed.

(** C7, as stated, fails: a middle segment that is not valid base64url
    does not make [decodeJWT] fail.  White space in it is skipped, and so is
    any other character outside the alphabet; the standard alphabet and
    padding are accepted. *)
Lemma invalid_base64url_decodes :
  spec_valid_base64url "e 30" = false /\
  decodeJWT (VStr "a.e 30.c") = Normal (VObj []) /\
  spec_valid_base64url "e!3*0" = false /\
  decodeJWT (VStr "a.e!3*0.c") = Normal (VObj []) /\
  spec_valid_base64url "eyJhIjoiPz8/In0=" = false /\
  decodeJWT (VStr "a.eyJhIjoiPz8/In0=.c") = Normal (VObj [("a", VStr "???")]).
Proof. vm_compute. split_and!; reflexivity. Qed.

(** ** C8: the cache across invocations *)

Lemma get_prop_truthy_object v k :
  truthy (get_prop v k) = true -> k <> "length" -> exists o, v = VObj o.
Proof.
  intros Ht Hk. destruct v; simpl in Ht; try done; [..|eauto];
    by destruct (String.eqb_spec k "length").
Qed.

Lemma getTokenEndpoint_same_field k w needNewToken tokenEndpoint :
  k <> "tokenEndpoint" \/ truthy tokenEndpoint = true ->
  respects (same_field k) (getTokenEndpoint w needNewToken tokenEndpoint).
Proof.
  intros [Hk|Ht].
  - unfold getTokenEndpoint. respects_steps.
  - intros s. rewrite getTokenEndpoint_skip; [reflexivity|].
    rewrite Ht. by destruct needNewToken.
Qed.

Lemma getApiEndpoint_same_field k w apiEndpoint tenantId :
  k <> "apiEndpoint" \/ truthy apiEndpoint = true ->
  respects (same_field k) (getApiEndpoint w apiEndpoint tenantId).
Proof.
  intros [Hk|Ht].
  - unfold getApiEndpoint. respects_steps.
  - intros s. rewrite getApiEndpoint_skip by done. reflexivity.
Qed.

Lemma getAccessToken_same_field k w config needNewToken tokenEndpoint token tenantId :
  k <> "token" -> k <> "tenantId" ->
  respects (same_field k)
    (getAccessToken w config needNewToken tokenEndpoint token tenantId).
Proof. intros. unfold getAccessToken. respects_steps. Qed.

(** A token request that fails leaves the cache as it is. *)
Lemma getAccessToken_fails_same_field k w config needNewToken tokenEndpoint token tenantId :
  token_request_fails w config ->
  respects (same_field k)
    (getAccessToken w config needNewToken tokenEndpoint token tenantId).
Proof.
  intros Hfail s. destruct needNewToken; [|reflexivity].
  specialize (Hfail tokenEndpoint).
  destruct (http w (tokenRequest config tokenEndpoint)) as [r|e] eqn:Hr.
  - rewrite (getAccessToken_no_token _ _ _ _ _ _ _ Hr Hfail).
    by apply same_field_store.
  - rewrite (getAccessToken_rejected _ _ _ _ _ _ _ Hr). by apply same_field_store.
Qed.

Lemma callSignalApi_same_field k w config apiEndpoint token :
  respects (same_field k) (callSignalApi w config apiEndpoint token).
Proof. unfold callSignalApi. respects_steps. Qed.

Lemma storeResponse_same_field k config r :
  ~ stores_over_cache config ->
  respects (same_field k) (storeResponse config r).
Proof.
  intros Hns s. destruct (storeResponse_normal config r s) as [s' E].
  rewrite E. simpl. unfold same_field.
  by destruct (storeResponse_cache _ _ _ _ Hns E) as [-> _].
Qed.

Lemma onError_same_field k e :
  k <> "error" -> k <> "length" -> respects (same_field k) (onError e).
Proof. intros. unfold onError. respects_steps. Qed.

Lemma initSignalCache_same_field k :
  k <> "length" -> respects (same_field k) initSignalCache.
Proof. intros. unfold initSignalCache. respects_steps. Qed.

(** One invocation, given what the steps that write [k] respect. *)
Lemma signalApi_same_field k w config s :
  k <> "error" -> k <> "length" ->
  ~ stores_over_cache config ->
  (forall needNewToken tokenEndpoint,
     tokenEndpoint = get_prop (cache (initSignalCache s).2) "tokenEndpoint" ->
     respects (same_field k) (getTokenEndpoint w needNewToken tokenEndpoint)) ->
  (forall needNewToken tokenEndpoint token tenantId,
     respects (same_field k)
       (getAccessToken w config needNewToken tokenEndpoint token tenantId)) ->
  (forall apiEndpoint tenantId,
     apiEndpoint = get_prop (cache (initSignalCache s).2) "apiEndpoint" ->
     respects (same_field k) (getApiEndpoint w apiEndpoint tenantId)) ->
  same_field k s (signalApi w config s).2.
Proof.
  intros Hke Hkl Hns H2 H3 H5.
  destruct (initSignalCache_spec s) as (s0 & E0 & Hs0).
  rewrite E0 in H2, H5. simpl in H2, H5.
  unfold signalApi, pipeline. rewrite (try_bind_normal _ _ _ _ _ _ E0).
  transitivity s0.
  { pose proof (initSignalCache_same_field k Hkl s) as H. by rewrite E0 in H. }
  assert (respects (same_field k) (try_catch (steps w config (cache s0)) onError)) as H;
    [|apply H].
  apply respects_try_catch; [apply _| |intros e; by apply onError_same_field].
  unfold steps.
  apply respects_bind; [apply _|apply checkToken_respects; [apply _|auto with respects]|].
  intros [needNewToken tenantId].
  apply respects_bind; [apply _|by apply H2|]. intros tokenEndpoint.
  apply respects_bind; [apply _|by apply H3|]. intros [token tenantId'].
  apply respects_bind; [apply _|by apply H5|]. intros apiEndpoint.
  apply respects_bind; [apply _|apply callSignalApi_same_field|]. intros r.
  by apply storeResponse_same_field.
Qed.

(** An endpoint that is set survives an invocation. *)
Lemma endpoint_kept k w config s :
  k = "tokenEndpoint" \/ k = "apiEndpoint" ->
  truthy (get_prop (cache s) k) = true ->
  ~ stores_over_cache config ->
  get_prop (cache (signalApi w config s).2) k = get_prop (cache s) k.
Proof.
  intros Hk Ht Hns.
  assert (k <> "length") as Hkl by (destruct Hk as [->| ->]; discriminate).
  assert (cache (initSignalCache s).2 = cache s) as Hinit.
  { destruct (initSignalCache_spec s) as (s0 & -> & ->). simpl.
    by rewrite (truthy_get_prop _ _ Ht Hkl). }
  apply signalApi_same_field; try done.
  - destruct Hk as [->| ->]; discriminate.
  - intros b te ->. rewrite Hinit. apply getTokenEndpoint_same_field.
    destruct Hk as [->| ->]; [by right|by left].
  - intros. apply getAccessToken_same_field; destruct Hk as [->| ->]; discriminate.
  - intros api tid ->. rewrite Hinit. apply getApiEndpoint_same_field.
    destruct Hk as [->| ->]; [by left|by right].
Qed.

(** A failed token request leaves [token] and [tenantId] as they were. *)
Lemma failed_refresh_keeps k w config s :
  k = "token" \/ k = "tenantId" ->
  token_request_fails w config ->
  ~ stores_over_cache config ->
  get_prop (cache (signalApi w config s).2) k = get_prop (cache s) k.
Proof.
  intros Hk Hfail Hns.
  apply signalApi_same_field; try done; try (destruct Hk as [->| ->]; discriminate).
  - intros. apply getTokenEndpoint_same_field. left.
    destruct Hk as [->| ->]; discriminate.
  - intros. by apply getAccessToken_fails_same_field.
  - intros. apply getApiEndpoint_same_field. left.
    destruct Hk as [->| ->]; discriminate.
Qed.

Lemma finish_same_field k w config apiEndpoint tenantId token :
  k = "token" \/ k = "tenantId" ->
  ~ stores_over_cache config ->
  respects (same_field k)
    (try_catch (apiEndpoint <- getApiEndpoint w apiEndpoint tenantId;;
                signalResponse <- callSignalApi w config apiEndpoint token;;
                storeResponse config signalResponse) onError).
Proof.
  intros Hk Hns.
  apply respects_try_catch; [apply _| |].
  - apply respects_bind; [apply _| |intros api].
    + apply getApiEndpoint_same_field. left. destruct Hk as [->| ->]; discriminate.
    + apply respects_bind; [apply _|apply callSignalApi_same_field|intros r].
      by apply storeResponse_same_field.
  - intros e. apply onError_same_field; destruct Hk as [->| ->]; discriminate.
Qed.

(** A refresh that succeeds replaces [token] and [tenantId] together. *)
Lemma refresh_overwrites w config s token claims tokenEndpoint r claims' tenantId' :
  get_prop (cache s) "token" = token ->
  decodeJWT token = Normal claims ->
  isTokenExpired (now w) claims = Normal true ->
  get_prop (cache s) "tokenEndpoint" = tokenEndpoint ->
  truthy tokenEndpoint = true ->
  http w (tokenRequest config tokenEndpoint) = Resolved r ->
  truthy (get_prop (data r) "access_token") = true ->
  decodeJWT (get_prop (data r) "access_token") = Normal claims' ->
  member claims' "tenantId" = Normal tenantId' ->
  ~ stores_over_cache config ->
  get_prop (cache (signalApi w config s).2) "token" = get_prop (data r) "access_token" /\
  get_prop (cache (signalApi w config s).2) "tenantId" = tenantId'.
Proof.
  intros Htok Hd Hexp Hte Htte Hr Ha Hd' Hm Hns.
  destruct (decodeJWT_string _ _ Hd) as (t & Ht & Htruthy).
  rewrite Ht in Htok. destruct (get_prop_string_object _ _ _ Htok) as [o Ho].
  destruct (signalApi_after_init w config s) as (s0 & Hs0 & _ & ->).
  rewrite Ho in Hs0. simpl in Hs0. subst s0.
  unfold steps. rewrite Htok, <- Ht, Hte.
  rewrite (try_bind_normal _ _ _ _ _ _
             (checkToken_expired w token _ claims s Hd Hexp Htruthy)).
  cbv beta iota.
  rewrite (try_bind_normal _ _ _ _ _ _
             (getTokenEndpoint_skip w true tokenEndpoint _
                ltac:(by rewrite Htte))).
  rewrite (try_bind_normal _ _ _ _ _ _
             (getAccessToken_granted w config tokenEndpoint token _
                (logged info (Text "Cached token expired, fetching new token") s)
                r claims' tenantId' o Hr Ha Hd' Hm Ho)).
  cbv beta iota.
  split.
  - rewrite (finish_same_field "token" w config _ _ _ (or_introl eq_refl) Hns _).
    read_cache. rewrite assoc_assign_ne by discriminate. by rewrite assoc_assign_eq.
  - rewrite (finish_same_field "tenantId" w config _ _ _ (or_intror eq_refl) Hns _).
    read_cache. by rewrite assoc_assign_eq.
Qed.

Lemma endpoints_kept k l s :
  k = "tokenEndpoint" \/ k = "apiEndpoint" ->
  Forall (fun i => ~ stores_over_cache i.2) l ->
  truthy (get_prop (cache s) k) = true ->
  get_prop (cache (invocations l s)) k = get_prop (cache s) k.
Proof.
  intros Hk Hl. revert s. induction Hl as [|[w config] l Hns _ IH]; intros s Ht; [done|].
  simpl. pose proof (endpoint_kept k w config s Hk Ht Hns) as E.
  rewrite IH by (by rewrite E). exact E.
Qed.

(** The steps after the token: what they leave of [token] and [tenantId],
    and of the calls made before them. *)
Lemma finish_calls_extend w config apiEndpoint tenantId token s :
  exists new,
    calls (try_catch (apiEndpoint <- getApiEndpoint w apiEndpoint tenantId;;
                      signalResponse <- callSignalApi w config apiEndpoint token;;
                      storeResponse config signalResponse) onError s).2
      = calls s ++ new.
Proof.
  set (m := bind (getApiEndpoint w apiEndpoint tenantId) _).
  assert (run_calls w (0 + (1 + 0)) (1 + (1 + 0)) m) as H.
  { apply run_calls_bind; [apply getApiEndpoint_run_calls|intros api].
    apply run_calls_bind; [apply callSignalApi_run_calls|intros r].
    apply storeResponse_run_calls. }
  destruct (H s) as (new & E & _). exists new. unfold try_catch.
  destruct (m s) as [[[]|e] s1]; [done|]. by rewrite onError_calls.
Qed.

Lemma onError_keeps_token k e s :
  k = "token" \/ k = "tenantId" ->
  get_prop (cache (onError e s).2) k = get_prop (cache s) k.
Proof.
  intros Hk. apply onError_same_field; destruct Hk as [ -> | -> ]; discriminate.
Qed.

(** A token request on a cache slot that holds no object ends at the first
    write, the session as it was. *)
Lemma getAccessToken_no_object w config tokenEndpoint token tenantId s r :
  http w (tokenRequest config tokenEndpoint) = Resolved r ->
  truthy (get_prop (data r) "access_token") = true ->
  is_object (cache s) = false ->
  exists e,
    getAccessToken w config true tokenEndpoint token tenantId s =
      (Throw e, called (tokenRequest config tokenEndpoint)
                  (logged info (Text "Requesting access token") s)).
Proof.
  intros Hr Ha Ho. unfold getAccessToken.
  unfold bind at 1. simpl. unfold bind at 1, axios. rewrite Hr.
  rewrite Ha, (truthy_get_prop _ _ Ha) by done. simpl.
  destruct (signalCache_set_throws "token" (get_prop (data r) "access_token")
              (called (tokenRequest config tokenEndpoint)
                 (logged info (Text "Requesting access token") s)) Ho) as [e E].
  exists e. by rewrite (bind_throw _ _ _ _ _ E).
Qed.

(** One invocation: [token] and [tenantId] are as they were, or a token
    request was made and granted. *)
Lemma token_kept_or_granted w config s :
  ~ stores_over_cache config ->
  (get_prop (cache (signalApi w config s).2) "token" = get_prop (cache s) "token" /\
   get_prop (cache (signalApi w config s).2) "tenantId" = get_prop (cache s) "tenantId")
  \/
  exists tokenEndpoint r new,
    calls (signalApi w config s).2 = calls s ++ new /\
    In (tokenRequest config tokenEndpoint) new /\
    http w (tokenRequest config tokenEndpoint) = Resolved r /\
    truthy (get_prop (data r) "access_token") = true /\
    get_prop (cache (signalApi w config s).2) "token"
      = get_prop (data r) "access_token" /\
    get_prop (cache (signalApi w config s).2) "tenantId" =
      match decodeJWT (get_prop (data r) "access_token") with
      | Normal claims =>
          match member claims "tenantId" with
          | Normal tenantId => tenantId
          | Throw _ => get_prop (cache s) "tenantId"
          end
      | Throw _ => get_prop (cache s) "tenantId"
      end.
Proof.
  intros Hns.
  destruct (initSignalCache_spec s) as (s0 & E0 & Hs0).
  assert (forall k, k <> "length" -> get_prop (cache s0) k = get_prop (cache s) k) as F0.
  { intros k Hk. pose proof (initSignalCache_same_field k Hk s) as H.
    by rewrite E0 in H. }
  assert (calls s0 = calls s) as K0 by (subst s0; by destruct (truthy (cache s))).
  unfold signalApi, pipeline. rewrite (try_bind_normal _ _ _ _ _ _ E0). unfold steps.
  destruct (checkToken_quiet w (get_prop (cache s0) "token")
              (get_prop (cache s0) "tenantId") s0)
    as (b & tid & s1 & E1 & C1 & _ & K1).
  rewrite (try_bind_normal _ _ _ _ _ _ E1). cbv beta iota.
  assert (forall k, get_prop (cache s1) k = get_prop (cache s0) k) as F1
    by (intros k; by rewrite (cache_same_context _ _ C1)).
  assert ("token" <> "tokenEndpoint") as N1 by discriminate.
  assert ("tenantId" <> "tokenEndpoint") as N2 by discriminate.
  pose proof (getTokenEndpoint_same_field "token" w b
                (get_prop (cache s0) "tokenEndpoint") (or_introl N1) s1) as T2.
  pose proof (getTokenEndpoint_same_field "tenantId" w b
                (get_prop (cache s0) "tokenEndpoint") (or_introl N2) s1) as U2.
  destruct (getTokenEndpoint_run_calls w b (get_prop (cache s0) "tokenEndpoint") s1)
    as (n2 & K2 & _).
  unfold same_field in T2, U2.
  destruct (getTokenEndpoint w b (get_prop (cache s0) "tokenEndpoint") s1)
    as [[te|e] s2] eqn:E2; simpl in T2, U2, K2.
  2:{ rewrite (try_bind_throw _ _ _ _ _ _ E2). left.
      rewrite !onError_keeps_token by auto.
      rewrite T2, U2, !F1, !F0 by done. done. }
  rewrite (try_bind_normal _ _ _ _ _ _ E2).
  destruct b.
  2:{ rewrite (try_bind_normal _ _ _ _ _ _ (getAccessToken_skip _ _ _ _ _ _)).
      cbv beta iota. left.
      rewrite (finish_same_field "token" w config _ _ _ (or_introl eq_refl) Hns _).
      rewrite (finish_same_field "tenantId" w config _ _ _ (or_intror eq_refl) Hns _).
      rewrite T2, U2, !F1, !F0 by done. done. }
  set (req := tokenRequest config te).
  destruct (http w req) as [r|e] eqn:Hr.
  2:{ rewrite (try_bind_throw _ _ _ _ _ _
                 (getAccessToken_rejected w config te _ _ s2 e Hr)).
      left. rewrite !onError_keeps_token by auto.
      change (cache (called _ _)) with (cache s2).
      rewrite T2, U2, !F1, !F0 by done. done. }
  destruct (truthy (get_prop (data r) "access_token")) eqn:Ha.
  2:{ rewrite (try_bind_throw _ _ _ _ _ _
                 (getAccessToken_no_token w config te _ _ s2 r Hr Ha)).
      left. rewrite !onError_keeps_token by auto.
      change (cache (called _ _)) with (cache s2).
      rewrite T2, U2, !F1, !F0 by done. done. }
  destruct (is_object (cache s2)) eqn:Ho2.
  2:{ destruct (getAccessToken_no_object w config te (get_prop (cache s0) "token") tid
                  s2 r Hr Ha Ho2) as [e E3].
      rewrite (try_bind_throw _ _ _ _ _ _ E3).
      left. rewrite !onError_keeps_token by auto.
      change (cache (called _ _)) with (cache s2).
      rewrite T2, U2, !F1, !F0 by done. done. }
  apply is_object_inv in Ho2 as [o Ho2].
  assert (get_prop (VObj o) "tenantId" = get_prop (cache s) "tenantId") as Htid
    by (rewrite <- Ho2, U2, F1, F0; done).
  right. exists te, r.
  destruct (decodeJWT (get_prop (data r) "access_token")) as [claims|e] eqn:Hd.
  - destruct (member claims "tenantId") as [t|e] eqn:Hm.
    + rewrite (try_bind_normal _ _ _ _ _ _
                 (getAccessToken_granted w config te _ tid s2 r claims t o
                    Hr Ha Hd Hm Ho2)).
      cbv beta iota.
      match goal with
      | |- context [try_catch ?m onError ?s3] =>
          destruct (finish_calls_extend w config (get_prop (cache s0) "apiEndpoint")
                      t (get_prop (data r) "access_token") s3) as (n3 & K3)
      end.
      exists (n2 ++ [req] ++ n3). split_and!; [| |done|done| |].
      * rewrite K3. simpl. rewrite K2, K1, K0, <- !app_assoc. done.
      * apply in_or_app. right. by left.
      * rewrite (finish_same_field "token" w config _ _ _ (or_introl eq_refl) Hns _).
        read_cache. rewrite assoc_assign_ne by discriminate.
        by rewrite assoc_assign_eq.
      * rewrite (finish_same_field "tenantId" w config _ _ _ (or_intror eq_refl) Hns _).
        read_cache. by rewrite assoc_assign_eq.
    + rewrite (try_bind_throw _ _ _ _ _ _
                 (getAccessToken_no_claims w config te _ tid s2 r claims e o
                    Hr Ha Hd Hm Ho2)).
      exists (n2 ++ [req]). split_and!; [| |done|done| |].
      * rewrite onError_calls. simpl. rewrite K2, K1, K0, <- !app_assoc. done.
      * apply in_or_app. right. by left.
      * rewrite onError_keeps_token by auto. read_cache. by rewrite assoc_assign_eq.
      * rewrite onError_keeps_token by auto. rewrite <- Htid. read_cache.
        by rewrite assoc_assign_ne.
  - rewrite (try_bind_throw _ _ _ _ _ _
               (getAccessToken_undecodable w config te _ tid s2 r e o
                  Hr Ha Hd Ho2)).
    exists (n2 ++ [req]). split_and!; [| |done|done| |].
    + rewrite onError_calls. simpl. rewrite K2, K1, K0, <- !app_assoc. done.
    + apply in_or_app. right. by left.
    + rewrite onError_keeps_token by auto. read_cache. by rewrite assoc_assign_eq.
    + rewrite onError_keeps_token by auto. rewrite <- Htid. read_cache.
      by rewrite assoc_assign_ne.
Qed.

(** C8, as amended.  For invocations that do not store their response
    over the cache itself:
    (1) an endpoint field ([tokenEndpoint], [apiEndpoint]) that is set keeps
    its value through any sequence of invocations;
    (2) nothing invalidates [token] and [tenantId]: whatever an invocation
    finds, it leaves both as they were, unless it makes a token request
    that is answered with an access token; then [token] is this access
    token, and [tenantId] is the tenant that its claims name if it decodes,
    and as it was otherwise;
    (3) in particular, an invocation whose token request fails, whether or
    not it found the cached token expired, leaves both as they were;
    (4) and when the cached token is found expired and the token request
    answers with a token that decodes, afterwards [token] is the new token
    and [tenantId] its tenant. *)
Theorem cache_fields_across_invocations :
  (forall k l s,
     k = "tokenEndpoint" \/ k = "apiEndpoint" ->
     Forall (fun i => ~ stores_over_cache i.2) l ->
     truthy (get_prop (cache s) k) = true ->
     get_prop (cache (invocations l s)) k = get_prop (cache s) k) /\
  (forall w config s,
     ~ stores_over_cache config ->
     (get_prop (cache (signalApi w config s).2) "token" = get_prop (cache s) "token" /\
      get_prop (cache (signalApi w config s).2) "tenantId"
        = get_prop (cache s) "tenantId")
     \/
     exists tokenEndpoint r new,
       calls (signalApi w config s).2 = calls s ++ new /\
       In (tokenRequest config tokenEndpoint) new /\
       http w (tokenRequest config tokenEndpoint) = Resolved r /\
       truthy (get_prop (data r) "access_token") = true /\
       get_prop (cache (signalApi w config s).2) "token"
         = get_prop (data r) "access_token" /\
       get_prop (cache (signalApi w config s).2) "tenantId" =
         match decodeJWT (get_prop (data r) "access_token") with
         | Normal claims =>
             match member claims "tenantId" with
             | Normal tenantId => tenantId
             | Throw _ => get_prop (cache s) "tenantId"
             end
         | Throw _ => get_prop (cache s) "tenantId"
         end) /\
  (forall k w config s,
     k = "token" \/ k = "tenantId" ->
     token_request_fails w config ->
     ~ stores_over_cache config ->
     get_prop (cache (signalApi w config s).2) k = get_prop (cache s) k) /\
  (forall w config s claims r claims' tenantId',
     decodeJWT (get_prop (cache s) "token") = Normal claims ->
     isTokenExpired (now w) claims = Normal true ->
     truthy (get_prop (cache s) "tokenEndpoint") = true ->
     http w (tokenRequest config (get_prop (cache s) "tokenEndpoint")) = Resolved r ->
     truthy (get_prop (data r) "access_token") = true ->
     decodeJWT (get_prop (data r) "access_token") = Normal claims' ->
     member claims' "tenantId" = Normal tenantId' ->
     ~ stores_over_cache config ->
     get_prop (cache (signalApi w config s).2) "token"
       = get_prop (data r) "access_token" /\
     get_prop (cache (signalApi w config s).2) "tenantId" = tenantId').
Proof.
  split_and!.
  - apply endpoints_kept.
  - apply token_kept_or_granted.
  - apply failed_refresh_keeps.
  - intros w config s claims r claims' tenantId' Hd Hexp Hte Hr Ha Hd' Hm Hns.
    by eapply refresh_overwrites.
Qed.

(** C8 at work: a session whose token has expired, the token
    endpoint first down, then up again. *)
Lemma cache_fields_across_invocations_stale :
  get_prop (cache (invocations [(Scenario.token_down, Scenario.config);
                                (Scenario.happy, Scenario.config)]
                     (Scenario.session Scenario.stale_cache))) "tokenEndpoint"
    = VStr "https://auth.example/token" /\
  get_prop (cache (signalApi Scenario.token_down Scenario.config
                     (Scenario.session Scenario.stale_cache)).2) "token"
    = VStr Scenario.expired_token /\
  get_prop (cache (signalApi Scenario.happy Scenario.config
                     (Scenario.session Scenario.stale_cache)).2) "token"
    = VStr Scenario.valid_token /\
  get_prop (cache (signalApi Scenario.happy Scenario.config
                     (Scenario.session Scenario.stale_cache)).2) "tenantId"
    = VStr "t1".
Proof.
  destruct cache_fields_across_invocations as (H1 & _ & H2 & H3).
  split_and!.
  - rewrite (H1 "tokenEndpoint"); [reflexivity|by left| |reflexivity].
    repeat constructor; intros [_ H]; discriminate H.
  - rewrite (H2 "token"); [reflexivity|by left| |intros [_ H]; discriminate H].
    intros te. vm_compute. exact I.
  - eapply (H3 Scenario.happy Scenario.config (Scenario.session Scenario.stale_cache)
              (VObj [("exp", VNum (of_Z 1000000000)); ("tenantId", VStr "t1")])
              (Response (VObj [("access_token", VStr Scenario.valid_token)])
                        200 "OK" (VObj []))
              Scenario.valid_claims (VStr "t1"));
      try (vm_compute; reflexivity).
    intros [_ H]; discriminate H.
  - eapply (H3 Scenario.happy Scenario.config (Scenario.session Scenario.stale_cache)
              (VObj [("exp", VNum (of_Z 1000000000)); ("tenantId", VStr "t1")])
              (Response (VObj [("access_token", VStr Scenario.valid_token)])
                        200 "OK" (VObj []))
              Scenario.valid_claims (VStr "t1"));
      try (vm_compute; reflexivity).
    intros [_ H]; discriminate H.
Defined.

(** C8, as stated, fails.  When the cached token is found expired and the
    token request fails, the expired token and its tenant are still in the
    cache afterwards; and an invocation that stores its response under the
    key [signal] replaces the cache, endpoints included. *)
Lemma expired_pair_remains :
  In (info, Text "Cached token expired, fetching new token")
     (log (signalApi Scenario.token_down Scenario.config
             (Scenario.session Scenario.stale_cache)).2) /\
  get_prop (cache (signalApi Scenario.token_down Scenario.config
                     (Scenario.session Scenario.stale_cache)).2) "token"
    = VStr Scenario.expired_token /\
  get_prop (cache (signalApi Scenario.token_down Scenario.config
                     (Scenario.session Scenario.stale_cache)).2) "tenantId"
    = VStr "t1" /\
  cache (signalApi Scenario.happy Scenario.config_over_cache
           (Scenario.session Scenario.stale_cache)).2
    = VObj [("accepted", VBool true)].
Proof. vm_compute. split_and!; [by left|reflexivity..]. Qed.

(** ** C9: what is stored for the caller *)




(** ** C10: the cache slot is defined after every invocation *)

(** C10, as amended.  After every invocation, however it ends,
    [context.signal] is defined.  And when the invocation starts with a cache
    slot that is empty or holds an object and the pipeline fails, at
    whatever step, even before any other write to the cache, the invocation
    returns normally and the error is recorded in the cache, which the [try]
    block created if it was missing: the [error] field holds the object
    [{step, message, details}] built from what was thrown. *)
Theorem signal_cache_defined w config s :
  truthy (cache (signalApi w config s).2) = true /\
  (forall e s1,
     truthy (cache s) = false \/ is_object (cache s) = true ->
     pipeline w config s = (Throw e, s1) ->
     (signalApi w config s).1 = Normal tt /\
     is_object (cache (signalApi w config s).2) = true /\
     get_prop (cache (signalApi w config s).2) "error" = errorDetails e /\
     exists step msg details,
       get_prop (cache (signalApi w config s).2) "error" =
         VObj [("step", step); ("message", msg); ("details", details)]).
Proof.
  split.
  - destruct (signalApi_after_init w config s) as (s0 & _ & Ht & ->).
    assert (respects keeps_defined (try_catch (steps w config (cache s0)) onError)) as H.
    { apply respects_try_catch; [apply _|apply steps_keeps_defined|].
      intros e. apply onError_keeps_defined. }
    by apply H.
  - intros e s1 Hf E.
    assert (cache_ok s) as Hok by (intros Ht; destruct Hf; congruence).
    destruct (pipeline_throw_frame _ _ _ _ _ Hok E) as (Ho & _).
    apply is_object_inv in Ho as [o Ho].
    unfold signalApi, try_catch. rewrite E, (onError_object _ _ _ Ho). simpl.
    split; [done|].
    unfold cache, context_get. simpl. rewrite lookup_insert_eq. simpl.
    rewrite assoc_assign_eq. simpl.
    split_and!; [done|done|apply errorDetails_shape].
Qed.

(** C10 at work: a new session, no call gets through. *)
Lemma signal_cache_defined_offline :
  truthy (cache (signalApi Scenario.offline Scenario.config Scenario.fresh).2) = true /\
  get_prop (cache (signalApi Scenario.offline Scenario.config Scenario.fresh).2) "error"
    = errorDetails (JsError "AxiosError" "Network Error" None).
Proof.
  destruct (signal_cache_defined Scenario.offline Scenario.config Scenario.fresh)
    as [Hd He].
  split; [exact Hd|].
  apply (He (JsError "AxiosError" "Network Error" None)
            (pipeline Scenario.offline Scenario.config Scenario.fresh).2).
  - left. vm_compute. reflexivity.
  - vm_compute. reflexivity.
Defined.

(** C10, as stated, fails when the cache slot holds a primitive: the slot
    is defined, before and after, but when the pipeline fails no error is
    recorded in it, and the invocation throws. *)
Lemma primitive_cache_records_nothing :
  (pipeline Scenario.offline Scenario.config (Scenario.session (VBool true))).1
    = Throw (JsError "AxiosError" "Network Error" None) /\
  truthy (cache (signalApi Scenario.offline Scenario.config
                   (Scenario.session (VBool true))).2) = true /\
  cache (signalApi Scenario.offline Scenario.config (Scenario.session (VBool true))).2
    = VBool true /\
  get_prop (cache (signalApi Scenario.offline Scenario.config
                     (Scenario.session (VBool true))).2) "error" = VUndef /\
  (signalApi Scenario.offline Scenario.config (Scenario.session (VBool true))).1
    <> Normal tt.
Proof. vm_compute. split_and!; [reflexivity..|discriminate]. Qed.

(** * Further properties *)

(** ** What an invocation writes *)

(** The steps and the invocation respect any relation that logging, the
    network, the writes to the cache and the storing of the response
    respect. *)
Section Invocation.
Context (R : relation State) `{!PreOrder R}.
Context (w : World) (config : Config).
Hypothesis R_store : forall s s',
  context s' = context s -> input s' = input s -> R s s'.
Hypothesis R_set : forall k v, respects R (signalCache_set k v).
Hypothesis R_ensure : respects R ensureSignalCache.
Hypothesis R_stored : forall r, respects R (storeResponse config r).

Lemma steps_respects c : respects R (steps w config c).
Proof.
  unfold steps.
  apply respects_bind; [apply _|by apply checkToken_respects|].
  intros [needNewToken tenantId].
  apply respects_bind; [apply _|unfold getTokenEndpoint; respects_steps|].
  intros tokenEndpoint.
  apply respects_bind; [apply _|unfold getAccessToken; respects_steps|].
  intros [token tenantId'].
  apply respects_bind; [apply _|unfold getApiEndpoint; respects_steps|].
  intros apiEndpoint.
  apply respects_bind; [apply _|unfold callSignalApi; respects_steps|].
  intros r. apply R_stored.
Qed.

Lemma signalApi_respects : respects R (signalApi w config).
Proof.
  unfold signalApi. apply respects_try_catch; [apply _| |intros e].
  - unfold pipeline. apply respects_bind; [apply _| |intros c; apply steps_respects].
    unfold initSignalCache. respects_steps.
  - unfold onError. respects_steps.
Qed.
End Invocation.

#[local] Instance only_writes_preorder config : PreOrder (only_writes config).
Proof.
  split.
  - by intros s.
  - intros a b c (H1 & H2 & H3 & H4) (H1' & H2' & H3' & H4'). split_and!.
    + intros k ??. rewrite H1' by done. by apply H1.
    + intros k ?. rewrite H2' by done. by apply H2.
    + intros ?. rewrite H3' by done. by apply H3.
    + intros ? k ?. rewrite H4' by done. by apply H4.
Qed.

Lemma only_writes_store config s s' :
  context s' = context s -> input s' = input s -> only_writes config s s'.
Proof. intros Hc Hi. unfold only_writes. rewrite Hc, Hi. done. Qed.

Lemma only_writes_signal config v s :
  only_writes config s (with_context (insert "signal" v) s).
Proof.
  unfold only_writes. simpl. split_and!; try done.
  - intros k ??. by rewrite lookup_insert_ne.
  - intros _ k ?. by rewrite lookup_insert_ne.
Qed.

Lemma signalCache_set_only_writes config k v :
  respects (only_writes config) (signalCache_set k v).
Proof.
  intros s. unfold signalCache_set.
  destruct (context_get s "signal"); simpl; try reflexivity.
  apply only_writes_signal.
Qed.

Lemma ensureSignalCache_only_writes config :
  respects (only_writes config) ensureSignalCache.
Proof.
  intros s. rewrite ensureSignalCache_spec. simpl.
  destruct (truthy (cache s)); [reflexivity|apply only_writes_signal].
Qed.

Lemma storeResponse_only_writes config r :
  respects (only_writes config) (storeResponse config r).
Proof.
  intros s. rewrite storeResponse_spec. simpl. unfold only_writes.
  destruct (String.eqb_spec (storageType config) "context") as [Ht|Ht]; simpl.
  - split_and!; try done. intros k _ ?. by rewrite lookup_insert_ne.
  - split_and!; try done. intros k ?. by rewrite lookup_insert_ne.
Qed.

(** X1.  With a storage key that names a property (any key but
    [__proto__]): whatever the world answers and however the invocation
    ends, it writes nothing of the session but [context.signal] and the
    storage key: every other key of the context and of the input holds what
    it held, the input is untouched when the storage type is [context], and
    so is the context outside the cache slot when it is not. *)
Theorem invocation_only_writes w config s :
  storageKey config <> "__proto__" ->
  only_writes config s (signalApi w config s).2.
Proof.
  intros _. apply signalApi_respects; try apply _.
  - apply only_writes_store.
  - intros k v. apply signalCache_set_only_writes.
  - apply ensureSignalCache_only_writes.
  - apply storeResponse_only_writes.
Qed.

Lemma invocation_only_writes_happy :
  only_writes Scenario.config Scenario.fresh
    (signalApi Scenario.happy Scenario.config Scenario.fresh).2.
Proof.
  apply (invocation_only_writes Scenario.happy Scenario.config Scenario.fresh).
  discriminate.
Defined.

(** ** When an invocation throws *)

(** X2.  An invocation throws past its boundary only when the cache slot
    held a truthy value that is not an object when it started; in every
    other case it returns normally, whether the pipeline succeeded or
    failed. *)
Theorem throws_only_on_primitive_cache w config s :
  (signalApi w config s).1 = Normal tt \/
  (truthy (cache s) = true /\ is_object (cache s) = false).
Proof.
  destruct (truthy (cache s)) eqn:Ht, (is_object (cache s)) eqn:Ho; auto; left.
  all: assert (cache_ok s) as Hok by (intros ?; congruence).
  all: unfold signalApi, try_catch.
  all: destruct (pipeline w config s) as [[[]|e] s1] eqn:E; [done|].
  all: destruct (pipeline_throw_frame _ _ _ _ _ Hok E) as (Ho1 & _).
  all: apply is_object_inv in Ho1 as [o Ho1].
  all: by rewrite (onError_object _ _ _ Ho1).
Qed.

(** ** The calls of an invocation *)



(** ** Step 1: the cached token *)

Lemma lt_number_mono v t t' : (t <= t')%Z -> lt_number v t = true -> lt_number v t' = true.
Proof.
  unfold lt_number. intros Ht. destruct (ToNumber v) as [|n| |]; try done.
  unfold num_ltb, of_Z. simpl. rewrite !Z.ltb_lt.
  assert (0 < 10 ^ Z.of_nat (places n))%Z by (apply Z.pow_pos_nonneg; lia).
  nia.
Qed.

(** X4.  For claims whose [exp] is an integer [e], the token counts as
    expired exactly when [e] is 0 or lies less than 60 seconds after the
    current time in whole seconds. *)
Theorem isTokenExpired_integer_exp now_ms e o :
  isTokenExpired now_ms (VObj (assign "exp" (VNum (of_Z e)) o)) =
    Normal ((e =? 0) || (e <? now_ms / 1000 + 60))%Z.
Proof.
  unfold isTokenExpired, member. rewrite get_prop_assign_eq.
  unfold truthy, num_is_zero, lt_number, num_ltb, of_Z. simpl.
  rewrite !Z.mul_1_r. by destruct (e =? 0)%Z.
Qed.

(** X5.  Expiry is monotone in the clock: claims that count as expired at
    one time count as expired at every later time, whatever the claims
    are. *)
Theorem isTokenExpired_monotone now_ms later claims :
  (now_ms <= later)%Z ->
  isTokenExpired now_ms claims = Normal true ->
  isTokenExpired later claims = Normal true.
Proof.
  intros Hle. unfold isTokenExpired.
  destruct (member claims "exp") as [exp|e]; [|done].
  destruct (negb (truthy exp)); [done|].
  intros [= H]. f_equal. apply (lt_number_mono _ (now_ms / 1000 + 60)); [|done].
  assert (now_ms / 1000 <= later / 1000)%Z by (apply Z.div_le_mono; lia). lia.
Qed.

Lemma isTokenExpired_monotone_stale :
  isTokenExpired 1700000000000 Sessions.stale_claims = Normal true /\
  isTokenExpired 1800000000000 Sessions.stale_claims = Normal true.
Proof.
  split; [reflexivity|].
  apply (isTokenExpired_monotone 1700000000000); [lia|reflexivity].
Defined.

Lemma checkToken_unusable w token tenantId s :
  usable (now w) token = None ->
  exists s',
    checkToken w token tenantId s = (Normal (true, tenantId), s') /\
    context s' = context s /\ input s' = input s /\ calls s' = calls s.
Proof.
  unfold checkToken, usable. destruct (truthy token); [|by eexists].
  unfold try_catch, bind, lift.
  destruct (decodeJWT token) as [claims|e]; [|by eexists].
  destruct (isTokenExpired (now w) claims) as [[|]|e]; intros H;
    try discriminate H; by eexists.
Qed.

Lemma usable_inv now_ms token claims :
  usable now_ms token = Some claims ->
  truthy token = true /\ decodeJWT token = Normal claims /\
  isTokenExpired now_ms claims = Normal false.
Proof.
  unfold usable. destruct (truthy token); [|done].
  destruct (decodeJWT token) as [c|e]; [|done].
  destruct (isTokenExpired now_ms c) as [[|]|e] eqn:E; try done.
  by intros [= <-].
Qed.

Lemma checkToken_usable_token w token tenantId claims s :
  usable (now w) token = Some claims ->
  checkToken w token tenantId s =
    (Normal (false, get_prop claims "tenantId"),
     logged info (Text "Using cached valid token") s).
Proof.
  intros (Ht & Hd & He)%usable_inv. by apply checkToken_valid.
Qed.

(** X6.  Step 1 never fails, makes no call and writes nothing to the
    session; it asks for a new token exactly when the cached token is not
    usable, and with a usable token it takes the tenant from the token's
    claims, not from the cache. *)
Theorem checkToken_usable w token tenantId s :
  exists s',
    checkToken w token tenantId s =
      (Normal match usable (now w) token with
              | Some claims => (false, get_prop claims "tenantId")
              | None => (true, tenantId)
              end, s') /\
    context s' = context s /\ input s' = input s /\ calls s' = calls s.
Proof.
  destruct (usable (now w) token) as [claims|] eqn:E.
  - eexists. split; [by apply checkToken_usable_token|done].
  - by apply checkToken_unusable.
Qed.

(** ** What an invocation leaves in the cache *)

Lemma pipeline_same_field k w config :
  k <> "token" -> k <> "tenantId" -> k <> "tokenEndpoint" -> k <> "apiEndpoint" ->
  k <> "length" ->
  ~ stores_over_cache config ->
  respects (same_field k) (pipeline w config).
Proof.
  intros H1 H2 H3 H4 Hl Hns. unfold pipeline.
  apply respects_bind; [apply _|by apply initSignalCache_same_field|]. intros c.
  unfold steps.
  apply respects_bind; [apply _|apply checkToken_respects; [apply _|auto with respects]|].
  intros [needNewToken tenantId].
  apply respects_bind; [apply _|apply getTokenEndpoint_same_field; by left|].
  intros tokenEndpoint.
  apply respects_bind; [apply _|by apply getAccessToken_same_field|].
  intros [token tenantId'].
  apply respects_bind; [apply _|apply getApiEndpoint_same_field; by left|].
  intros apiEndpoint.
  apply respects_bind; [apply _|apply callSignalApi_same_field|]. intros r.
  by apply storeResponse_same_field.
Qed.

(** X7.  A successful invocation does not clear the error that an earlier
    failure recorded: the [error] field of the cache is the same after it as
    before (unless the response is stored over the cache itself). *)
Theorem success_keeps_error w config s :
  ~ stores_over_cache config ->
  (pipeline w config s).1 = Normal tt ->
  get_prop (cache (signalApi w config s).2) "error" = get_prop (cache s) "error".
Proof.
  intros Hns Hok.
  pose proof (pipeline_same_field "error" w config) as H.
  specialize (H ltac:(done) ltac:(done) ltac:(done) ltac:(done) ltac:(done) Hns s).
  unfold signalApi, try_catch.
  destruct (pipeline w config s) as [[[]|e] s1]; [exact H|done].
Qed.

Lemma success_keeps_error_after_failure :
  get_prop (cache (signalApi Scenario.happy Scenario.config
                     (Scenario.session Sessions.failed_before)).2) "error"
    = VObj [("step", VStr "unknown"); ("message", VStr "Network Error");
            ("details", VObj [])].
Proof.
  rewrite (success_keeps_error Scenario.happy Scenario.config
             (Scenario.session Sessions.failed_before)).
  - reflexivity.
  - intros [_ H]. discriminate H.
  - vm_compute. reflexivity.
Defined.

(** X8.  When the token endpoint grants a token that does not decode, the
    token is cached all the same, before the failure: the invocation ends
    with the new token, the tenant of the old one and the error in the
    cache, having made the token request and no call after it. *)
Theorem undecodable_token_is_cached w config s o r e :
  cache s = VObj o ->
  usable (now w) (get_prop (VObj o) "token") = None ->
  truthy (get_prop (VObj o) "tokenEndpoint") = true ->
  http w (tokenRequest config (get_prop (VObj o) "tokenEndpoint")) = Resolved r ->
  truthy (get_prop (data r) "access_token") = true ->
  decodeJWT (get_prop (data r) "access_token") = Throw e ->
  cache (signalApi w config s).2 =
    VObj (assign "error" (errorDetails e)
            (assign "token" (get_prop (data r) "access_token") o)) /\
  calls (signalApi w config s).2 =
    calls s ++ [tokenRequest config (get_prop (VObj o) "tokenEndpoint")].
Proof.
  intros Ho Hu Hte Hr Hat Hd.
  destruct (signalApi_after_init w config s) as (s0 & Hs0 & _ & ->).
  rewrite Ho in Hs0. simpl in Hs0. subst s0.
  unfold steps. rewrite Ho.
  destruct (checkToken_unusable w _ (get_prop (VObj o) "tenantId") s Hu)
    as (s1 & E1 & Hc1 & _ & Hk1).
  rewrite (try_bind_normal _ _ _ _ _ _ E1). cbv beta iota.
  rewrite (try_bind_normal _ _ _ _ _ _
             (getTokenEndpoint_skip w true _ s1 ltac:(by rewrite Hte))).
  assert (cache s1 = VObj o) as Ho1 by (by rewrite (cache_same_context _ _ Hc1)).
  rewrite (try_bind_throw _ _ _ _ _ _
             (getAccessToken_undecodable w config _ _ _ s1 r e o Hr Hat Hd Ho1)).
  rewrite onError_object with (o := assign "token" (get_prop (data r) "access_token") o)
    by apply cache_insert_signal.
  split; [apply cache_insert_signal|]. simpl. by rewrite Hk1.
Qed.

Lemma undecodable_token_is_cached_opaque :
  get_prop (cache (signalApi Sessions.garbled Scenario.config
                     (Scenario.session Scenario.stale_cache)).2) "token" = VStr "opaque" /\
  get_prop (cache (signalApi Sessions.garbled Scenario.config
                     (Scenario.session Scenario.stale_cache)).2) "tenantId" = VStr "t1".
Proof.
  destruct (undecodable_token_is_cached Sessions.garbled Scenario.config
              (Scenario.session Scenario.stale_cache)
              [("tokenEndpoint", VStr "https://auth.example/token");
               ("token", VStr Scenario.expired_token);
               ("tenantId", VStr "t1");
               ("apiEndpoint", VStr "https://api.example")]
              Sessions.opaque_grant
              (Error "Failed to decode JWT: Invalid JWT format")) as [-> _];
    try (vm_compute; reflexivity).
  split; reflexivity.
Defined.

(** ** Separators *)

Lemma split_go_app sep a b cur :
  split_go sep (a +:+ String sep b) cur
    = split_go sep a cur ++ split_go sep b EmptyString.
Proof.
  revert cur. induction a as [|c a IH]; intros cur.
  - change (EmptyString +:+ String sep b) with (String sep b). simpl.
    by rewrite Ascii.eqb_refl.
  - change (String c a +:+ String sep b) with (String c (a +:+ String sep b)). simpl.
    destruct (Ascii.eqb c sep); [by rewrite IH|apply IH].
Qed.

Lemma split_go_free sep a cur :
  occurs sep a = false -> split_go sep a cur = [String.rev_app cur a].
Proof.
  revert cur. induction a as [|c a IH]; intros cur; [done|].
  simpl. intros [Hc Ha]%orb_false_elim. rewrite Hc. by rewrite IH.
Qed.

Lemma split_free sep a : occurs sep a = false -> split sep a = [a].
Proof. intros H. unfold split. by rewrite split_go_free. Qed.

Lemma split_join sep x l :
  Forall (fun s => occurs sep s = false) (x :: l) ->
  split sep (join (String sep EmptyString) (x :: l)) = x :: l.
Proof.
  revert x. induction l as [|y l IH]; intros x H.
  - simpl. apply split_free. by inversion H.
  - inversion H as [|? ? Hx Hl]; subst.
    change (join (String sep EmptyString) (x :: y :: l))
      with (x +:+ String sep (join (String sep EmptyString) (y :: l))).
    unfold split. rewrite split_go_app.
    fold (split sep x). fold (split sep (join (String sep EmptyString) (y :: l))).
    by rewrite split_free, IH.
Qed.

Lemma occurs_app c a b : occurs c (a +:+ b) = occurs c a || occurs c b.
Proof.
  induction a as [|x a IH]; [done|].
  change (String x a +:+ b) with (String x (a +:+ b)). simpl.
  by rewrite IH, orb_assoc.
Qed.

Lemma all_chars_occurs p c s :
  all_chars p s = true -> p c = false -> occurs c s = false.
Proof.
  intros Hs Hc. induction s as [|x s IH]; [done|].
  rewrite all_chars_cons in Hs. apply andb_prop in Hs as [Hx Hs].
  simpl. rewrite (IH Hs), orb_false_r.
  destruct (Ascii.eqb_spec x c); [congruence|done].
Qed.

Lemma form_char_safe c :
  all_chars form_safe
    (if Ascii.eqb c " " then "+"
     else if form_keep c then String c EmptyString else percent c) = true.
Proof. destruct c as [[] [] [] [] [] [] [] []]; vm_compute; reflexivity. Qed.

Lemma uri_char_safe c :
  all_chars uri_safe (if uri_unreserved c then String c EmptyString else percent c) = true.
Proof. destruct c as [[] [] [] [] [] [] [] []]; vm_compute; reflexivity. Qed.

Lemma form_encode_safe s : all_chars form_safe (form_encode s) = true.
Proof. unfold form_encode. apply all_chars_concat, form_char_safe. Qed.

Lemma encodeURIComponent_safe s : all_chars uri_safe (encodeURIComponent s) = true.
Proof.
  unfold encodeURIComponent, escape_with. apply all_chars_concat, uri_char_safe.
Qed.

Lemma field_split name value :
  occurs "=" name = false -> occurs "=" value = false ->
  split "=" (name +:+ "=" +:+ value) = [name; value].
Proof.
  intros Hn Hv. apply (split_join "=" name [value]). by repeat constructor.
Qed.

Lemma field_whole name value :
  occurs "&" name = false -> occurs "&" value = false ->
  occurs "&" (name +:+ "=" +:+ value) = false.
Proof. intros Hn Hv. by rewrite !occurs_app, Hn, Hv. Qed.

(** X9.  Whatever the application credentials are, the body of the token
    request reads back as exactly three fields, [grant_type], [username]
    and [password], in this order: no character of a credential ends a
    field or starts one. *)
Theorem token_form_fields config tokenEndpoint :
  exists body,
    req_body (tokenRequest config tokenEndpoint) = Some (VStr body) /\
    form_fields body =
      [["grant_type"; "password"];
       ["username"; form_encode (username (appCredentialsConnection config))];
       ["password"; form_encode (password (appCredentialsConnection config))]].
Proof.
  eexists. split; [reflexivity|].
  set (u := username (appCredentialsConnection config)).
  set (p := password (appCredentialsConnection config)).
  unfold form_fields, URLSearchParams_toString.
  change (map _ [("grant_type", "password"); ("username", u); ("password", p)])
    with ["grant_type" +:+ "=" +:+ "password";
          "username" +:+ "=" +:+ form_encode u;
          "password" +:+ "=" +:+ form_encode p].
  assert (forall s, occurs "&" (form_encode s) = false) as Hamp
    by (intros s; apply (all_chars_occurs form_safe); [apply form_encode_safe|reflexivity]).
  assert (forall s, occurs "=" (form_encode s) = false) as Heq
    by (intros s; apply (all_chars_occurs form_safe); [apply form_encode_safe|reflexivity]).
  rewrite (split_join "&") by (repeat constructor; by apply field_whole).
  simpl map. by rewrite !field_split.
Qed.

Lemma dec_nat_small i :
  i < 9 ->
  occurs "&" (dec_nat (i + 1)) = false /\ occurs "=" (dec_nat (i + 1)) = false.
Proof. intros Hi. do 9 (destruct i as [|i]; [by vm_compute|]). lia. Qed.

(** X10.  Whatever the parameter values are, the query string reads back
    as the fields [p1], [p2], ... of the first nine of them, one field per
    value: no character of a value ends a field or starts one. *)
Theorem query_fields value parameters :
  form_fields (queryParams (value :: parameters)) =
    imap (fun index value => ["p" +:+ dec_nat (index + 1); encodeURIComponent value])
         (take 9 (value :: parameters)).
Proof.
  unfold form_fields, queryParams.
  assert (forall s, occurs "&" (encodeURIComponent s) = false) as Hamp
    by (intros s; apply (all_chars_occurs uri_safe);
        [apply encodeURIComponent_safe|reflexivity]).
  assert (forall s, occurs "=" (encodeURIComponent s) = false) as Heq
    by (intros s; apply (all_chars_occurs uri_safe);
        [apply encodeURIComponent_safe|reflexivity]).
  set (l := take 9 (value :: parameters)).
  assert (forall i x, l !! i = Some x -> i < 9) as Hl
    by (intros i x [_ Hi]%lookup_take_Some; exact Hi).
  set (f := fun index value =>
              "p" +:+ dec_nat (index + 1) +:+ "=" +:+ encodeURIComponent value).
  assert (Forall (fun s => occurs "&" s = false) (imap f l)) as Hfree.
  { apply Forall_lookup_2. intros i s (x & Hx & ->)%list_lookup_imap_Some.
    unfold f. destruct (dec_nat_small i (Hl _ _ Hx)) as [Hd _].
    by rewrite !occurs_app, Hamp, Hd. }
  assert (exists y r, imap f l = y :: r) as (y & r & E)
    by (subst l; do 2 eexists; reflexivity).
  rewrite E in Hfree |- *. rewrite (split_join "&" y r Hfree), <- E.
  change (map (split "=") (imap f l)) with (split "=" <$> imap f l).
  rewrite fmap_imap. apply imap_ext. intros i x Hx. simpl. unfold f.
  rewrite <- (append_assoc "p" (dec_nat (i + 1))).
  apply field_split; [|apply Heq].
  destruct (dec_nat_small i (Hl _ _ Hx)) as [_ Hd].
  by rewrite occurs_app, Hd.
Qed.

(** ** The segments of a token *)

Lemma token_parts h p g :
  occurs "." h = false -> occurs "." g = false ->
  split "." (join "." [h; p; g]) = h :: split "." p ++ [g].
Proof.
  intros Hh Hg.
  change (join "." [h; p; g]) with (h +:+ String "." (p +:+ String "." g)).
  unfold split. rewrite !split_go_app.
  fold (split "." h). fold (split "." p). fold (split "." g).
  by rewrite (split_free _ h), (split_free _ g).
Qed.

(** X11.  [decodeJWT] reads the middle segment only: two tokens with the
    same payload decode alike (or fail alike) whatever their header and
    their signature are.  The signature is never looked at. *)
Theorem decodeJWT_reads_payload_only h g h' g' p :
  occurs "." h = false -> occurs "." g = false ->
  occurs "." h' = false -> occurs "." g' = false ->
  decodeJWT (VStr (join "." [h; p; g])) = decodeJWT (VStr (join "." [h'; p; g'])).
Proof.
  intros Hh Hg Hh' Hg'. unfold decodeJWT, decodeJWT_try.
  rewrite !token_parts by done.
  destruct (split "." p) as [|x [|y r]]; [done|done|].
  simpl. rewrite !length_app. simpl. by rewrite !Nat.add_1_r.
Qed.

Lemma decodeJWT_reads_payload_only_forged :
  decodeJWT (VStr "x.eyJleHAiOjk5OTk5OTk5OTksInRlbmFudElkIjoidDEifQ.forged")
    = Normal Scenario.valid_claims.
Proof.
  etransitivity.
  - symmetry.
    apply (decodeJWT_reads_payload_only "h" "s" "x" "forged"
             "eyJleHAiOjk5OTk5OTk5OTksInRlbmFudElkIjoidDEifQ"); reflexivity.
  - reflexivity.
Defined.

(** ** Base64 *)

Lemma in_all_bytes a : (a < 256)%N -> In a all_bytes.
Proof.
  intros H. unfold all_bytes. rewrite <- (N2Nat.id a). apply in_map, in_seq. lia.
Qed.

Lemma sextets_fit_bytes a b : (a < 256)%N -> (b < 256)%N -> sextets_fit a b = true.
Proof.
  intros Ha Hb.
  assert (forallb (fun a => forallb (sextets_fit a) all_bytes) all_bytes = true) as H
    by (vm_compute; reflexivity).
  rewrite forallb_forall in H. specialize (H a (in_all_bytes a Ha)).
  rewrite forallb_forall in H. exact (H b (in_all_bytes b Hb)).
Qed.

Lemma sextets_char n r :
  (n < 64)%N -> sextets (String (base64_char n) r) = n :: sextets r.
Proof.
  intros Hn.
  assert (forallb (fun n => negb (Ascii.eqb (base64_char n) "=") &&
                            match unbase64 (base64_char n) with
                            | Some m => N.eqb m n
                            | None => false
                            end) (map N.of_nat (seq 0 64)) = true) as H
    by (vm_compute; reflexivity).
  rewrite forallb_forall in H.
  assert (In n (map N.of_nat (seq 0 64))) as Hin
    by (rewrite <- (N2Nat.id n); apply in_map, in_seq; lia).
  apply H, andb_prop in Hin as [He Hu].
  simpl. apply negb_true_iff in He. rewrite He.
  destruct (unbase64 (base64_char n)) as [m|]; [|done].
  apply N.eqb_eq in Hu. by subst.
Qed.

Lemma list_ind3 {A} (P : list A -> Prop) :
  P [] -> (forall a, P [a]) -> (forall a b, P [a; b]) ->
  (forall a b c r, P r -> P (a :: b :: c :: r)) ->
  forall l, P l.
Proof.
  intros H0 H1 H2 H3 l.
  assert (forall n l, List.length l < n -> P l) as H; [|apply (H (S (List.length l))); lia].
  clear l. induction n as [|n IH]; intros l Hl; [lia|].
  destruct l as [|a [|b [|c r]]]; auto.
  apply H3, IH. simpl in Hl. lia.
Qed.

Ltac fits H :=
  unfold sextets_fit in H; cbv zeta in H;
  repeat (apply andb_prop in H as [H ?]);
  repeat match goal with
         | H : (_ <? _)%N = true |- _ => apply N.ltb_lt in H
         | H : (_ =? _)%N = true |- _ => apply N.eqb_eq in H
         end.

Lemma base64_round_trip l :
  Forall (fun b => (b < 256)%N) l -> Buffer_from_base64 (base64_encode l) = l.
Proof.
  unfold Buffer_from_base64.
  induction l as [|a|a b|a b c r IH] using list_ind3; intros Hl.
  - done.
  - inversion Hl as [|? ? Ha _]; subst.
    pose proof (sextets_fit_bytes a a Ha Ha) as F. fits F.
    change (base64_encode [a])
      with (String (base64_char (N.shiftr a 2))
             (String (base64_char (N.shiftl (N.land a 3) 4)) "==")).
    rewrite !sextets_char by done. simpl. by f_equal.
  - inversion Hl as [|? ? Ha Hl']; subst. inversion Hl' as [|? ? Hb _]; subst.
    pose proof (sextets_fit_bytes a b Ha Hb) as F. fits F.
    pose proof (sextets_fit_bytes b b Hb Hb) as G. fits G.
    change (base64_encode [a; b])
      with (String (base64_char (N.shiftr a 2))
             (String (base64_char (N.lor (N.shiftl (N.land a 3) 4) (N.shiftr b 4)))
               (String (base64_char (N.shiftl (N.land b 15) 2)) "="))).
    rewrite !sextets_char by done. simpl. repeat f_equal; congruence.
  - inversion Hl as [|? ? Ha Hl']; subst. inversion Hl' as [|? ? Hb Hl'']; subst.
    inversion Hl'' as [|? ? Hc Hr]; subst.
    pose proof (sextets_fit_bytes a b Ha Hb) as F. fits F.
    pose proof (sextets_fit_bytes b c Hb Hc) as G. fits G.
    change (base64_encode (a :: b :: c :: r))
      with (String (base64_char (N.shiftr a 2))
             (String (base64_char (N.lor (N.shiftl (N.land a 3) 4) (N.shiftr b 4)))
               (String (base64_char (N.lor (N.shiftl (N.land b 15) 2) (N.shiftr c 6)))
                 (String (base64_char (N.land c 63)) (base64_encode r))))).
    rewrite !sextets_char by done.
    change (decode_groups (?s1 :: ?s2 :: ?s3 :: ?s4 :: ?t))
      with (N.lor (N.shiftl s1 2) (N.shiftr s2 4)
            :: N.lor (N.shiftl (N.land s2 15) 4) (N.shiftr s3 2)
            :: N.lor (N.shiftl (N.land s3 3) 6) s4
            :: decode_groups t).
    rewrite (IH Hr). repeat f_equal; congruence.
Qed.

(** X12.  The [Authorization] header of the token request carries the
    connection's credentials recoverably: what follows [Basic] decodes,
    byte for byte, to [username:password], whatever the two are. *)
Theorem basic_credentials_round_trip config tokenEndpoint :
  exists basicAuthString,
    req_headers (tokenRequest config tokenEndpoint) =
      [("Authorization", "Basic " +:+ basicAuthString);
       ("Content-Type", "application/x-www-form-urlencoded")] /\
    Buffer_from_base64 basicAuthString =
      Buffer_from_utf8 (username (basicAuthConnection config) +:+ ":" +:+
                        password (basicAuthConnection config)).
Proof.
  eexists. split; [reflexivity|].
  apply base64_round_trip. unfold Buffer_from_utf8, bytes_of_string.
  apply List.Forall_map, Forall_forall. intros c _. apply N_ascii_bounded.
Qed.

(** ** The cache after the steps that succeeded *)

Lemma checkToken_object w token tenantId s o needNewToken tenantId' s' :
  cache s = VObj o ->
  checkToken w token tenantId s = (Normal (needNewToken, tenantId'), s') ->
  cache s' = VObj o /\ calls s' = calls s /\
  (needNewToken = true \/ exists claims, decodeJWT token = Normal claims).
Proof.
  intros Ho E. destruct (usable (now w) token) as [claims|] eqn:Hu.
  - rewrite (checkToken_usable_token _ _ _ _ _ Hu) in E. injection E as <- <- <-.
    apply usable_inv in Hu as (_ & Hd & _). split_and!; [done|done|eauto].
  - destruct (checkToken_unusable w token tenantId s Hu) as (s1 & E1 & Hc & _ & Hk).
    rewrite E1 in E. injection E as <- <- <-.
    split_and!; [by rewrite (cache_same_context _ _ Hc)|done|by left].
Qed.

Lemma getTokenEndpoint_object w needNewToken tokenEndpoint s o found s' :
  cache s = VObj o ->
  getTokenEndpoint w needNewToken tokenEndpoint s = (Normal found, s') ->
  exists o', cache s' = VObj o' /\
    forall k, k <> "tokenEndpoint" -> get_prop (VObj o') k = get_prop (VObj o) k.
Proof.
  intros Ho E.
  destruct (needNewToken && negb (truthy tokenEndpoint)) eqn:Hb.
  - apply andb_prop in Hb as [-> Ht]. apply negb_true_iff in Ht.
    destruct (getTokenEndpoint_fetch_inv _ _ _ _ _ _ Ht Ho E) as (r & _ & _ & _ & ->).
    eexists. split; [by read_cache|].
    intros k Hk. by rewrite get_prop_assign_ne.
  - rewrite getTokenEndpoint_skip in E by done. injection E as <- <-. eauto.
Qed.

Lemma getAccessToken_object w config needNewToken tokenEndpoint token tenantId
    s o token' tenantId' s' :
  cache s = VObj o ->
  getAccessToken w config needNewToken tokenEndpoint token tenantId s
    = (Normal (token', tenantId'), s') ->
  exists o', cache s' = VObj o' /\
    (forall k, k <> "token" -> k <> "tenantId" ->
               get_prop (VObj o') k = get_prop (VObj o) k) /\
    if needNewToken
    then get_prop (VObj o') "token" = token' /\
         exists claims, decodeJWT token' = Normal claims
    else token' = token /\ o' = o.
Proof.
  intros Ho E. destruct needNewToken.
  - destruct (getAccessToken_granted_inv _ _ _ _ _ _ _ _ _ _ Ho E)
      as (r & claims & _ & _ & _ & Hd & _ & ->).
    eexists. split; [by read_cache|]. split_and!.
    + intros k H1 H2. by rewrite !get_prop_assign_ne.
    + by rewrite get_prop_assign_ne, get_prop_assign_eq.
    + eauto.
  - rewrite getAccessToken_skip in E. injection E as <- <- <-. eauto.
Qed.

Lemma getApiEndpoint_object w apiEndpoint tenantId s o found s' :
  cache s = VObj o ->
  get_prop (VObj o) "apiEndpoint" = apiEndpoint ->
  getApiEndpoint w apiEndpoint tenantId s = (Normal found, s') ->
  exists o', cache s' = VObj o' /\ truthy found = true /\
    get_prop (VObj o') "apiEndpoint" = found /\
    forall k, k <> "apiEndpoint" -> get_prop (VObj o') k = get_prop (VObj o) k.
Proof.
  intros Ho Ha E. destruct (truthy apiEndpoint) eqn:Ht.
  - rewrite getApiEndpoint_skip in E by done. injection E as <- <-. eauto.
  - destruct (getApiEndpoint_fetch_inv _ _ _ _ _ _ _ Ht Ho E) as (r & _ & _ & Hf & ->).
    eexists. split; [by read_cache|]. split_and!; [done|apply get_prop_assign_eq|].
    intros k Hk. by rewrite get_prop_assign_ne.
Qed.

Lemma pipeline_success w config s s' :
  cache_ok s -> ~ stores_over_cache config ->
  pipeline w config s = (Normal tt, s') ->
  exists claims r,
    is_object (cache s') = true /\
    decodeJWT (get_prop (cache s') "token") = Normal claims /\
    truthy (get_prop (cache s') "apiEndpoint") = true /\
    http w (signalRequest (get_prop (cache s') "apiEndpoint")
                          (get_prop (cache s') "token") config) = Resolved r /\
    last (calls s') = Some (signalRequest (get_prop (cache s') "apiEndpoint")
                                          (get_prop (cache s') "token") config).
Proof.
  intros Hok Hns E.
  destruct (init_object s Hok) as (s0 & o & E0 & Ho & _).
  unfold pipeline in E. rewrite (bind_normal _ _ _ _ _ E0) in E.
  unfold steps in E.
  apply bind_normal_inv in E as ([needNewToken tenantId] & s1 & E1 & E).
  destruct (checkToken_object _ _ _ _ _ _ _ _ Ho E1) as (Ho1 & _ & Hvalid).
  apply bind_normal_inv in E as (tokenEndpoint & s2 & E2 & E).
  destruct (getTokenEndpoint_object _ _ _ _ _ _ _ Ho1 E2) as (o2 & Ho2 & K2).
  apply bind_normal_inv in E as ([token tenantId'] & s3 & E3 & E).
  destruct (getAccessToken_object _ _ _ _ _ _ _ _ _ _ _ Ho2 E3) as (o3 & Ho3 & K3 & Htok).
  apply bind_normal_inv in E as (apiEndpoint & s4 & E4 & E).
  assert (get_prop (VObj o3) "apiEndpoint" = get_prop (VObj o) "apiEndpoint") as Hapi
    by (by rewrite K3, K2).
  destruct (getApiEndpoint_object _ _ _ _ _ _ _ Ho3 Hapi E4) as (o4 & Ho4 & Ht & Ha & K4).
  apply bind_normal_inv in E as (r & s5 & E5 & E).
  apply callSignalApi_inv in E5 as (Hr & Hc5 & _ & Hk5).
  apply (storeResponse_cache _ _ _ _ Hns) in E as [Hc Hk].
  assert (cache s' = VObj o4) as Ho'
    by (by rewrite Hc, (cache_same_context _ _ Hc5)).
  assert (get_prop (VObj o4) "token" = token /\
          exists claims, decodeJWT token = Normal claims) as [Ht4 [claims Hd]].
  { rewrite K4 by done. destruct needNewToken.
    - exact Htok.
    - destruct Htok as [-> ->]. split; [by apply K2|].
      by destruct Hvalid as [|Hvalid]. }
  exists claims, r. rewrite Ho', Ht4, Ha, Hk, Hk5.
  split_and!; [done|done|done|done|apply last_snoc].
Qed.

(** X13.  A successful invocation leaves a working cache: the token in it
    decodes, the API endpoint in it is set, and the signal call, the last
    call made, was sent to this endpoint with this token and was answered
    (unless the response is stored over the cache itself). *)
Theorem success_leaves_working_cache w config s :
  cache_ok s -> ~ stores_over_cache config ->
  (pipeline w config s).1 = Normal tt ->
  exists claims r,
    decodeJWT (get_prop (cache (signalApi w config s).2) "token") = Normal claims /\
    truthy (get_prop (cache (signalApi w config s).2) "apiEndpoint") = true /\
    http w (signalRequest (get_prop (cache (signalApi w config s).2) "apiEndpoint")
                          (get_prop (cache (signalApi w config s).2) "token") config)
      = Resolved r /\
    last (calls (signalApi w config s).2)
      = Some (signalRequest (get_prop (cache (signalApi w config s).2) "apiEndpoint")
                            (get_prop (cache (signalApi w config s).2) "token") config).
Proof.
  intros Hok Hns E. unfold signalApi, try_catch.
  destruct (pipeline w config s) as [[[]|e] s'] eqn:Ep; [|done].
  destruct (pipeline_success _ _ _ _ Hok Hns Ep) as (claims & r & _ & H).
  by exists claims, r.
Qed.

Lemma success_leaves_working_cache_first :
  exists claims r,
    decodeJWT (get_prop (cache (signalApi Scenario.happy Scenario.config
                                  Scenario.fresh).2) "token") = Normal claims /\
    truthy (get_prop (cache (signalApi Scenario.happy Scenario.config
                               Scenario.fresh).2) "apiEndpoint") = true /\
    http Scenario.happy
      (signalRequest
         (get_prop (cache (signalApi Scenario.happy Scenario.config
                             Scenario.fresh).2) "apiEndpoint")
         (get_prop (cache (signalApi Scenario.happy Scenario.config
                             Scenario.fresh).2) "token") Scenario.config)
      = Resolved r /\
    last (calls (signalApi Scenario.happy Scenario.config Scenario.fresh).2)
      = Some (signalRequest
                (get_prop (cache (signalApi Scenario.happy Scenario.config
                                    Scenario.fresh).2) "apiEndpoint")
                (get_prop (cache (signalApi Scenario.happy Scenario.config
                                    Scenario.fresh).2) "token") Scenario.config).
Proof.
  apply (success_leaves_working_cache Scenario.happy Scenario.config Scenario.fresh).
  - intros H. vm_compute in H. discriminate.
  - intros [_ H]. discriminate H.
  - vm_compute. reflexivity.
Defined.

(** ** With everything cached *)

Lemma one_call_when_cached w config s o claims :
  cache s = VObj o ->
  usable (now w) (get_prop (VObj o) "token") = Some claims ->
  truthy (get_prop (VObj o) "apiEndpoint") = true ->
  calls (signalApi w config s).2 =
    calls s ++ [signalRequest (get_prop (VObj o) "apiEndpoint")
                              (get_prop (VObj o) "token") config].
Proof.
  intros Ho Hu Ha.
  destruct (signalApi_after_init w config s) as (s0 & Hs0 & _ & ->).
  rewrite Ho in Hs0. simpl in Hs0. subst s0.
  unfold steps. rewrite Ho.
  rewrite (try_bind_normal _ _ _ _ _ _ (checkToken_usable_token w _ _ claims s Hu)).
  cbv beta iota.
  rewrite (try_bind_normal _ _ _ _ _ _ (getTokenEndpoint_skip w false _ _ eq_refl)).
  rewrite (try_bind_normal _ _ _ _ _ _ (getAccessToken_skip _ _ _ _ _ _)).
  cbv beta iota.
  pose proof (discover_and_finish_calls w config (get_prop (VObj o) "apiEndpoint")
                (get_prop claims "tenantId") (get_prop (VObj o) "token")
                (logged info (Text "Using cached valid token") s) o Ho) as H.
  cbv zeta in H. by rewrite Ha in H.
Qed.

(** X14.  After a successful invocation on a session whose cache slot was
    empty or held an object, with the response not stored over the cache:
    for as long as the token it left in the cache is usable, a further
    invocation on the same session, with well-formed parameters, makes
    exactly one call: the signal call, with the cached token to the cached
    endpoint. *)
Theorem next_invocation_one_call w config w' config' s claims :
  cache_ok s -> ~ stores_over_cache config ->
  (pipeline w config s).1 = Normal tt ->
  usable (now w') (get_prop (cache (signalApi w config s).2) "token") = Some claims ->
  Forall well_formed (take 9 (parameters config')) ->
  calls (invocations [(w, config); (w', config')] s) =
    calls (signalApi w config s).2 ++
    [signalRequest (get_prop (cache (signalApi w config s).2) "apiEndpoint")
                   (get_prop (cache (signalApi w config s).2) "token") config'].
Proof.
  intros Hok Hns E Hu _. simpl.
  assert (exists o, cache (signalApi w config s).2 = VObj o /\
                    truthy (get_prop (VObj o) "apiEndpoint") = true) as (o & Ho & Ha).
  { unfold signalApi, try_catch.
    destruct (pipeline w config s) as [[[]|e] s'] eqn:Ep; [|done].
    destruct (pipeline_success _ _ _ _ Hok Hns Ep) as (c & r & Hobj & _ & Ha & _).
    apply is_object_inv in Hobj as [o Ho]. exists o.
    split; [exact Ho|by rewrite <- Ho]. }
  rewrite Ho in Hu |- *. by apply (one_call_when_cached _ _ _ _ claims).
Qed.

Lemma next_invocation_one_call_second :
  List.length (calls (invocations [(Scenario.happy, Scenario.config);
                                   (Scenario.happy, Scenario.config)] Scenario.fresh))
    = 5.
Proof.
  rewrite (next_invocation_one_call Scenario.happy Scenario.config
             Scenario.happy Scenario.config Scenario.fresh Scenario.valid_claims).
  - vm_compute. reflexivity.
  - intros H. vm_compute in H. discriminate.
  - intros [_ H]. discriminate H.
  - vm_compute. reflexivity.
  - vm_compute. reflexivity.
  - repeat constructor.
Defined.

(** X15.  With a usable token in the cache, an invocation leaves [token],
    [tenantId] and [tokenEndpoint] as they are, whether it succeeds or
    fails (unless the response is stored over the cache itself). *)
Theorem usable_token_untouched k w config s claims :
  k = "token" \/ k = "tenantId" \/ k = "tokenEndpoint" ->
  usable (now w) (get_prop (cache s) "token") = Some claims ->
  ~ stores_over_cache config ->
  get_prop (cache (signalApi w config s).2) k = get_prop (cache s) k.
Proof.
  intros Hk Hu Hns.
  assert (k <> "apiEndpoint" /\ k <> "error" /\ k <> "length") as (H1 & H2 & H3)
    by (destruct Hk as [ -> | [ -> | -> ] ]; done).
  pose proof Hu as (_ & Hd & _)%usable_inv.
  destruct (decodeJWT_string _ _ Hd) as (t & Ht & _).
  destruct (get_prop_string_object _ _ _ Ht) as [o Ho].
  destruct (signalApi_after_init w config s) as (s0 & Hs0 & _ & ->).
  rewrite Ho in Hs0. simpl in Hs0. subst s0.
  unfold steps.
  rewrite (try_bind_normal _ _ _ _ _ _ (checkToken_usable_token w _ _ claims s Hu)).
  cbv beta iota.
  rewrite (try_bind_normal _ _ _ _ _ _ (getTokenEndpoint_skip w false _ _ eq_refl)).
  rewrite (try_bind_normal _ _ _ _ _ _ (getAccessToken_skip _ _ _ _ _ _)).
  cbv beta iota.
  match goal with
  | |- get_prop (cache (try_catch ?m onError ?s1).2) k = _ =>
      assert (respects (same_field k) (try_catch m onError)) as H;
        [|exact (H s1)]
  end.
  apply respects_try_catch; [apply _| |intros e; by apply onError_same_field].
  apply respects_bind; [apply _|apply getApiEndpoint_same_field; by left|].
  intros apiEndpoint.
  apply respects_bind; [apply _|apply callSignalApi_same_field|]. intros r.
  by apply storeResponse_same_field.
Qed.

Lemma usable_token_untouched_offline :
  get_prop (cache (signalApi Scenario.offline Scenario.config
                     (Scenario.session Scenario.token_only)).2) "token"
    = VStr Scenario.valid_token.
Proof.
  rewrite (usable_token_untouched "token" Scenario.offline Scenario.config
             (Scenario.session Scenario.token_only) Scenario.valid_claims).
  - reflexivity.
  - by left.
  - vm_compute. reflexivity.
  - intros [_ H]. discriminate H.
Defined.

(** ** The log *)

#[local] Instance no_error_logged_preorder : PreOrder no_error_logged.
Proof.
  split.
  - intros s. exists []. by rewrite app_nil_r.
  - intros a b c (n1 & E1 & H1) (n2 & E2 & H2). exists (n1 ++ n2).
    rewrite E2, E1, app_assoc. split; [done|by apply Forall_app].
Qed.

Lemma no_error_logged_same s s' : log s' = log s -> no_error_logged s s'.
Proof. intros E. exists []. by rewrite app_nil_r. Qed.

Lemma no_error_api_log l msg : l <> error -> respects no_error_logged (api_log l msg).
Proof. intros Hl s. exists [(l, msg)]. split; [done|by repeat constructor]. Qed.

Lemma no_error_axios w req : respects no_error_logged (axios w req).
Proof. intros s. unfold axios. destruct (http w req); by apply no_error_logged_same. Qed.

Lemma no_error_signalCache_set k v : respects no_error_logged (signalCache_set k v).
Proof.
  intros s. unfold signalCache_set.
  destruct (context_get s "signal"); by apply no_error_logged_same.
Qed.

Lemma no_error_context_set k v : respects no_error_logged (context_set k v).
Proof. intros s. by apply no_error_logged_same. Qed.

Lemma no_error_addToInput k v : respects no_error_logged (api_addToInput k v).
Proof. intros s. by apply no_error_logged_same. Qed.

Ltac log_steps :=
  repeat first
    [ apply respects_ret; preorder
    | apply respects_throw; preorder
    | apply respects_lift; preorder
    | apply respects_context_read; preorder
    | apply no_error_api_log; discriminate
    | apply no_error_axios
    | apply no_error_signalCache_set
    | apply no_error_context_set
    | apply no_error_addToInput
    | apply respects_when; preorder
    | apply respects_bind; preorder; [|intros ?]
    | apply respects_try_catch; preorder; [|intros ?]
    | match goal with
      | |- respects _ (if ?b then _ else _) => destruct b
      | |- respects _ (let '(_, _) := ?p in _) => destruct p
      | |- respects _ (match ?p with (_, _) => _ end) => destruct p
      end ].

Lemma pipeline_no_error_logged w config : respects no_error_logged (pipeline w config).
Proof.
  unfold pipeline, initSignalCache, ensureSignalCache, steps, checkToken,
    getTokenEndpoint, getAccessToken, getApiEndpoint, callSignalApi, storeResponse.
  log_steps.
Qed.

(** X16.  An invocation logs at level [error] exactly when it fails: the
    entries of a successful invocation are all below [error], and a failed
    one ends its entries with the two [error] entries of the handler, the
    message and the details, with none before them. *)
Theorem error_logged_iff_failed w config s :
  cache_ok s ->
  exists new,
    log (signalApi w config s).2 = log s ++ new /\
    match (pipeline w config s).1 with
    | Normal _ => Forall (fun entry => entry.1 <> error) new
    | Throw e =>
        exists before,
          new = before ++
                [(error, Text ("Signal API Error: " +:+ ToString (errorMessage e)));
                 (error, Json "Error details: " (errorDetails e))] /\
          Forall (fun entry => entry.1 <> error) before
    end.
Proof.
  intros Hok.
  destruct (pipeline_no_error_logged w config s) as (new & E & Hnew).
  unfold signalApi, try_catch.
  destruct (pipeline w config s) as [[[]|e] s1] eqn:Ep; simpl in *.
  - by exists new.
  - destruct (pipeline_throw_frame _ _ _ _ _ Hok Ep) as (Hobj & _).
    apply is_object_inv in Hobj as [o Ho].
    rewrite (onError_object _ _ _ Ho). simpl. rewrite E.
    eexists. split; [|exists new; split; [reflexivity|done]].
    by rewrite <- !app_assoc.
Qed.

Lemma error_logged_iff_failed_offline :
  exists new,
    log (signalApi Scenario.offline Scenario.config Scenario.fresh).2
      = log Scenario.fresh ++ new /\
    match (pipeline Scenario.offline Scenario.config Scenario.fresh).1 with
    | Normal _ => Forall (fun entry => entry.1 <> error) new
    | Throw e =>
        exists before,
          new = before ++
                [(error, Text ("Signal API Error: " +:+ ToString (errorMessage e)));
                 (error, Json "Error details: " (errorDetails e))] /\
          Forall (fun entry => entry.1 <> error) before
    end.
Proof.
  apply (error_logged_iff_failed Scenario.offline Scenario.config Scenario.fresh).
  intros H. vm_compute in H. discriminate.
Defined.

(** ** The descriptor and the extension *)

(** X17.  Every connection field of the node names the type of a
    connection that the extension registers, and the schema of this
    connection has the two fields, [username] and [password], that the node
    function reads from it. *)
Theorem connections_registered f :
  In f Descriptor.fields ->
  Descriptor.type f = "connection" ->
  exists c,
    In c Extension.connections /\
    Descriptor.connectionType f = Some (Extension.type c) /\
    Extension.fields c = ["username"; "password"].
Proof.
  intros Hin Ht. simpl in Hin.
  destruct Hin as [<-|[<-|[<-|[<-|[<-|[<-|[]]]]]]]; try discriminate Ht.
  - exists Extension.cxoneBasicAuth. split_and!; [by left|done|done].
  - exists Extension.cxoneAppCredentials. split_and!; [by right; left|done|done].
Qed.

Lemma connections_registered_basic :
  exists c,
    In c Extension.connections /\
    Some "cxone-basic-auth" = Some (Extension.type c) /\
    Extension.fields c = ["username"; "password"].
Proof.
  apply (connections_registered
           (Descriptor.Field "basicAuthConnection" "connection"
                             (Some "cxone-basic-auth") true None [])).
  - left. reflexivity.
  - reflexivity.
Defined.

(** X18.  The descriptor is consistent with itself and with the node
    function: the fields are those that the function takes from [config],
    each once; the sections list every field exactly once, in the order of
    declaration; the form lists the sections in their order; the preview
    shows a declared field; and the default of the select [storageType] is
    one of its options. *)
Theorem descriptor_consistent :
  map Descriptor.key Descriptor.fields = Descriptor.config_keys /\
  List.NoDup Descriptor.config_keys /\
  concat (map Descriptor.section_fields Descriptor.sections) = Descriptor.config_keys /\
  Descriptor.form = map Descriptor.section_key Descriptor.sections /\
  In Descriptor.preview Descriptor.config_keys /\
  (forall f v, In f Descriptor.fields -> Descriptor.type f = "select" ->
               Descriptor.defaultValue f = Some (VStr v) ->
               In v (map snd (Descriptor.options f))).
Proof.
  split_and!; try reflexivity.
  - repeat constructor; simpl; intuition discriminate.
  - simpl. tauto.
  - intros f v Hin Ht Hd. simpl in Hin.
    destruct Hin as [<-|[<-|[<-|[<-|[<-|[<-|[]]]]]]]; try discriminate Ht.
    injection Hd as <-. simpl. tauto.
Qed.

(** X19.  With the storage key that the descriptor declares as default,
    the response is never stored over the cache: the default key is not
    [signal]. *)
Theorem default_storage_keeps_cache config :
  Descriptor.default_of "storageKey" = Some (VStr (storageKey config)) ->
  ~ stores_over_cache config.
Proof.
  intros H [_ Hk]. rewrite Hk in H. vm_compute in H. discriminate H.
Qed.

Lemma default_storage_keeps_cache_config : ~ stores_over_cache Scenario.config.
Proof. apply default_storage_keeps_cache. reflexivity. Defined.

(** ** The order of the calls *)

Lemma in_order_nil kinds : in_order kinds [].
Proof. induction kinds as [|K ks IH]; [done|by left]. Qed.

Lemma in_order_app ks1 ks2 l1 l2 :
  in_order ks1 l1 -> in_order ks2 l2 -> in_order (ks1 ++ ks2) (l1 ++ l2).
Proof.
  revert l1. induction ks1 as [|K ks IH]; intros l1 H1 H2.
  - simpl in H1. by subst.
  - destruct H1 as [H1|(r & l' & -> & Hr & H1)].
    + left. by apply IH.
    + right. exists r, (l' ++ l2). split_and!; [done|done|by apply IH].
Qed.

Lemma calls_in_order_bind ks1 ks2 {A B} (m : M A) (k : A -> M B) :
  calls_in_order ks1 m -> (forall a, calls_in_order ks2 (k a)) ->
  calls_in_order (ks1 ++ ks2) (bind m k).
Proof.
  intros Hm Hk s. destruct (Hm s) as (n1 & E1 & H1). unfold bind.
  destruct (m s) as [[a|e] s1]; simpl in *.
  - destruct (Hk a s1) as (n2 & E2 & H2). exists (n1 ++ n2).
    rewrite E2, E1, app_assoc. split; [done|by apply in_order_app].
  - exists n1. split; [done|].
    rewrite <- (app_nil_r n1). apply in_order_app; [done|apply in_order_nil].
Qed.

Lemma calls_in_order_silent {A} (m : M A) :
  (forall s, calls (m s).2 = calls s) -> calls_in_order [] m.
Proof. intros Hm s. exists []. by rewrite Hm, app_nil_r. Qed.

(** Closes the case of a step that made a call of the kind at hand, or
    none. *)
Ltac one_kind :=
  unfold ret, throw; simpl;
  first
    [ exists []; rewrite app_nil_r; split; [reflexivity|by left]
    | eexists [_]; split; [reflexivity|];
      right; do 2 eexists; split; [reflexivity|]; split; [|reflexivity];
      first [reflexivity | eexists; reflexivity | do 2 eexists; reflexivity] ].

Lemma getTokenEndpoint_in_order w needNewToken tokenEndpoint :
  calls_in_order [is_openid] (getTokenEndpoint w needNewToken tokenEndpoint).
Proof.
  intros s. unfold getTokenEndpoint.
  destruct (needNewToken && negb (truthy tokenEndpoint)); [|one_kind].
  unfold bind, api_log, axios, throw, ret, signalCache_set, context_get. simpl.
  destruct (http w openidRequest) as [r|e]; [|one_kind].
  destruct (_ || _); [one_kind|]. simpl.
  destruct (default VUndef (context s !! "signal")); one_kind.
Qed.

Lemma getApiEndpoint_in_order w apiEndpoint tenantId :
  calls_in_order [is_discovery] (getApiEndpoint w apiEndpoint tenantId).
Proof.
  intros s. unfold getApiEndpoint.
  destruct (negb (truthy apiEndpoint)); [|one_kind].
  unfold bind, api_log, axios, throw, ret, signalCache_set, context_get. simpl.
  destruct (http w (discoveryRequest tenantId)) as [r|e]; [|one_kind].
  destruct (_ || _); [one_kind|]. simpl.
  destruct (default VUndef (context s !! "signal")); one_kind.
Qed.

Lemma getAccessToken_in_order w config needNewToken tokenEndpoint token tenantId :
  calls_in_order [is_token config]
    (getAccessToken w config needNewToken tokenEndpoint token tenantId).
Proof.
  intros s. unfold getAccessToken.
  destruct needNewToken; [|one_kind].
  unfold bind, api_log, axios, throw, ret, signalCache_set, context_get, lift. simpl.
  destruct (http w (tokenRequest config tokenEndpoint)) as [r|e]; [|one_kind].
  destruct (_ || _); [one_kind|]. simpl.
  destruct (default VUndef (context s !! "signal")); try one_kind.
  simpl.
  destruct (decodeJWT _) as [claims|e]; [|one_kind].
  destruct (member claims "tenantId") as [tid|e]; [|one_kind].
  simpl. rewrite lookup_insert_eq. one_kind.
Qed.

Lemma callSignalApi_in_order w config apiEndpoint token :
  calls_in_order [is_signal config] (callSignalApi w config apiEndpoint token).
Proof.
  intros s. destruct (callSignalApi_calls w config apiEndpoint token s)
    as (s0 & _ & _ & Hc & ->).
  exists [signalRequest apiEndpoint token config]. split.
  - destruct (http w _); simpl; by rewrite Hc.
  - right. do 2 eexists. split_and!; [done|by do 2 eexists|done].
Qed.

(** X20.  The calls of an invocation are made in the order of the
    pipeline, at most one of each kind: the OpenID configuration, the token
    request, the discovery of the API endpoint, the signal call.  No kind
    of call is made twice and none out of turn. *)
Theorem calls_follow_pipeline w config :
  calls_in_order [is_openid; is_token config; is_discovery; is_signal config]
    (signalApi w config).
Proof.
  assert (calls_in_order [is_openid; is_token config; is_discovery; is_signal config]
            (pipeline w config)) as H.
  { unfold pipeline.
    apply (calls_in_order_bind [] _).
    { apply calls_in_order_silent. intros s.
      destruct (initSignalCache_spec s) as (s0 & -> & ->).
      by destruct (truthy (cache s)). }
    intros c. unfold steps.
    apply (calls_in_order_bind [] _).
    { apply calls_in_order_silent. intros s.
      destruct (checkToken_quiet w (get_prop c "token") (get_prop c "tenantId") s)
        as (b & t & s' & E & _ & _ & Hc).
      by rewrite E. }
    intros [needNewToken tenantId].
    apply (calls_in_order_bind [is_openid] _); [apply getTokenEndpoint_in_order|].
    intros tokenEndpoint.
    apply (calls_in_order_bind [is_token config] _); [apply getAccessToken_in_order|].
    intros [token tenantId'].
    apply (calls_in_order_bind [is_discovery] _); [apply getApiEndpoint_in_order|].
    intros apiEndpoint.
    apply (calls_in_order_bind [is_signal config] []); [apply callSignalApi_in_order|].
    intros r. apply calls_in_order_silent. intros s. rewrite storeResponse_spec.
    by destruct (String.eqb _ _). }
  intros s. destruct (H s) as (new & E & Hnew). exists new. split; [|done].
  unfold signalApi, try_catch.
  destruct (pipeline w config s) as [[[]|e] s1]; [done|].
  by rewrite onError_calls.
Qed.

(** ** What the cached path writes *)



(** ** Decoding what was encoded *)

Lemma base64_char_not_dot n : Ascii.eqb (base64_char n) "." = false.
Proof.
  unfold base64_char.
  destruct (nth_in_or_default (N.to_nat n) (list_ascii_of_string base64_alphabet)
              "="%char) as [Hin| ->]; [|done].
  revert Hin. generalize (nth (N.to_nat n) (list_ascii_of_string base64_alphabet)
                            "="%char).
  intros c Hin. simpl in Hin.
  repeat (destruct Hin as [<-|Hin]; [done|]). done.
Qed.

Lemma base64_encode_no_dot l : occurs "." (base64_encode l) = false.
Proof.
  induction l as [|a|a b|a b c r IH] using list_ind3.
  - done.
  - change (base64_encode [a])
      with (String (base64_char (N.shiftr a 2))
             (String (base64_char (N.shiftl (N.land a 3) 4)) "==")).
    cbn [occurs]. by rewrite !base64_char_not_dot.
  - change (base64_encode [a; b])
      with (String (base64_char (N.shiftr a 2))
             (String (base64_char (N.lor (N.shiftl (N.land a 3) 4) (N.shiftr b 4)))
               (String (base64_char (N.shiftl (N.land b 15) 2)) "="))).
    cbn [occurs]. by rewrite !base64_char_not_dot.
  - change (base64_encode (a :: b :: c :: r))
      with (String (base64_char (N.shiftr a 2))
             (String (base64_char (N.lor (N.shiftl (N.land a 3) 4) (N.shiftr b 4)))
               (String (base64_char (N.lor (N.shiftl (N.land b 15) 2) (N.shiftr c 6)))
                 (String (base64_char (N.land c 63)) (base64_encode r))))).
    cbn [occurs]. by rewrite !base64_char_not_dot, IH.
Qed.

Lemma utf8_decode_ascii l :
  Forall (fun b => (b < 128)%N) l -> utf8_decode utf8_idle l = l.
Proof.
  induction 1 as [|b l Hb Hl IH]; [done|].
  cbn [utf8_decode]. unfold utf8_step, utf8_idle at 1. cbn [needed]. unfold utf8_lead.
  assert ((b <=? 127)%N = true) as -> by (apply N.leb_le; lia).
  by rewrite IH.
Qed.

Lemma string_of_bytes_of_string s : string_of_bytes (bytes_of_string s) = s.
Proof.
  unfold string_of_bytes, bytes_of_string, chr, code. rewrite map_map.
  rewrite (map_ext _ id) by apply ascii_N_embedding.
  by rewrite map_id, string_of_list_ascii_of_string.
Qed.

(** X22.  [decodeJWT] undoes the encoding of a payload: a token whose
    middle segment is the base64 of an ASCII text, between a header and a
    signature without dots, decodes to what [JSON.parse] gives for this
    text; and when the text is not JSON it fails, with an error whose
    message is [Failed to decode JWT: ] followed by the reason that
    [JSON.parse] gave. *)
Theorem decodeJWT_of_encoded h g text :
  occurs "." h = false -> occurs "." g = false ->
  Forall (fun b => (b < 128)%N) (bytes_of_string text) ->
  match JSON_parse text with
  | Some claims =>
      decodeJWT (VStr (join "." [h; base64_encode (bytes_of_string text); g]))
        = Normal claims
  | None =>
      exists reason,
        decodeJWT (VStr (join "." [h; base64_encode (bytes_of_string text); g]))
          = Throw (Error ("Failed to decode JWT: " +:+ reason))
  end.
Proof.
  intros Hh Hg Hascii. unfold decodeJWT, decodeJWT_try.
  rewrite token_parts by done.
  rewrite (split_free _ _ (base64_encode_no_dot _)).
  cbn [app List.length nth Nat.eqb negb].
  rewrite base64_round_trip
    by (eapply Forall_impl; [exact Hascii|]; intros b Hb; simpl in *; lia).
  unfold Buffer_toString_utf8.
  rewrite utf8_decode_ascii, string_of_bytes_of_string by done.
  destruct (JSON_parse text); [done|by eexists].
Qed.

Lemma decodeJWT_of_encoded_claims :
  decodeJWT (VStr (join "." ["h"; base64_encode (bytes_of_string Sessions.claims_text);
                             "s"]))
    = Normal Scenario.valid_claims.
Proof.
  pose proof (decodeJWT_of_encoded "h" "s" Sessions.claims_text) as H.
  assert (JSON_parse Sessions.claims_text = Some Scenario.valid_claims) as E
    by (vm_compute; reflexivity).
  rewrite E in H. apply H.
  - reflexivity.
  - reflexivity.
  - vm_compute. repeat (constructor; [reflexivity|]). constructor.
Defined.
